(** * unplugin-tailwind-prefixer: the token rewrite engine of [src/plugin.ts]

    A shallow embedding of the variant splitter, the token classifier, the
    token prefixer, the string rewriter, the JSX attribute visitor and the
    two hooks of the plugin, with the properties the specification states
    about them.

    Strings.  A JavaScript string is a sequence of UTF-16 code units.  The
    embedding uses [string]; one [ascii] stands for one code unit in the
    range 0..255.  Every character the program tests for (the colon, the
    brackets, the two quotes, the backslash, the exclamation mark, the
    hyphen, the letters and the white space below 256) lies in that range. *)

From Stdlib Require Import String Ascii List ZArith Bool Lia Arith.
Import ListNotations.

Local Open Scope string_scope.
Local Open Scope list_scope.

(** ** JavaScript string and array primitives used by the plugin *)

Module Js.

(** [!s] on a string: true exactly for the empty string. *)
Definition is_empty (s : string) : bool :=
  match s with
  | EmptyString => true
  | String _ _ => false
  end.

(** [buf += ch] *)
Definition push_char (buf : string) (ch : ascii) : string :=
  buf ++ String ch EmptyString.

(** [s.startsWith(p)] *)
Definition startsWith (s p : string) : bool := String.prefix p s.

(** [s.slice(1)] *)
Definition slice1 (s : string) : string :=
  match s with
  | EmptyString => EmptyString
  | String _ rest => rest
  end.

(** [xs.join(sep)] on an array of strings. *)
Definition join (sep : string) (xs : list string) : string :=
  String.concat sep xs.

(** [xs.pop()]: the array without its last element, and that element
    ([None] is [undefined], on the empty array). *)
Fixpoint pop {A : Type} (xs : list A) : list A * option A :=
  match xs with
  | [] => ([], None)
  | [x] => ([], Some x)
  | x :: rest => let '(front, l) := pop rest in (x :: front, l)
  end.

(** [xs[xs.length - 1]] *)
Definition last_elem {A : Type} (xs : list A) : option A := snd (pop xs).

(** [v ?? d] *)
Definition nullish {A : Type} (v : option A) (d : A) : A :=
  match v with
  | Some x => x
  | None => d
  end.

(** [/[A-Z]/.test(s)] *)
Definition is_upper (c : ascii) : bool :=
  let n := nat_of_ascii c in ((65 <=? n) && (n <=? 90))%nat.

Fixpoint has_upper (s : string) : bool :=
  match s with
  | EmptyString => false
  | String c rest => is_upper c || has_upper rest
  end.

(** The class [[a-z-]]. *)
Definition is_lower_or_hyphen (c : ascii) : bool :=
  let n := nat_of_ascii c in (((97 <=? n) && (n <=? 122)) || (n =? 45))%nat.

Fixpoint all_chars (p : ascii -> bool) (s : string) : bool :=
  match s with
  | EmptyString => true
  | String c rest => p c && all_chars p rest
  end.

(** [/^[a-z-]+$/.test(s)] *)
Definition lower_hyphen_word (s : string) : bool :=
  negb (is_empty s) && all_chars is_lower_or_hyphen s.

(** The class [\s] restricted to code units below 256: tab, line feed,
    vertical tab, form feed, carriage return, space, no-break space. *)
Definition is_space (c : ascii) : bool :=
  let n := nat_of_ascii c in
  (((9 <=? n) && (n <=? 13)) || (n =? 32) || (n =? 160))%nat.

(** [s.split(/\s+/g)]: the pieces between maximal runs of white space,
    with an empty first piece when [s] starts with white space and an
    empty last piece when it ends with white space (the empty string
    gives one empty piece). *)
Fixpoint split_ws_from (buf : string) (in_ws : bool) (s : string)
  : list string :=
  match s with
  | EmptyString => [buf]
  | String c rest =>
      if is_space c then
        if in_ws then split_ws_from buf true rest
        else buf :: split_ws_from EmptyString true rest
      else split_ws_from (push_char buf c) false rest
  end.

Definition split_ws (s : string) : list string :=
  split_ws_from EmptyString false s.

(** [s.split(hyphen)[0]]: the part of [s] before its first hyphen. *)
Fixpoint before_hyphen (s : string) : string :=
  match s with
  | EmptyString => EmptyString
  | String c rest =>
      if Ascii.eqb c "-" then EmptyString else String c (before_hyphen rest)
  end.

End Js.

(** ** The variant splitter ([splitVariants]) *)

(** The local variables of the loop: [parts], [buf], [depth], [quote]. *)
Record SplitState : Type := mkSplit {
  parts : list string;
  buf : string;
  depth : Z;
  quote : option ascii
}.

Definition split_init : SplitState :=
  {| parts := []; buf := ""; depth := 0%Z; quote := None |}.

(** The double quote character (code unit 34). *)
Definition dquote : ascii := ascii_of_nat 34.

(** The test that [ch] is the single or the double quote character. *)
Definition is_quote_char (ch : ascii) : bool :=
  Ascii.eqb ch "'" || Ascii.eqb ch dquote.

(** The test that [token[i - 1]] is not the backslash, where [prev] is
    [token[i - 1]] ([None] when [i] is 0 and the lookup gives [undefined]). *)
Definition not_backslash (prev : option ascii) : bool :=
  match prev with
  | Some p => negb (Ascii.eqb p "\")
  | None => true
  end.

(** One iteration of the loop body on the character [ch = token[i]]. *)
Definition split_step (prev : option ascii) (ch : ascii) (st : SplitState)
  : SplitState :=
  match quote st with
  | Some q =>
      {| parts := parts st;
         buf := Js.push_char (buf st) ch;
         depth := depth st;
         quote := if Ascii.eqb ch q && not_backslash prev then None
                  else Some q |}
  | None =>
      if is_quote_char ch then
        {| parts := parts st; buf := Js.push_char (buf st) ch;
           depth := depth st; quote := Some ch |}
      else if Ascii.eqb ch "[" then
        {| parts := parts st; buf := Js.push_char (buf st) ch;
           depth := (depth st + 1)%Z; quote := None |}
      else if Ascii.eqb ch "]" then
        {| parts := parts st; buf := Js.push_char (buf st) ch;
           depth := Z.max 0 (depth st - 1); quote := None |}
      else if Ascii.eqb ch ":" && (depth st =? 0)%Z then
        {| parts := parts st ++ [buf st]; buf := "";
           depth := depth st; quote := None |}
      else
        {| parts := parts st; buf := Js.push_char (buf st) ch;
           depth := depth st; quote := None |}
  end.

(** [token[i - 1]]: [undefined] at index 0, where the index is -1. *)
Definition char_before (token : string) (i : nat) : option ascii :=
  match i with
  | O => None
  | S j => String.get j token
  end.

(** The [for] loop from index [i] on, with [todo] iterations to go: it
    stops when [i] reaches the length of the token. *)
Fixpoint split_for (token : string) (todo i : nat) (st : SplitState)
  : SplitState :=
  match todo with
  | O => st
  | S todo' =>
      match String.get i token with
      | Some ch =>
          split_for token todo' (S i) (split_step (char_before token i) ch st)
      | None => st
      end
  end.

(** The state of the loop when it ends. *)
Definition scan (token : string) : SplitState :=
  split_for token (String.length token) 0 split_init.

(** [if (buf) parts.push(buf); return parts;] *)
Definition split_finish (st : SplitState) : list string :=
  if Js.is_empty (buf st) then parts st else parts st ++ [buf st].

Definition splitVariants (token : string) : list string :=
  split_finish (scan token).

(** ** The token classifier ([isLikelyTailwindToken]) *)

(** The entries of the set [TW_ROOTS], in source order.  The set is only
    ever queried with [has]. *)
Definition TW_ROOTS : list string :=
  [ (* layout/display/position *)
    "container"; "sr-only"; "not-sr-only"; "static"; "fixed"; "absolute";
    "relative"; "sticky"; "block"; "inline"; "inline-block"; "inline-flex";
    "flex"; "grid"; "table"; "contents"; "hidden";
    (* spacing/sizing *)
    "m"; "mx"; "my"; "mt"; "mr"; "mb"; "ml";
    "p"; "px"; "py"; "pt"; "pr"; "pb"; "pl";
    "space-x"; "space-y"; "w"; "h"; "min-w"; "min-h"; "max-w"; "max-h";
    "size"; "inset"; "top"; "right"; "bottom"; "left";
    (* typography *)
    "font"; "text"; "antialiased"; "subpixel-antialiased"; "tracking";
    "leading"; "list"; "placeholder";
    (* backgrounds/borders/effects *)
    "bg"; "from"; "via"; "to"; "border"; "rounded"; "shadow"; "ring";
    "outline"; "opacity"; "decoration";
    (* flex/grid *)
    "flex-grow"; "grow"; "flex-shrink"; "shrink"; "basis"; "order";
    "grid-cols"; "grid-rows"; "col"; "row"; "gap"; "place"; "items";
    "justify"; "content"; "self"; "auto-cols"; "auto-rows";
    (* transforms/transitions *)
    "transform"; "scale"; "rotate"; "translate"; "skew"; "origin";
    "transition"; "duration"; "ease"; "delay";
    (* interactivity/state *)
    "cursor"; "select"; "resize"; "scroll"; "snap"; "touch";
    "pointer-events"; "accent"; "appearance";
    (* svg/filters/tables/etc *)
    "fill"; "stroke"; "stroke-w"; "filter"; "backdrop";
    (* misc common utilities *)
    "z"; "overflow"; "object"; "align"; "whitespace"; "break"; "isolate";
    "isolation" ].

(** [TW_ROOTS.has(s)] *)
Definition TW_ROOTS_has (s : string) : bool :=
  existsb (String.eqb s) TW_ROOTS.

(** The source also tests whether the token starts with an opening brace,
    bracket or parenthesis; the body of that test is empty, so it has no
    counterpart here. *)
Definition isLikelyTailwindToken (token : string) : bool :=
  if Js.is_empty token || Js.has_upper token then false
  else
    let segments := splitVariants token in
    match Js.last_elem segments with
    | None => false
    | Some core =>
        if Js.is_empty core then false
        else if TW_ROOTS_has core || TW_ROOTS_has (Js.before_hyphen core)
        then true
        else if Js.lower_hyphen_word core && TW_ROOTS_has core then true
        else false
    end.

(** ** The token prefixer ([prefixOneToken]) *)

Definition prefixOneToken (token prefix : string) : string :=
  if Js.is_empty prefix then token
  else
    let '(important, token) :=
      if Js.startsWith token "!" then ("!", Js.slice1 token) else ("", token)
    in
    let '(segments, popped) := Js.pop (splitVariants token) in
    let last := Js.nullish popped "" in
    if Js.startsWith last prefix then
      important ++ Js.join ":" (segments ++ [last])
    else
      important ++ Js.join ":" (segments ++ [(prefix ++ last)%string]).

(** ** The string rewriter ([transformClassesInString]) *)

(** The optional [isTw] argument: [None] is [undefined].  The classifier
    is taken here as a function that returns, which the specification
    requires of it; [Hook.Classifier] below is one whose call may throw. *)
Definition Classifier : Type := option (string -> bool).

(** [(isTw ?? isLikelyTailwindToken)(tok)] *)
Definition shouldPrefix (isTw : Classifier) (tok : string) : bool :=
  Js.nullish isTw isLikelyTailwindToken tok.

(** The body of the loop over the tokens, with [out] the array built so
    far. *)
Definition rewrite_step (prefix : string) (isTw : Classifier)
  (out : list string) (tok : string) : list string :=
  if Js.is_empty tok then out
  else out ++ [if shouldPrefix isTw tok then prefixOneToken tok prefix
               else tok].

(** The array [out] when the loop ends. *)
Definition rewritten_tokens (input prefix : string) (isTw : Classifier)
  : list string :=
  let tokens := Js.split_ws input in
  fold_left (rewrite_step prefix isTw) tokens [].

Definition transformClassesInString (input prefix : string)
  (isTw : Classifier) : string :=
  Js.join " " (rewritten_tokens input prefix isTw).

(** ** The syntax tree

    The part of the Babel tree the visitor inspects.  Node kinds the visitor
    never looks into are kept as [OtherNode] with their child nodes, so that
    a traversal still reaches the attributes nested in them. *)

(** The [operator] of a [LogicalExpression]: [||], [&&], [??]. *)
Inductive LogicalOperator : Type :=
  | LogicalOr
  | LogicalAnd
  | NullishCoalescing.

(** A [TemplateElement]: [value.raw] and [value.cooked] ([None] when the
    parser left [cooked] undefined or null). *)
Record TemplateElement : Type := mkQuasi {
  raw : string;
  cooked : option string
}.

(** The [name] of a [JSXAttribute]: a [JSXIdentifier], whose own [name] is a
    string, or a [JSXNamespacedName], whose [name] is a node. *)
Inductive JSXAttributeName : Type :=
  | JSXIdentifier (name : string)
  | JSXNamespacedName (namespace name : string).

#[local] Set Warnings "-register-all".

Inductive Node : Type :=
  | StringLiteral (value : string)
  | TemplateLiteral (quasis : list TemplateElement) (expressions : list Node)
  | Identifier (name : string)
  | CallExpression (callee : Node) (arguments : list Node)
  | LogicalExpression (operator : LogicalOperator) (left right : Node)
  | ObjectExpression (properties : list Node)
  | ArrayExpression (elements : list Node)
  | SpreadElement (argument : Node)
  | JSXExpressionContainer (expression : Node)
  | JSXAttribute (name : JSXAttributeName) (value : option Node)
  | OtherNode (type : string) (children : list Node).

(** ** The plugin options and its state *)

(** [include] and [exclude]: a regular expression, given by its [test], or a
    function; here a matcher whose answer depends on the id alone, that is
    a regular expression without the g and y flags or a function that
    returns and keeps no state.  [Hook.Matcher] below is a matcher with
    these effects, and the filter the hooks run is [Hook.makeFilter]. *)
Inductive Matcher : Type :=
  | MatchRegExp (test : string -> bool)
  | MatchFunction (f : string -> bool).

(** The fields of the options object, over the type [M] of a matcher and
    the type [C] of a classifier function: the hooks below receive these
    from JavaScript, where a call may throw or keep state. *)
Record PluginOptions (M C : Type) : Type := mkOpts {
  tailwindConfig : option string;
  prefixOverride : option string;
  attributes : option (list string);
  include : option M;
  exclude : option M;
  isTwToken : option C
}.

Arguments mkOpts {M C}.
Arguments tailwindConfig {M C}.
Arguments prefixOverride {M C}.
Arguments attributes {M C}.
Arguments include {M C}.
Arguments exclude {M C}.
Arguments isTwToken {M C}.

(** The options whose matchers and classifier are functions that return and
    keep no state. *)
Definition TailwindPrefixPluginOpts : Type :=
  PluginOptions Matcher (string -> bool).

(** The options object with no field set. *)
Definition empty_opts : TailwindPrefixPluginOpts :=
  {| tailwindConfig := None; prefixOverride := None; attributes := None;
     include := None; exclude := None; isTwToken := None |}.

Module Regex.

Definition to_lower (c : ascii) : ascii :=
  if Js.is_upper c then ascii_of_nat (nat_of_ascii c + 32) else c.

Fixpoint lower (s : string) : string :=
  match s with
  | EmptyString => EmptyString
  | String c rest => String (to_lower c) (lower rest)
  end.

Definition ends_with (s suffix : string) : bool :=
  let n := String.length s in
  let k := String.length suffix in
  (k <=? n)%nat && String.eqb (String.substring (n - k) k s) suffix.

Definition contains (s sub : string) : bool :=
  match String.index 0 sub s with
  | Some _ => true
  | None => false
  end.

(** The default [include]: the extension is jsx, tsx, js or ts, in any
    letter case. *)
Definition default_include (id : string) : bool :=
  existsb (ends_with (lower id)) [".jsx"; ".tsx"; ".js"; ".ts"].

(** The default [exclude]: the text [node_modules] occurs in the path. *)
Definition default_exclude (id : string) : bool :=
  contains id "node_modules".

End Regex.

Definition run_matcher (m : Matcher) (id : string) : bool :=
  match m with
  | MatchRegExp test => test id
  | MatchFunction f => f id
  end.

Definition makeFilter (opts : TailwindPrefixPluginOpts) (id : string) : bool :=
  let include := Js.nullish (include opts) (MatchRegExp Regex.default_include) in
  let exclude := Js.nullish (exclude opts) (MatchRegExp Regex.default_exclude) in
  let inc := run_matcher include id in
  let exc := run_matcher exclude id in
  inc && negb exc.

(** ** The JSX attribute visitor *)

Definition isTargetJSXAttribute (name : JSXAttributeName)
  (names : list string) : bool :=
  match name with
  | JSXIdentifier n => existsb (String.eqb n) names
  | JSXNamespacedName _ _ => false
  end.

(** [transformTemplateLiteralIfStatic], on the [quasis] and [expressions]
    of the template literal; [None] is the [null] it returns. *)
Definition transformTemplateLiteralIfStatic (quasis : list TemplateElement)
  (expressions : list Node) (prefix : string) (isTw : Classifier)
  : option Node :=
  match expressions with
  | _ :: _ => None
  | [] =>
      let raw := Js.join "" (map (fun q => Js.nullish (cooked q) (raw q)) quasis) in
      let transformed := transformClassesInString raw prefix isTw in
      Some (StringLiteral transformed)
  end.

(** What the visitor does to a node it has found to be a template literal:
    when the template is static the node is overwritten in place, its type
    becoming [StringLiteral]. *)
Definition replace_template (node : Node) (quasis : list TemplateElement)
  (expressions : list Node) (prefix : string) (isTw : Classifier) : Node :=
  match transformTemplateLiteralIfStatic quasis expressions prefix isTw with
  | Some (StringLiteral v) => StringLiteral v
  | _ => node
  end.

(** The body of the loop over the arguments of a helper call. *)
Definition rewrite_argument (prefix : string) (isTw : Classifier)
  (arg : Node) : Node :=
  match arg with
  | StringLiteral v => StringLiteral (transformClassesInString v prefix isTw)
  | TemplateLiteral q e => replace_template arg q e prefix isTw
  | LogicalExpression op l r =>
      match r with
      | StringLiteral v =>
          LogicalExpression op l
            (StringLiteral (transformClassesInString v prefix isTw))
      | TemplateLiteral q e =>
          LogicalExpression op l (replace_template r q e prefix isTw)
      | _ => arg
      end
  | _ => arg
  end.

(** The callee is an identifier named [clsx] or [classnames]. *)
Definition is_helper_callee (callee : Node) : bool :=
  match callee with
  | Identifier n => String.eqb n "clsx" || String.eqb n "classnames"
  | _ => false
  end.

(** The first [if] of the visitor: the arguments of a helper call are
    rewritten in place; the attribute value stays the same container. *)
Definition rewrite_helper_call (prefix : string) (isTw : Classifier)
  (val : option Node) : option Node :=
  match val with
  | Some (JSXExpressionContainer (CallExpression callee args)) =>
      if is_helper_callee callee then
        Some (JSXExpressionContainer
                (CallExpression callee (map (rewrite_argument prefix isTw) args)))
      else val
  | _ => val
  end.

(** The visitor for [JSXAttribute] nodes: the value the attribute holds
    when the visitor returns. *)
Definition visit_JSXAttribute (attrs : list string) (prefix : string)
  (isTw : Classifier) (name : JSXAttributeName) (value : option Node)
  : option Node :=
  if negb (isTargetJSXAttribute name attrs) then value
  else
    let val := rewrite_helper_call prefix isTw value in
    match val with
    | Some (StringLiteral v) =>
        Some (StringLiteral (transformClassesInString v prefix isTw))
    | Some (JSXExpressionContainer (TemplateLiteral q e)) =>
        match transformTemplateLiteralIfStatic q e prefix isTw with
        | Some replaced => Some replaced
        | None => val
        end
    | _ => val
    end.

(** ** The plugin state, the traversal and the tree pass *)

(** The cached prefix of the plugin instance: [None] is [null]. *)
Record PluginState : Type := mkState {
  cachedPrefix : option string
}.

Definition initial_state : PluginState := {| cachedPrefix := None |}.

(** [userOpts?.field]: the options object itself may be undefined. *)
Definition opt_field {O A : Type} (f : O -> option A)
  (userOpts : option O) : option A :=
  match userOpts with
  | Some o => f o
  | None => None
  end.

Definition plugin_attrs {M C : Type} (userOpts : option (PluginOptions M C))
  : list string :=
  Js.nullish (opt_field attributes userOpts) ["className"; "class"; "tw"].

(** The [buildStart] hook. *)
Definition buildStart {M C : Type} (userOpts : option (PluginOptions M C))
  (st : PluginState) : PluginState :=
  {| cachedPrefix := Some (Js.nullish (opt_field prefixOverride userOpts) "") |}.

(** The walk over a list of children: it gives a list when the walk of
    every child gives a tree. *)
Fixpoint mapM {A B : Type} (f : A -> option B) (xs : list A)
  : option (list B) :=
  match xs with
  | [] => Some []
  | x :: rest =>
      match f x, mapM f rest with
      | Some y, Some ys => Some (y :: ys)
      | _, _ => None
      end
  end.

(** The walk of [traverse]: a node is handed to the visitor when it is
    entered, and the walk then goes on into the children the node has after
    the visitor returned.  [fuel] bounds the depth of the walk; [None] means
    the bound was reached. *)
Fixpoint traverse_fuel (fuel : nat)
  (visitor : JSXAttributeName -> option Node -> option Node) (n : Node)
  : option Node :=
  match fuel with
  | O => None
  | S fuel' =>
      let go := traverse_fuel fuel' visitor in
      match n with
      | StringLiteral _ => Some n
      | Identifier _ => Some n
      | TemplateLiteral q es => option_map (TemplateLiteral q) (mapM go es)
      | CallExpression c args =>
          match go c, mapM go args with
          | Some c', Some args' => Some (CallExpression c' args')
          | _, _ => None
          end
      | LogicalExpression op l r =>
          match go l, go r with
          | Some l', Some r' => Some (LogicalExpression op l' r')
          | _, _ => None
          end
      | ObjectExpression ps => option_map ObjectExpression (mapM go ps)
      | ArrayExpression es => option_map ArrayExpression (mapM go es)
      | SpreadElement a => option_map SpreadElement (go a)
      | JSXExpressionContainer e => option_map JSXExpressionContainer (go e)
      | JSXAttribute name value =>
          match visitor name value with
          | None => Some (JSXAttribute name None)
          | Some v => option_map (fun v' => JSXAttribute name (Some v')) (go v)
          end
      | OtherNode ty cs => option_map (OtherNode ty) (mapM go cs)
      end
  end.

(** The height of a tree, which bounds the depth of the walk. *)
Fixpoint height (n : Node) : nat :=
  let fix heights (ns : list Node) : nat :=
    match ns with
    | [] => 0
    | m :: rest => Nat.max (height m) (heights rest)
    end in
  match n with
  | StringLiteral _ => 1
  | Identifier _ => 1
  | TemplateLiteral _ es => S (heights es)
  | CallExpression c args => S (Nat.max (height c) (heights args))
  | LogicalExpression _ l r => S (Nat.max (height l) (height r))
  | ObjectExpression ps => S (heights ps)
  | ArrayExpression es => S (heights es)
  | SpreadElement a => S (height a)
  | JSXExpressionContainer e => S (height e)
  | JSXAttribute _ None => 1
  | JSXAttribute _ (Some v) => S (height v)
  | OtherNode _ cs => S (heights cs)
  end.

Definition traverse (visitor : JSXAttributeName -> option Node -> option Node)
  (ast : Node) : option Node :=
  traverse_fuel (height ast) visitor ast.

Section Transform.

Variable userOpts : option TailwindPrefixPluginOpts.

(** The tree pass of [transform] under a given prefix. *)
Definition rewrite_tree (prefix : string) (ast : Node) : option Node :=
  traverse
    (visit_JSXAttribute (plugin_attrs userOpts) prefix
       (opt_field isTwToken userOpts))
    ast.

End Transform.

(** * The hooks, under callbacks that throw or keep state

    The functions above take the classifier and the matchers of the options
    as functions that return and keep no state.  The options come from
    JavaScript: a call of [isTwToken], of [include] or of [exclude] may
    throw, and nothing in the plugin catches an exception; the [test] of a
    regular expression with the g or the y flag reads and writes the
    [lastIndex] of the expression, and a function may keep state of its
    own.  The hooks are modelled with these effects.  The classifier is
    taken to have no state, as the specification requires of it; its
    exceptions are kept. *)

(** What a call gives: the value it returns, or an exception. *)
Inductive Outcome (A : Type) : Type :=
  | Returned (value : A)
  | Thrown.

Arguments Returned {A} value.
Arguments Thrown {A}.

Module Hook.

(** Sequencing: an exception ends the computation. *)
Definition bind {A B : Type} (m : Outcome A) (k : A -> Outcome B)
  : Outcome B :=
  match m with
  | Returned a => k a
  | Thrown => Thrown
  end.

Notation "x <- m ;; k" := (bind m (fun x => k))
  (at level 61, m at next level, right associativity).

(** The optional [isTw] argument, as a JavaScript function. *)
Definition Classifier : Type := option (string -> Outcome bool).

(** [(isTw ?? isLikelyTailwindToken)(tok)]: the default classifier always
    returns. *)
Definition shouldPrefix (isTw : Classifier) (tok : string) : Outcome bool :=
  match isTw with
  | Some f => f tok
  | None => Returned (isLikelyTailwindToken tok)
  end.

(** The body of the loop over the tokens. *)
Definition rewrite_step (prefix : string) (isTw : Classifier)
  (out : list string) (tok : string) : Outcome (list string) :=
  if Js.is_empty tok then Returned out
  else
    b <- shouldPrefix isTw tok ;;
    Returned (out ++ [if b then prefixOneToken tok prefix else tok]).

(** A [for ... of] loop whose body may throw, over the state [s]. *)
Fixpoint for_of {A S : Type} (body : S -> A -> Outcome S) (xs : list A)
  (s : S) : Outcome S :=
  match xs with
  | [] => Returned s
  | x :: rest => s' <- body s x ;; for_of body rest s'
  end.

Definition rewritten_tokens (input prefix : string) (isTw : Classifier)
  : Outcome (list string) :=
  let tokens := Js.split_ws input in
  for_of (rewrite_step prefix isTw) tokens [].

Definition transformClassesInString (input prefix : string)
  (isTw : Classifier) : Outcome string :=
  out <- rewritten_tokens input prefix isTw ;;
  Returned (Js.join " " out).

Definition transformTemplateLiteralIfStatic (quasis : list TemplateElement)
  (expressions : list Node) (prefix : string) (isTw : Classifier)
  : Outcome (option Node) :=
  match expressions with
  | _ :: _ => Returned None
  | [] =>
      let raw := Js.join "" (map (fun q => Js.nullish (cooked q) (raw q)) quasis) in
      transformed <- transformClassesInString raw prefix isTw ;;
      Returned (Some (StringLiteral transformed))
  end.

Definition replace_template (node : Node) (quasis : list TemplateElement)
  (expressions : list Node) (prefix : string) (isTw : Classifier)
  : Outcome Node :=
  replaced <- transformTemplateLiteralIfStatic quasis expressions prefix isTw ;;
  Returned match replaced with
           | Some (StringLiteral v) => StringLiteral v
           | _ => node
           end.

(** The body of the loop over the arguments of a helper call. *)
Definition rewrite_argument (prefix : string) (isTw : Classifier)
  (arg : Node) : Outcome Node :=
  match arg with
  | StringLiteral v =>
      v' <- transformClassesInString v prefix isTw ;;
      Returned (StringLiteral v')
  | TemplateLiteral q e => replace_template arg q e prefix isTw
  | LogicalExpression op l r =>
      match r with
      | StringLiteral v =>
          v' <- transformClassesInString v prefix isTw ;;
          Returned (LogicalExpression op l (StringLiteral v'))
      | TemplateLiteral q e =>
          r' <- replace_template r q e prefix isTw ;;
          Returned (LogicalExpression op l r')
      | _ => Returned arg
      end
  | _ => Returned arg
  end.

(** The loop over the arguments: they are rewritten in order, and an
    exception ends the loop. *)
Fixpoint each {A B : Type} (f : A -> Outcome B) (xs : list A)
  : Outcome (list B) :=
  match xs with
  | [] => Returned []
  | x :: rest => y <- f x ;; ys <- each f rest ;; Returned (y :: ys)
  end.

Definition rewrite_helper_call (prefix : string) (isTw : Classifier)
  (val : option Node) : Outcome (option Node) :=
  match val with
  | Some (JSXExpressionContainer (CallExpression callee args)) =>
      if is_helper_callee callee then
        args' <- each (rewrite_argument prefix isTw) args ;;
        Returned (Some (JSXExpressionContainer (CallExpression callee args')))
      else Returned val
  | _ => Returned val
  end.

(** The visitor for [JSXAttribute] nodes. *)
Definition visit_JSXAttribute (attrs : list string) (prefix : string)
  (isTw : Classifier) (name : JSXAttributeName) (value : option Node)
  : Outcome (option Node) :=
  if negb (isTargetJSXAttribute name attrs) then Returned value
  else
    val <- rewrite_helper_call prefix isTw value ;;
    match val with
    | Some (StringLiteral v) =>
        v' <- transformClassesInString v prefix isTw ;;
        Returned (Some (StringLiteral v'))
    | Some (JSXExpressionContainer (TemplateLiteral q e)) =>
        replaced <- transformTemplateLiteralIfStatic q e prefix isTw ;;
        Returned match replaced with
                 | Some r => Some r
                 | None => val
                 end
    | _ => Returned val
    end.

(** A step of the walk: [None] means the bound on the depth was reached,
    an exception ends the walk. *)
Definition walk_bind {A B : Type} (m : option (Outcome A))
  (k : A -> option (Outcome B)) : option (Outcome B) :=
  match m with
  | Some (Returned a) => k a
  | Some Thrown => Some Thrown
  | None => None
  end.

Definition walk_ret {A : Type} (a : A) : option (Outcome A) :=
  Some (Returned a).

(** The walk over a list of children, in order. *)
Fixpoint walk_list {A B : Type} (f : A -> option (Outcome B)) (xs : list A)
  : option (Outcome (list B)) :=
  match xs with
  | [] => walk_ret []
  | x :: rest =>
      walk_bind (f x) (fun y =>
      walk_bind (walk_list f rest) (fun ys => walk_ret (y :: ys)))
  end.

(** The walk of [traverse], as above, with a visitor that may throw. *)
Fixpoint traverse_fuel (fuel : nat)
  (visitor : JSXAttributeName -> option Node -> Outcome (option Node))
  (n : Node) : option (Outcome Node) :=
  match fuel with
  | O => None
  | S fuel' =>
      let go := traverse_fuel fuel' visitor in
      match n with
      | StringLiteral _ => walk_ret n
      | Identifier _ => walk_ret n
      | TemplateLiteral q es =>
          walk_bind (walk_list go es) (fun es' =>
          walk_ret (TemplateLiteral q es'))
      | CallExpression c args =>
          walk_bind (go c) (fun c' =>
          walk_bind (walk_list go args) (fun args' =>
          walk_ret (CallExpression c' args')))
      | LogicalExpression op l r =>
          walk_bind (go l) (fun l' =>
          walk_bind (go r) (fun r' =>
          walk_ret (LogicalExpression op l' r')))
      | ObjectExpression ps =>
          walk_bind (walk_list go ps) (fun ps' =>
          walk_ret (ObjectExpression ps'))
      | ArrayExpression es =>
          walk_bind (walk_list go es) (fun es' =>
          walk_ret (ArrayExpression es'))
      | SpreadElement a =>
          walk_bind (go a) (fun a' => walk_ret (SpreadElement a'))
      | JSXExpressionContainer e =>
          walk_bind (go e) (fun e' => walk_ret (JSXExpressionContainer e'))
      | JSXAttribute name value =>
          match visitor name value with
          | Thrown => Some Thrown
          | Returned None => walk_ret (JSXAttribute name None)
          | Returned (Some v) =>
              walk_bind (go v) (fun v' =>
              walk_ret (JSXAttribute name (Some v')))
          end
      | OtherNode ty cs =>
          walk_bind (walk_list go cs) (fun cs' => walk_ret (OtherNode ty cs'))
      end
  end.

Definition traverse
  (visitor : JSXAttributeName -> option Node -> Outcome (option Node))
  (ast : Node) : option (Outcome Node) :=
  traverse_fuel (height ast) visitor ast.

(** What [transform] gives back: [null] for a file the filter rejects, an
    exception, out of the filter, the parser or the classifier, or the
    generated code. *)
Inductive Failure : Type :=
  | FilterThrew
  | ParserThrew
  | ClassifierThrew.

Inductive TransformResult : Type :=
  | Skipped
  | Failed (why : Failure)
  | Generated (code : string).

Section Hooks.

(** The state the matchers of the options read and write: the [lastIndex]
    of a regular expression, the variables a function closes over. *)
Variable World : Type.

(** [include] and [exclude]: a regular expression, given by its [test], or a
    function.  Both act on the state; a function may throw. *)
Inductive Matcher : Type :=
  | MatchRegExp (test : string -> World -> bool * World)
  | MatchFunction (f : string -> World -> Outcome bool * World).

(** The options as the plugin factory receives them. *)
Definition Options : Type := PluginOptions Matcher (string -> Outcome bool).

Definition empty_opts : Options :=
  {| tailwindConfig := None; prefixOverride := None; attributes := None;
     include := None; exclude := None; isTwToken := None |}.

(** [typeof m === "function" ? m(id) : m.test(id)] *)
Definition run_matcher (m : Matcher) (id : string) (w : World)
  : Outcome bool * World :=
  match m with
  | MatchRegExp test => let (b, w') := test id w in (Returned b, w')
  | MatchFunction f => f id w
  end.

(** A regular expression without the g and y flags: its [test] looks at
    the text alone and leaves [lastIndex] as it is. *)
Definition flagless (test : string -> bool) : Matcher :=
  MatchRegExp (fun id w => (test id, w)).

(** The filter [makeFilter] returns, applied to [id]: [include] is asked
    first, then [exclude], whatever [include] said. *)
Definition makeFilter (opts : Options) (id : string) (w : World)
  : Outcome bool * World :=
  let include := Js.nullish (include opts) (flagless Regex.default_include) in
  let exclude := Js.nullish (exclude opts) (flagless Regex.default_exclude) in
  match run_matcher include id w with
  | (Thrown, w1) => (Thrown, w1)
  | (Returned inc, w1) =>
      match run_matcher exclude id w1 with
      | (Thrown, w2) => (Thrown, w2)
      | (Returned exc, w2) => (Returned (inc && negb exc), w2)
      end
  end.

Definition plugin_filter (userOpts : option Options)
  : string -> World -> Outcome bool * World :=
  makeFilter (Js.nullish userOpts empty_opts).

(** The parser and the printer are Babel's: [parse] gives the tree of a
    source text ([None] when it throws), [generate] prints a tree, given
    the source text it came from; only the code it returns is kept here,
    not the source map. *)
Variable parse : string -> option Node.
Variable generate : Node -> string -> string.

Variable userOpts : option Options.

(** The tree pass of [transform] under a given prefix. *)
Definition rewrite_tree (prefix : string) (ast : Node)
  : option (Outcome Node) :=
  traverse
    (visit_JSXAttribute (plugin_attrs userOpts) prefix
       (opt_field isTwToken userOpts))
    ast.

(** The [transform] hook, from the state [w] of the matchers: its result,
    and the state the matchers are left in.  The hook reads [cachedPrefix]
    and never assigns it: the plugin state is the same after the call.  The
    walk always ends within the height of the tree, so the case in which it
    does not cannot arise. *)
Definition transform (st : PluginState) (code id : string) (w : World)
  : TransformResult * World :=
  match plugin_filter userOpts id w with
  | (Thrown, w') => (Failed FilterThrew, w')
  | (Returned false, w') => (Skipped, w')
  | (Returned true, w') =>
      let prefix := Js.nullish (cachedPrefix st) "" in
      match parse code with
      | None => (Failed ParserThrew, w')
      | Some ast =>
          match rewrite_tree prefix ast with
          | Some (Returned ast') => (Generated (generate ast' code), w')
          | Some Thrown => (Failed ClassifierThrew, w')
          | None => (Failed ParserThrew, w')
          end
      end
  end.

End Hooks.

Arguments MatchRegExp {World} test.
Arguments MatchFunction {World} f.
Arguments empty_opts {World}.
Arguments run_matcher {World} m id w.
Arguments flagless {World} test.
Arguments makeFilter {World} opts id w.
Arguments plugin_filter {World} userOpts _ _.
Arguments rewrite_tree {World} userOpts prefix ast.
Arguments transform {World} parse generate userOpts st code id w.

End Hook.

(** ** Definitions used to state the properties *)

(** The text the loop has read so far, recovered from its state. *)
Definition rejoin (st : SplitState) : string :=
  Js.join ":" (parts st ++ [buf st]).

(** The last character of a string. *)
Fixpoint last_char (s : string) : option ascii :=
  match s with
  | EmptyString => None
  | String c EmptyString => Some c
  | String _ rest => last_char rest
  end.

(** The character read just before the rest, once [s] has been read. *)
Definition prev_after (prev : option ascii) (s : string) : option ascii :=
  match last_char s with
  | Some c => Some c
  | None => prev
  end.

(** The loop by recursion on the characters still to read, with [prev] the
    character read just before them: [scan_fold] shows that it is the
    [for] loop. *)
Fixpoint split_loop (prev : option ascii) (rest : string) (st : SplitState)
  : SplitState :=
  match rest with
  | EmptyString => st
  | String ch rest' => split_loop (Some ch) rest' (split_step prev ch st)
  end.

(** A colon read while a quote is open or the bracket depth is not 0: the
    colons the splitter does not split at. *)
Fixpoint colon_inside_from (prev : option ascii) (rest : string)
  (st : SplitState) : bool :=
  match rest with
  | EmptyString => false
  | String ch rest' =>
      (Ascii.eqb ch ":"
       && (match quote st with Some _ => true | None => false end
           || negb (depth st =? 0)%Z))
      || colon_inside_from (Some ch) rest' (split_step prev ch st)
  end.

(** The token has a colon inside brackets or quotes. *)
Definition colon_inside (token : string) : bool :=
  colon_inside_from None token split_init.

(** What the loop does with one non-empty token. *)
Definition rewrite_token (prefix : string) (isTw : Classifier)
  (tok : string) : string :=
  if shouldPrefix isTw tok then prefixOneToken tok prefix else tok.

(** The non-empty pieces of the input: the tokens the loop works on. *)
Definition class_tokens (input : string) : list string :=
  filter (fun t => negb (Js.is_empty t)) (Js.split_ws input).

(** A token: not empty, and without white space. *)
Definition is_token (t : string) : bool :=
  negb (Js.is_empty t) && Js.all_chars (fun c => negb (Js.is_space c)) t.

(** A string literal or a template literal without interpolations. *)
Definition is_static_string (n : Node) : bool :=
  match n with
  | StringLiteral _ => true
  | TemplateLiteral _ [] => true
  | _ => false
  end.

(** The argument shapes in which the loop over the arguments of a helper
    call rewrites something. *)
Definition rewritable_argument (arg : Node) : bool :=
  match arg with
  | LogicalExpression _ _ r => is_static_string r
  | _ => is_static_string arg
  end.

(** The text of a static template literal. *)
Definition template_text (quasis : list TemplateElement) : string :=
  Js.join "" (map (fun q => Js.nullish (cooked q) (raw q)) quasis).

(** What a static string becomes. *)
Definition rewritten_static (prefix : string) (isTw : Classifier)
  (n : Node) : Node :=
  match n with
  | StringLiteral v => StringLiteral (transformClassesInString v prefix isTw)
  | TemplateLiteral q [] =>
      StringLiteral (transformClassesInString (template_text q) prefix isTw)
  | _ => n
  end.

(** The greatest height among a list of trees. *)
Definition heights (ns : list Node) : nat :=
  fold_right (fun m acc => Nat.max (height m) acc) 0 ns.

(** The height of the value of an attribute. *)
Definition height_opt (v : option Node) : nat :=
  match v with
  | Some n => height n
  | None => 0
  end.

(** Options that set only the prefix. *)
Definition prefix_opts (prefix : string) : option TailwindPrefixPluginOpts :=
  Some {| tailwindConfig := None; prefixOverride := Some prefix;
          attributes := None; include := None; exclude := None;
          isTwToken := None |}.

(** An opening element with the one attribute [className] holding the
    string [cls]. *)
Definition element_with_class (cls : string) : Node :=
  OtherNode "JSXOpeningElement"
    [OtherNode "JSXIdentifier" [];
     JSXAttribute (JSXIdentifier "className") (Some (StringLiteral cls))].

(** The options [o] with another [tailwindConfig]. *)
Definition with_tailwindConfig {M C : Type} (o : PluginOptions M C)
  (cfg : option string) : PluginOptions M C :=
  {| tailwindConfig := cfg; prefixOverride := prefixOverride o;
     attributes := attributes o; include := include o;
     exclude := exclude o; isTwToken := isTwToken o |}.

(** The depth and the quote after one step, and whether the step splits:
    the part of [split_step] that does not depend on the text gathered. *)
Definition ctl_step (prev : option ascii) (ch : ascii) (d : Z)
  (q : option ascii) : Z * option ascii * bool :=
  let st := split_step prev ch
              {| parts := []; buf := ""; depth := d; quote := q |} in
  (depth st, quote st, match parts st with [] => false | _ :: _ => true end).

Arguments ctl_step : simpl never.

(** Reading [s] from depth [d] and quote [q] without ever splitting: the
    depth and quote reached, or [None] when some colon of [s] splits. *)
Fixpoint seg_run (prev : option ascii) (s : string) (d : Z)
  (q : option ascii) : option (Z * option ascii) :=
  match s with
  | EmptyString => Some (d, q)
  | String ch rest =>
      let '(d', q', splits) := ctl_step prev ch d q in
      if splits then None else seg_run (Some ch) rest d' q'
  end.

(** A segment that can stand before a splitting colon: read from depth 0
    outside quotes it never splits and ends at depth 0 outside quotes. *)
Definition closed_segment (s : string) : Prop :=
  seg_run None s 0%Z None = Some (0%Z, None).

(** A segment that can stand last: read from depth 0 outside quotes it
    never splits. *)
Definition final_segment (s : string) : Prop :=
  exists d q, seg_run None s 0%Z None = Some (d, q).

(** What holds of the state of the loop all along a scan: the parts are
    closed segments, the buffer is a segment read without a split up to the
    current depth and quote, and inside a quote the previous character is
    the last one of the buffer. *)
Definition scan_invariant (prev : option ascii) (st : SplitState) : Prop :=
  Forall closed_segment (parts st)
  /\ seg_run None (buf st) 0%Z None = Some (depth st, quote st)
  /\ (quote st <> None -> prev = last_char (buf st)).

(** A prefix the splitter reads as plain text: no colon and no quote. *)
Definition plain_char (c : ascii) : bool :=
  negb (Ascii.eqb c ":") && negb (is_quote_char c).

(** The first character of a string. *)
Definition first_char (s : string) : option ascii :=
  match s with
  | EmptyString => None
  | String c _ => Some c
  end.

(** A prefix for which a second application of the prefixer changes
    nothing: no colon, no quote, and no important marker in front. *)
Definition plain_prefix (p : string) : bool :=
  Js.all_chars plain_char p && negb (Js.startsWith p "!").

(** A character outside the class of white space. *)
Definition not_space (c : ascii) : bool := negb (Js.is_space c).

(** The result of the walk, by recursion on the tree: the children first,
    then the visitor on the attribute.  [traverse_is_walk] shows that this
    is what the walk of [traverse] gives, which runs the visitor first. *)
Fixpoint walk (attrs : list string) (prefix : string) (isTw : Classifier)
  (n : Node) : Node :=
  let wk := walk attrs prefix isTw in
  match n with
  | StringLiteral _ => n
  | Identifier _ => n
  | TemplateLiteral q es => TemplateLiteral q (map wk es)
  | CallExpression c args => CallExpression (wk c) (map wk args)
  | LogicalExpression op l r => LogicalExpression op (wk l) (wk r)
  | ObjectExpression ps => ObjectExpression (map wk ps)
  | ArrayExpression es => ArrayExpression (map wk es)
  | SpreadElement a => SpreadElement (wk a)
  | JSXExpressionContainer e => JSXExpressionContainer (wk e)
  | JSXAttribute name value =>
      JSXAttribute name
        (visit_JSXAttribute attrs prefix isTw name
           (match value with
            | Some v => Some (wk v)
            | None => None
            end))
  | OtherNode ty cs => OtherNode ty (map wk cs)
  end.

(** A parser and a printer for source texts of one shape: the text is the
    class string of an opening element with the one attribute [className];
    the empty text does not parse. *)
Definition toy_parse (code : string) : option Node :=
  if Js.is_empty code then None else Some (element_with_class code).

Definition toy_generate (n : Node) (code : string) : string :=
  match n with
  | OtherNode _ [_; JSXAttribute _ (Some (StringLiteral cls))] => cls
  | _ => code
  end.

(** The state [st] with the segments [before] in front of its parts. *)
Definition with_parts_before (before : list string) (st : SplitState)
  : SplitState :=
  {| parts := before ++ parts st; buf := buf st;
     depth := depth st; quote := quote st |}.

(** The attribute values the visitor can change: a string literal, a
    template literal without interpolations in an expression container, a
    call of a helper in an expression container. *)
Definition eligible_value (value : option Node) : bool :=
  match value with
  | Some (StringLiteral _) => true
  | Some (JSXExpressionContainer (TemplateLiteral _ [])) => true
  | Some (JSXExpressionContainer (CallExpression callee _)) =>
      is_helper_callee callee
  | _ => false
  end.

(** Some attribute of the tree has a target name. *)
Fixpoint has_target_attribute (attrs : list string) (n : Node) : bool :=
  let has := has_target_attribute attrs in
  match n with
  | StringLiteral _ => false
  | Identifier _ => false
  | TemplateLiteral _ es => existsb has es
  | CallExpression c args => has c || existsb has args
  | LogicalExpression _ l r => has l || has r
  | ObjectExpression ps => existsb has ps
  | ArrayExpression es => existsb has es
  | SpreadElement a => has a
  | JSXExpressionContainer e => has e
  | JSXAttribute name value =>
      isTargetJSXAttribute name attrs
      || match value with
         | Some v => has v
         | None => false
         end
  | OtherNode _ cs => existsb has cs
  end.

(** A character that is neither a bracket nor a quote. *)
Definition no_bracket_or_quote (c : ascii) : bool :=
  negb (Ascii.eqb c "[") && negb (Ascii.eqb c "]") && negb (is_quote_char c).

(** A character that is not the colon. *)
Definition not_colon (c : ascii) : bool := negb (Ascii.eqb c ":").

(** A character that is not the hyphen. *)
Definition not_hyphen (c : ascii) : bool := negb (Ascii.eqb c "-").

(** The non-empty tokens of a string, joined by single spaces. *)
Definition single_spaced (s : string) : string :=
  Js.join " " (class_tokens s).

(** The class string an argument of a helper call holds, when it has one of
    the shapes the loop over the arguments rewrites. *)
Definition argument_strings (arg : Node) : list string :=
  match arg with
  | StringLiteral v => [v]
  | TemplateLiteral q [] => [template_text q]
  | LogicalExpression _ _ (StringLiteral v) => [v]
  | LogicalExpression _ _ (TemplateLiteral q []) => [template_text q]
  | _ => []
  end.

(** The class strings the value of a target attribute holds. *)
Definition value_strings (value : option Node) : list string :=
  match value with
  | Some (StringLiteral v) => [v]
  | Some (JSXExpressionContainer (TemplateLiteral q [])) => [template_text q]
  | Some (JSXExpressionContainer (CallExpression callee args)) =>
      if is_helper_callee callee then flat_map argument_strings args else []
  | _ => []
  end.

(** The class strings of a tree: those of every target attribute, an
    attribute before the attributes nested in its value. *)
Fixpoint class_strings (attrs : list string) (n : Node) : list string :=
  let cs := class_strings attrs in
  match n with
  | StringLiteral _ => []
  | Identifier _ => []
  | TemplateLiteral _ es => flat_map cs es
  | CallExpression c args => cs c ++ flat_map cs args
  | LogicalExpression _ l r => cs l ++ cs r
  | ObjectExpression ps => flat_map cs ps
  | ArrayExpression es => flat_map cs es
  | SpreadElement a => cs a
  | JSXExpressionContainer e => cs e
  | JSXAttribute name value =>
      (if isTargetJSXAttribute name attrs then value_strings value else [])
      ++ match value with
         | Some v => cs v
         | None => []
         end
  | OtherNode _ children => flat_map cs children
  end.

(** The classifier that rejects every token. *)
Definition reject_all : Classifier := Some (fun _ => false).

(** The answers of a classifier that may throw: those it returns; where
    the call throws no answer is ever used, and it is taken to be false. *)
Definition answers (isTw : Hook.Classifier) : Classifier :=
  option_map
    (fun f tok => match f tok with
                  | Returned b => b
                  | Thrown => false
                  end)
    isTw.

(** The call of the classifier on the token throws. *)
Definition throws_on (isTw : Hook.Classifier) (tok : string) : bool :=
  match isTw with
  | Some f => match f tok with
              | Returned _ => false
              | Thrown => true
              end
  | None => false
  end.

(** The classifier throws on some token of the class string. *)
Definition string_throws (isTw : Hook.Classifier) (s : string) : bool :=
  existsb (throws_on isTw) (class_tokens s).

(** The classifier throws on some token of some class string of the
    tree. *)
Definition tree_throws (attrs : list string) (isTw : Hook.Classifier)
  (n : Node) : bool :=
  existsb (string_throws isTw) (class_strings attrs n).

(** An exception when [b] holds, and the value [a] otherwise. *)
Definition outcome_if {A : Type} (b : bool) (a : A) : Outcome A :=
  if b then Thrown else Returned a.

(** A classifier and a matcher that return and keep no state, as the hooks
    receive them. *)
Definition returning (isTw : Classifier) : Hook.Classifier :=
  option_map (fun f tok => Returned (f tok)) isTw.

Definition lift_matcher {World : Type} (m : Matcher) : Hook.Matcher World :=
  match m with
  | MatchRegExp test => Hook.flagless test
  | MatchFunction f => Hook.MatchFunction (fun id w => (Returned (f id), w))
  end.

Definition lift_opts {World : Type} (o : TailwindPrefixPluginOpts)
  : Hook.Options World :=
  {| tailwindConfig := tailwindConfig o;
     prefixOverride := prefixOverride o;
     attributes := attributes o;
     include := option_map lift_matcher (include o);
     exclude := option_map lift_matcher (exclude o);
     isTwToken := returning (isTwToken o) |}.

(** The [test] of the regular expression [/\.tsx$/g], on its [lastIndex]:
    from an index at or before the place where the extension starts the
    search finds the match and leaves [lastIndex] at the end of the text;
    from a later index it fails and resets [lastIndex] to 0. *)
Definition tsx_global_test (id : string) (lastIndex : nat) : bool * nat :=
  if Regex.ends_with id ".tsx" && (lastIndex <=? String.length id - 4)%nat
  then (true, String.length id)
  else (false, 0).

(** Options whose [include] is that regular expression; the state of the
    matchers is its [lastIndex]. *)
Definition tsx_global_opts : option (Hook.Options nat) :=
  Some {| tailwindConfig := None; prefixOverride := Some "tw-";
          attributes := None;
          include := Some (Hook.MatchRegExp tsx_global_test);
          exclude := None; isTwToken := None |}.

(** A classifier that throws on the tokens with a capital letter. *)
Definition strict_classifier (tok : string) : Outcome bool :=
  if Js.has_upper tok then Thrown else Returned true.

(** * Properties *)

(** ** Examples from the source, the README and the specification *)

Example splitVariants_doc :
  splitVariants "data-[state=open]:hover:[&>*]:bg-red-500"
  = ["data-[state=open]"; "hover"; "[&>*]"; "bg-red-500"].
Proof. reflexivity. Qed.

Example splitVariants_trailing_colon : splitVariants "hover:" = ["hover"].
Proof. reflexivity. Qed.

Example splitVariants_quote : splitVariants "a'b:c'd:e" = ["a'b:c'd"; "e"].
Proof. reflexivity. Qed.

Example scenario_A :
  transformClassesInString "bg-red-500 text-white" "tw-" None
  = "tw-bg-red-500 tw-text-white".
Proof. reflexivity. Qed.

Example scenario_B :
  transformClassesInString "flex items-center" "tw-" None
  = "tw-flex tw-items-center".
Proof. reflexivity. Qed.

Example scenario_C :
  transformClassesInString "tw-bg-blue-500 tw-bg-red-500" "tw-" None
  = "tw-bg-blue-500 tw-bg-red-500".
Proof. reflexivity. Qed.

Example readme_example :
  transformClassesInString "bg-red-500 text-white custom-class" "tw-" None
  = "tw-bg-red-500 tw-text-white custom-class".
Proof. reflexivity. Qed.

Example prefix_variants :
  prefixOneToken "data-[state=open]:hover:bg-red-500" "tw-"
  = "data-[state=open]:hover:tw-bg-red-500".
Proof. reflexivity. Qed.

Example filter_tsx : makeFilter empty_opts "src/Component.TSX" = true.
Proof. reflexivity. Qed.

Example filter_node_modules :
  makeFilter empty_opts "node_modules/react/index.js" = false.
Proof. reflexivity. Qed.

Example filter_css : makeFilter empty_opts "src/app.css" = false.
Proof. reflexivity. Qed.

(** ** Strings and joins *)

Section StringFacts.

Lemma sapp_nil_r (s : string) : (s ++ "")%string = s.
Proof. induction s as [|c s IH]; simpl; [reflexivity | now rewrite IH]. Qed.

Lemma sapp_assoc (a b c : string) :
  (a ++ (b ++ c))%string = ((a ++ b) ++ c)%string.
Proof. induction a as [|x a IH]; simpl; [reflexivity | now rewrite IH]. Qed.

Lemma sapp_cons (c : ascii) (s : string) :
  String c s = (String c "" ++ s)%string.
Proof. reflexivity. Qed.

Lemma is_empty_true (s : string) : Js.is_empty s = true <-> s = "".
Proof. destruct s; simpl; split; intros H; try reflexivity; discriminate. Qed.

Lemma is_empty_false (s : string) : Js.is_empty s = false <-> s <> "".
Proof.
  destruct s; simpl; split; intros H; try reflexivity; try discriminate.
  now elim H.
Qed.

Lemma is_empty_app (a b : string) :
  Js.is_empty (a ++ b) = Js.is_empty a && Js.is_empty b.
Proof. destruct a; reflexivity. Qed.

(** Joining a list that ends with [b ++ x] appends [x] to the join of the
    list that ends with [b]. *)
Lemma join_snoc_app (sep : string) (ps : list string) (b x : string) :
  Js.join sep (ps ++ [(b ++ x)%string])
  = (Js.join sep (ps ++ [b]) ++ x)%string.
Proof.
  unfold Js.join.
  induction ps as [|p ps IH]; simpl.
  - reflexivity.
  - destruct (ps ++ [(b ++ x)%string])%list eqn:E1;
      [now destruct ps | ].
    destruct (ps ++ [b])%list eqn:E2; [now destruct ps | ].
    rewrite IH. now rewrite !sapp_assoc.
Qed.

(** An empty last element contributes just one more separator. *)
Lemma join_snoc_empty (sep : string) (ps : list string) :
  ps <> [] ->
  Js.join sep (ps ++ [""]) = (Js.join sep ps ++ sep)%string.
Proof.
  unfold Js.join.
  induction ps as [|p ps IH]; intros Hne; [now elim Hne | ].
  destruct ps as [|p' ps].
  - simpl. now rewrite sapp_nil_r.
  - change (String.concat sep ((p :: p' :: ps) ++ [""]))
      with (p ++ sep ++ String.concat sep ((p' :: ps) ++ [""]))%string.
    rewrite IH by discriminate.
    change (String.concat sep (p :: p' :: ps))
      with (p ++ sep ++ String.concat sep (p' :: ps))%string.
    now rewrite !sapp_assoc.
Qed.

Lemma join_cons (sep p : string) (ps : list string) :
  ps <> [] ->
  Js.join sep (p :: ps) = (p ++ sep ++ Js.join sep ps)%string.
Proof. destruct ps; [intros H; now elim H | reflexivity]. Qed.

Lemma pop_snoc {A : Type} (xs : list A) (x : A) :
  Js.pop (xs ++ [x]) = (xs, Some x).
Proof.
  induction xs as [|y ys IH]; [reflexivity | ].
  simpl. rewrite IH. now destruct (ys ++ [x])%list eqn:E; [destruct ys | ].
Qed.

Lemma pop_nil_inv {A : Type} (xs : list A) :
  snd (Js.pop xs) = None -> xs = [].
Proof.
  destruct xs as [|x xs] using rev_ind; [reflexivity | ].
  rewrite pop_snoc. discriminate.
Qed.

Lemma pop_spec {A : Type} (xs front : list A) (l : A) :
  Js.pop xs = (front, Some l) -> xs = (front ++ [l])%list.
Proof.
  destruct xs as [|x xs _] using rev_ind; [discriminate | ].
  rewrite pop_snoc. now intros [= <- <-].
Qed.

End StringFacts.

(** ** The variant splitter *)

Lemma split_step_rejoin (prev : option ascii) (ch : ascii) (st : SplitState) :
  rejoin (split_step prev ch st) = (rejoin st ++ String ch "")%string.
Proof.
  unfold rejoin, split_step, Js.push_char.
  destruct (quote st) as [q|]; simpl.
  - apply join_snoc_app.
  - destruct (is_quote_char ch); simpl; [apply join_snoc_app | ].
    destruct (Ascii.eqb ch "["); simpl; [apply join_snoc_app | ].
    destruct (Ascii.eqb ch "]"); simpl; [apply join_snoc_app | ].
    destruct (Ascii.eqb ch ":") eqn:Hc; simpl.
    + destruct (depth st =? 0)%Z; simpl.
      * apply Ascii.eqb_eq in Hc. subst ch.
        apply join_snoc_empty. now destruct (parts st).
      * apply join_snoc_app.
    + apply join_snoc_app.
Qed.

Lemma split_loop_rejoin (rest : string) :
  forall prev st,
    rejoin (split_loop prev rest st) = (rejoin st ++ rest)%string.
Proof.
  induction rest as [|ch rest IH]; intros prev st; simpl.
  - now rewrite sapp_nil_r.
  - rewrite IH, split_step_rejoin, <- sapp_assoc. reflexivity.
Qed.

Lemma last_char_snoc (s : string) (c : ascii) :
  last_char (s ++ String c "") = Some c.
Proof.
  induction s as [|x s IH]; [reflexivity | ].
  simpl. rewrite IH. now destruct (s ++ String c "")%string eqn:E; [destruct s | ].
Qed.

Lemma get_app_length (a : string) (c : ascii) (b : string) :
  String.get (String.length a) (a ++ String c b) = Some c.
Proof. induction a as [|x a IH]; [reflexivity | exact IH]. Qed.

Lemma char_before_app (a b : string) :
  char_before (a ++ b) (String.length a) = last_char a.
Proof.
  induction a as [|x a IH]; [reflexivity | ].
  destruct a as [|y a]; [reflexivity | exact IH].
Qed.

Lemma length_snoc (a : string) (c : ascii) :
  String.length (a ++ String c "") = S (String.length a).
Proof. induction a as [|x a IH]; simpl; [reflexivity | now rewrite IH]. Qed.

(** The [for] loop, once it has read [a], does with the rest [b] what the
    recursion on [b] does. *)
Lemma split_for_is_loop (b : string) :
  forall a st,
    split_for (a ++ b) (String.length b) (String.length a) st
    = split_loop (last_char a) b st.
Proof.
  induction b as [|c b IH]; intros a st; [reflexivity | ].
  simpl split_for. rewrite get_app_length, char_before_app.
  simpl split_loop.
  rewrite <- (length_snoc a c).
  replace (a ++ String c b)%string with ((a ++ String c "") ++ b)%string
    by (now rewrite <- sapp_assoc).
  rewrite IH. now rewrite last_char_snoc.
Qed.

Lemma scan_fold (token : string) :
  scan token = split_loop None token split_init.
Proof. exact (split_for_is_loop token "" split_init). Qed.

Lemma scan_rejoin (token : string) : rejoin (scan token) = token.
Proof. rewrite scan_fold. now rewrite split_loop_rejoin. Qed.

Lemma last_char_app_colon (s : string) :
  last_char (s ++ ":") = Some ":"%char.
Proof.
  induction s as [|c s IH]; [reflexivity | ].
  simpl. rewrite IH. now destruct (s ++ ":")%string eqn:E; [destruct s | ].
Qed.

(** Joining the segments gives back the token, or the token without its
    last character when that is a colon the splitter split at. *)
Lemma splitVariants_join (token : string) :
  Js.join ":" (splitVariants token) = token
  \/ (Js.is_empty (buf (scan token)) = true
      /\ token = (Js.join ":" (splitVariants token) ++ ":")%string).
Proof.
  unfold splitVariants, split_finish.
  pose proof (scan_rejoin token) as H. unfold rejoin in H.
  destruct (Js.is_empty (buf (scan token))) eqn:E.
  - apply is_empty_true in E. rewrite E in H.
    destruct (parts (scan token)) as [|p ps] eqn:Ep.
    + left. now rewrite <- H.
    + right. split; [reflexivity | ].
      rewrite <- H at 1. apply join_snoc_empty. discriminate.
  - left. exact H.
Qed.

Lemma last_char_cons (c : ascii) (s : string) :
  exists x, last_char (String c s) = Some x.
Proof.
  revert c. induction s as [|d s IH]; intros c; [now exists c | ].
  destruct (IH d) as [x Hx]. exists x. exact Hx.
Qed.

Lemma prev_after_cons (prev : option ascii) (c : ascii) (s : string) :
  prev_after (Some c) s = prev_after prev (String c s).
Proof.
  unfold prev_after. destruct s as [|d s]; [reflexivity | ].
  change (last_char (String c (String d s))) with (last_char (String d s)).
  now destruct (last_char_cons d s) as [x ->].
Qed.

Lemma split_loop_app (a : string) :
  forall prev b st,
    split_loop prev (a ++ b) st
    = split_loop (prev_after prev a) b (split_loop prev a st).
Proof.
  induction a as [|c a IH]; intros prev b st; [reflexivity | ].
  simpl. rewrite IH. now rewrite (prev_after_cons prev).
Qed.

Lemma split_step_depth (prev : option ascii) (ch : ascii) (st : SplitState) :
  (0 <= depth st)%Z -> (0 <= depth (split_step prev ch st))%Z.
Proof.
  intros H. unfold split_step.
  destruct (quote st); simpl; [exact H | ].
  destruct (is_quote_char ch); simpl; [exact H | ].
  destruct (Ascii.eqb ch "["); simpl; [lia | ].
  destruct (Ascii.eqb ch "]"); simpl; [lia | ].
  destruct (Ascii.eqb ch ":" && (depth st =? 0)%Z); simpl; exact H.
Qed.

Lemma split_loop_depth (rest : string) :
  forall prev st,
    (0 <= depth st)%Z -> (0 <= depth (split_loop prev rest st))%Z.
Proof.
  induction rest as [|ch rest IH]; intros prev st H; simpl; [exact H | ].
  apply IH. now apply split_step_depth.
Qed.

(** Inside an open quote that the rest never closes, everything goes to
    the buffer. *)
Lemma split_loop_open_quote (q : ascii) (rest : string) :
  forall prev st,
    quote st = Some q ->
    Js.all_chars (fun c => negb (Ascii.eqb c q)) rest = true ->
    split_loop prev rest st
    = {| parts := parts st; buf := (buf st ++ rest)%string;
         depth := depth st; quote := Some q |}.
Proof.
  induction rest as [|ch rest IH]; intros prev st Hq Hno; simpl.
  - rewrite sapp_nil_r. destruct st; simpl in *. now subst.
  - simpl in Hno. apply andb_true_iff in Hno as [Hc Hno].
    apply negb_true_iff in Hc.
    assert (Hs : split_step prev ch st
                 = {| parts := parts st; buf := Js.push_char (buf st) ch;
                      depth := depth st; quote := Some q |}).
    { unfold split_step. rewrite Hq, Hc. reflexivity. }
    rewrite Hs, IH by (reflexivity || exact Hno).
    simpl. unfold Js.push_char. now rewrite <- sapp_assoc.
Qed.


(** C3, as stated, fails: a token with no colon inside brackets or quotes
    that ends with a colon loses that colon, because the empty buffer left
    after it is not pushed. *)
Lemma splitVariants_roundtrip_fails_on_trailing_colon :
  colon_inside "hover:" = false
  /\ splitVariants "hover:" = ["hover"]
  /\ Js.join ":" (splitVariants "hover:") <> "hover:".
Proof. repeat split; try reflexivity. vm_compute. discriminate. Qed.

(** C3, amended: for every token that does not end with a colon, with or
    without colons inside brackets or quotes, joining the segments of
    [splitVariants] with a colon gives back the token. *)
Theorem splitVariants_roundtrip (token : string) :
  last_char token <> Some ":"%char ->
  Js.join ":" (splitVariants token) = token.
Proof.
  intros Hlast.
  destruct (splitVariants_join token) as [H | [_ H]]; [exact H | ].
  elim Hlast. rewrite H. apply last_char_app_colon.
Qed.

Lemma splitVariants_roundtrip_witness :
  Js.join ":" (splitVariants "data-[state=open]:hover:[&>*]:bg-red-500")
  = "data-[state=open]:hover:[&>*]:bg-red-500".
Proof.
  apply (splitVariants_roundtrip "data-[state=open]:hover:[&>*]:bg-red-500").
  vm_compute. discriminate.
Defined.



(** ** The token prefixer *)

Lemma startsWith_bang (rest : string) :
  Js.startsWith (String "!" rest) "!" = true.
Proof. now destruct rest. Qed.

(** The prefixer on a token that carries no important marker. *)
Lemma prefixOneToken_unmarked (token prefix : string) :
  Js.is_empty prefix = false ->
  Js.startsWith token "!" = false ->
  prefixOneToken token prefix
  = let '(segments, popped) := Js.pop (splitVariants token) in
    let last := Js.nullish popped "" in
    Js.join ":"
      (segments ++ [if Js.startsWith last prefix then last
                    else (prefix ++ last)%string]).
Proof.
  intros Hp Hb. unfold prefixOneToken. rewrite Hp, Hb.
  destruct (Js.pop (splitVariants token)) as [segments popped].
  now destruct (Js.startsWith (Js.nullish popped "") prefix).
Qed.

(** The prefixer on a token that starts with the important marker. *)
Lemma prefixOneToken_marked (rest prefix : string) :
  Js.is_empty prefix = false ->
  prefixOneToken (String "!" rest) prefix
  = let '(segments, popped) := Js.pop (splitVariants rest) in
    let last := Js.nullish popped "" in
    String "!"
      (Js.join ":"
         (segments ++ [if Js.startsWith last prefix then last
                       else (prefix ++ last)%string])).
Proof.
  intros Hp. unfold prefixOneToken. rewrite Hp, startsWith_bang.
  simpl Js.slice1.
  destruct (Js.pop (splitVariants rest)) as [segments popped].
  now destruct (Js.startsWith (Js.nullish popped "") prefix).
Qed.

(** C8: with a non-empty prefix, a token that starts with the important
    marker is split without the marker, gets the prefix on its last
    segment, and has the marker put back in front of the result, outside
    the prefix; when what follows the marker is not itself marked, that is
    the marker in front of the prefixed remainder.  The example of the
    specification is the last part. *)
Theorem prefixOneToken_important (rest prefix : string) :
  prefix <> "" ->
  (let '(segments, popped) := Js.pop (splitVariants rest) in
   let last := Js.nullish popped "" in
   prefixOneToken (String "!" rest) prefix
   = String "!"
       (Js.join ":"
          (segments ++ [if Js.startsWith last prefix then last
                        else (prefix ++ last)%string])))
  /\ (Js.startsWith rest "!" = false ->
      prefixOneToken (String "!" rest) prefix
      = String "!" (prefixOneToken rest prefix))
  /\ prefixOneToken "!bg-red-500" "tw-" = "!tw-bg-red-500".
Proof.
  intros Hp. apply is_empty_false in Hp.
  split; [ | split].
  - rewrite (prefixOneToken_marked rest prefix Hp).
    now destruct (Js.pop (splitVariants rest)).
  - intros Hb.
    rewrite (prefixOneToken_marked rest prefix Hp).
    rewrite (prefixOneToken_unmarked rest prefix Hp Hb).
    now destruct (Js.pop (splitVariants rest)).
  - reflexivity.
Qed.

Lemma prefixOneToken_important_witness :
  prefixOneToken "!hover:bg-red-500" "tw-" = "!hover:tw-bg-red-500"
  /\ prefixOneToken "!hover:bg-red-500" "tw-"
     = String "!" (prefixOneToken "hover:bg-red-500" "tw-").
Proof.
  assert (Hne : "tw-" <> "") by discriminate.
  destruct (prefixOneToken_important "hover:bg-red-500" "tw-" Hne)
    as (H1 & H2 & _).
  split; [exact H1 | apply H2; reflexivity].
Defined.

(** C1 at the failing input: with the prefix [tw:] the token [bg] becomes
    [tw:bg], and prefixing that again gives [tw:tw:bg]: the colon of the
    prefix is read as a variant separator, so the last segment is [bg]
    again and the test for an existing prefix does not see it. *)
Theorem prefixOneToken_reprefixes_colon_prefix :
  prefixOneToken "bg" "tw:" = "tw:bg"
  /\ prefixOneToken (prefixOneToken "bg" "tw:") "tw:" = "tw:tw:bg"
  /\ prefixOneToken (prefixOneToken "bg" "tw:") "tw:"
     <> prefixOneToken "bg" "tw:".
Proof. repeat split; try reflexivity. vm_compute. discriminate. Qed.

(** Two more prefixes on which a second application changes the result: a
    prefix that is the important marker, and a prefix with a quote. *)
Example prefixOneToken_reprefixes_bang_prefix :
  prefixOneToken "a" "!" = "!a"
  /\ prefixOneToken (prefixOneToken "a" "!") "!" = "!!a".
Proof. split; reflexivity. Qed.

Example prefixOneToken_reprefixes_quote_prefix :
  prefixOneToken "a'b:c'" "'" = "'a'b:c'"
  /\ prefixOneToken (prefixOneToken "a'b:c'" "'") "'" = "'a'b:'c'".
Proof. split; reflexivity. Qed.

(** ** The string rewriter *)

Lemma fold_rewrite_step (prefix : string) (isTw : Classifier)
  (toks : list string) :
  forall acc,
    fold_left (rewrite_step prefix isTw) toks acc
    = (acc ++ map (rewrite_token prefix isTw)
                (filter (fun t => negb (Js.is_empty t)) toks))%list.
Proof.
  induction toks as [|t toks IH]; intros acc; simpl.
  - now rewrite app_nil_r.
  - rewrite IH. unfold rewrite_step at 1.
    destruct (Js.is_empty t); simpl; [reflexivity | ].
    now rewrite <- app_assoc.
Qed.

Lemma rewritten_tokens_map (input prefix : string) (isTw : Classifier) :
  rewritten_tokens input prefix isTw
  = map (rewrite_token prefix isTw) (class_tokens input).
Proof. unfold rewritten_tokens. now rewrite fold_rewrite_step. Qed.

Lemma split_ws_from_token (t : string) :
  forall buf b rest,
    Js.all_chars (fun c => negb (Js.is_space c)) t = true ->
    Js.split_ws_from buf b (t ++ rest)
    = Js.split_ws_from (buf ++ t) (if Js.is_empty t then b else false) rest.
Proof.
  induction t as [|c t IH]; intros buf b rest Ht; simpl.
  - now rewrite sapp_nil_r.
  - simpl in Ht. apply andb_true_iff in Ht as [Hc Ht].
    apply negb_true_iff in Hc. rewrite Hc.
    rewrite IH by exact Ht. unfold Js.push_char.
    rewrite <- sapp_assoc. simpl. now destruct (Js.is_empty t).
Qed.

Lemma split_ws_from_join (toks : list string) :
  forall b,
    toks <> [] ->
    forallb is_token toks = true ->
    Js.split_ws_from "" b (Js.join " " toks) = toks.
Proof.
  induction toks as [|t toks IH]; intros b Hne Hall; [now elim Hne | ].
  simpl in Hall. apply andb_true_iff in Hall as [Ht Hall].
  unfold is_token in Ht. apply andb_true_iff in Ht as [Hte Htw].
  apply negb_true_iff in Hte.
  destruct toks as [|t' toks].
  - simpl. rewrite <- (sapp_nil_r t) at 1.
    rewrite split_ws_from_token by exact Htw. now rewrite Hte.
  - rewrite join_cons by discriminate.
    rewrite split_ws_from_token by exact Htw. rewrite Hte.
    simpl. f_equal. apply IH; [discriminate | exact Hall].
Qed.

(** The tokens of a list of tokens joined by single spaces are that
    list. *)
Lemma class_tokens_join (toks : list string) :
  forallb is_token toks = true ->
  class_tokens (Js.join " " toks) = toks.
Proof.
  intros Hall. unfold class_tokens, Js.split_ws.
  destruct toks as [|t toks]; [reflexivity | ].
  rewrite split_ws_from_join by (discriminate || exact Hall).
  apply forallb_filter_id.
  apply forallb_forall. intros x Hx.
  rewrite forallb_forall in Hall. specialize (Hall x Hx).
  unfold is_token in Hall. now apply andb_true_iff in Hall as [-> _].
Qed.

Lemma prefixOneToken_empty_prefix (token : string) :
  prefixOneToken token "" = token.
Proof. reflexivity. Qed.

Lemma rewrite_token_empty_prefix (isTw : Classifier) (tok : string) :
  rewrite_token "" isTw tok = tok.
Proof. unfold rewrite_token. now destruct (shouldPrefix isTw tok). Qed.

Lemma rewritten_tokens_empty_prefix (input : string) (isTw : Classifier) :
  rewritten_tokens input "" isTw = class_tokens input.
Proof.
  rewrite rewritten_tokens_map.
  induction (class_tokens input) as [|t ts IH]; simpl; [reflexivity | ].
  now rewrite rewrite_token_empty_prefix, IH.
Qed.

(** C9, as stated, fails: with the empty prefix the tokens stay as they
    are, but the string is still rebuilt with single spaces, and a static
    template literal is still replaced by a string literal. *)
Lemma empty_prefix_still_normalises :
  transformClassesInString "flex  grid" "" None = "flex grid"
  /\ transformClassesInString "flex  grid" "" None <> "flex  grid"
  /\ visit_JSXAttribute ["className"] "" None (JSXIdentifier "className")
       (Some (JSXExpressionContainer
                (TemplateLiteral [mkQuasi "flex" (Some "flex")] [])))
     = Some (StringLiteral "flex").
Proof. repeat split; try reflexivity. vm_compute. discriminate. Qed.

(** C5: a token that is empty or has a letter in the range A to Z is
    rejected by the default classifier, and under the default classifier
    the string rewriter never changes it: the loop skips or keeps it, a
    token with such a letter stands in the output array at the place it has
    among the tokens of the input, and a class string that consists of that
    single token comes back as it is. *)
Theorem uppercase_token_not_rewritten (token : string) :
  token = "" \/ Js.has_upper token = true ->
  isLikelyTailwindToken token = false
  /\ (forall prefix out,
         rewrite_step prefix None out token
         = if Js.is_empty token then out else (out ++ [token])%list)
  /\ (forall input prefix i,
         nth_error (class_tokens input) i = Some token ->
         nth_error (rewritten_tokens input prefix None) i = Some token)
  /\ (forall prefix,
         is_token token = true ->
         transformClassesInString token prefix None = token).
Proof.
  intros H.
  assert (Hc : isLikelyTailwindToken token = false).
  { unfold isLikelyTailwindToken.
    destruct H as [-> | ->]; [reflexivity | now rewrite orb_true_r]. }
  assert (Hr : forall prefix, rewrite_token prefix None token = token).
  { intros prefix. unfold rewrite_token, shouldPrefix. simpl. now rewrite Hc. }
  split; [exact Hc | ].
  split; [ | split].
  - intros prefix out. unfold rewrite_step.
    destruct (Js.is_empty token); [reflexivity | ].
    unfold shouldPrefix. simpl. now rewrite Hc.
  - intros input prefix i Hi.
    rewrite rewritten_tokens_map, nth_error_map, Hi. simpl. now rewrite Hr.
  - intros prefix Ht. unfold transformClassesInString.
    rewrite rewritten_tokens_map.
    change token with (Js.join " " [token]) at 1.
    rewrite class_tokens_join by (simpl; now rewrite Ht).
    simpl. now rewrite Hr.
Qed.

Lemma uppercase_token_not_rewritten_witness :
  isLikelyTailwindToken "MyClass" = false
  /\ transformClassesInString "MyClass" "tw-" None = "MyClass"
  /\ nth_error (rewritten_tokens "flex bg-Red p-4" "tw-" None) 1
     = Some "bg-Red".
Proof.
  split; [ | split].
  - apply (uppercase_token_not_rewritten "MyClass"). right. reflexivity.
  - apply (uppercase_token_not_rewritten "MyClass");
      [right; reflexivity | reflexivity].
  - apply (uppercase_token_not_rewritten "bg-Red");
      [right; reflexivity | reflexivity].
Defined.

(** ** The attribute visitor *)

Lemma replace_template_static (n : Node) (q : list TemplateElement)
  (prefix : string) (isTw : Classifier) :
  replace_template n q [] prefix isTw
  = StringLiteral (transformClassesInString (template_text q) prefix isTw).
Proof. reflexivity. Qed.

Lemma replace_template_dynamic (n : Node) (q : list TemplateElement)
  (e : Node) (es : list Node) (prefix : string) (isTw : Classifier) :
  replace_template n q (e :: es) prefix isTw = n.
Proof. reflexivity. Qed.

Lemma rewrite_argument_logical (prefix : string) (isTw : Classifier)
  (op : LogicalOperator) (l r : Node) :
  rewrite_argument prefix isTw (LogicalExpression op l r)
  = LogicalExpression op l (rewritten_static prefix isTw r).
Proof. destruct r as [ | q [|e es] | | | | | | | | | ]; reflexivity. Qed.

Lemma rewrite_argument_other (prefix : string) (isTw : Classifier)
  (arg : Node) :
  rewritable_argument arg = false ->
  rewrite_argument prefix isTw arg = arg.
Proof.
  destruct arg as [ | q [|e es] | | | op l r | | | | | | ];
    simpl; try reflexivity; try discriminate.
  destruct r as [ | q [|e es] | | | | | | | | | ];
    simpl; try reflexivity; discriminate.
Qed.

(** C4, as stated, fails: the visitor does not look at the operator of a
    logical expression, so the right-hand string of an [||] (or [??])
    argument is rewritten as well. *)
Lemma helper_call_rewrites_logical_or :
  visit_JSXAttribute ["className"] "tw-" None (JSXIdentifier "className")
    (Some (JSXExpressionContainer
             (CallExpression (Identifier "clsx")
                [LogicalExpression LogicalOr (Identifier "cond")
                   (StringLiteral "flex")])))
  = Some (JSXExpressionContainer
            (CallExpression (Identifier "clsx")
               [LogicalExpression LogicalOr (Identifier "cond")
                  (StringLiteral "tw-flex")]))
  /\ rewrite_argument "tw-" None
       (LogicalExpression LogicalOr (Identifier "cond") (StringLiteral "flex"))
     <> LogicalExpression LogicalOr (Identifier "cond") (StringLiteral "flex")
  /\ rewrite_argument "tw-" None
       (LogicalExpression NullishCoalescing (Identifier "cond")
          (StringLiteral "flex"))
     = LogicalExpression NullishCoalescing (Identifier "cond")
         (StringLiteral "tw-flex").
Proof. repeat split. vm_compute. discriminate. Qed.

(** C4, amended: in a helper call that is the value of a target attribute,
    every argument goes through the same rewrite, which changes an argument
    only when it is a string literal, a template literal without
    interpolations, or a logical expression, of any operator, whose right
    operand is one of these two; of a logical expression only the right
    operand changes, the operator and the left operand stay; every other
    argument (object, array, spread, call, identifier, template literal
    with interpolations, a logical expression with another right operand)
    is left as it is. *)
Theorem helper_call_argument_shapes
  (attrs : list string) (prefix : string) (isTw : Classifier)
  (name : JSXAttributeName) (callee : Node) (args : list Node) :
  isTargetJSXAttribute name attrs = true ->
  is_helper_callee callee = true ->
  visit_JSXAttribute attrs prefix isTw name
    (Some (JSXExpressionContainer (CallExpression callee args)))
  = Some (JSXExpressionContainer
            (CallExpression callee (map (rewrite_argument prefix isTw) args)))
  /\ (forall arg,
         rewritable_argument arg = false ->
         rewrite_argument prefix isTw arg = arg)
  /\ (forall arg,
         is_static_string arg = true ->
         rewrite_argument prefix isTw arg = rewritten_static prefix isTw arg)
  /\ (forall op l r,
         rewrite_argument prefix isTw (LogicalExpression op l r)
         = LogicalExpression op l
             (if is_static_string r then rewritten_static prefix isTw r
              else r))
  /\ (forall ps es a,
         rewrite_argument prefix isTw (ObjectExpression ps)
         = ObjectExpression ps
         /\ rewrite_argument prefix isTw (ArrayExpression es)
            = ArrayExpression es
         /\ rewrite_argument prefix isTw (SpreadElement a) = SpreadElement a).
Proof.
  intros Ht Hh.
  split; [ | split; [ | split; [ | split]]].
  - unfold visit_JSXAttribute. rewrite Ht. simpl. now rewrite Hh.
  - intros arg. apply rewrite_argument_other.
  - intros arg Hs.
    destruct arg as [ | q [|e es] | | | | | | | | | ];
      try discriminate; reflexivity.
  - intros op l r. rewrite rewrite_argument_logical.
    destruct r as [ | q [|e es] | | | | | | | | | ]; reflexivity.
  - intros ps es a. repeat split.
Qed.

Lemma helper_call_argument_shapes_witness :
  visit_JSXAttribute ["className"; "class"; "tw"] "tw-" None
    (JSXIdentifier "className")
    (Some (JSXExpressionContainer
             (CallExpression (Identifier "clsx")
                [StringLiteral "bg-red-500";
                 LogicalExpression LogicalAnd (Identifier "cond")
                   (StringLiteral "text-white");
                 ObjectExpression [StringLiteral "flex"]])))
  = Some (JSXExpressionContainer
            (CallExpression (Identifier "clsx")
               [StringLiteral "tw-bg-red-500";
                LogicalExpression LogicalAnd (Identifier "cond")
                  (StringLiteral "tw-text-white");
                ObjectExpression [StringLiteral "flex"]])).
Proof.
  apply (helper_call_argument_shapes ["className"; "class"; "tw"] "tw-" None
           (JSXIdentifier "className") (Identifier "clsx")); reflexivity.
Defined.

(** C7: a template literal with at least one interpolated expression is
    never rewritten, whatever its literal segments hold:
    [transformTemplateLiteralIfStatic] returns [null] on it, and the
    visitor leaves the node as it is when it is the value of an attribute,
    an argument of a helper call, or the right operand of a logical
    expression among these arguments. *)
Theorem dynamic_template_untouched
  (quasis : list TemplateElement) (e : Node) (es : list Node)
  (prefix : string) (isTw : Classifier) :
  let tpl := TemplateLiteral quasis (e :: es) in
  transformTemplateLiteralIfStatic quasis (e :: es) prefix isTw = None
  /\ (forall attrs name,
         visit_JSXAttribute attrs prefix isTw name
           (Some (JSXExpressionContainer tpl))
         = Some (JSXExpressionContainer tpl))
  /\ rewrite_argument prefix isTw tpl = tpl
  /\ (forall op l,
         rewrite_argument prefix isTw (LogicalExpression op l tpl)
         = LogicalExpression op l tpl)
  /\ (forall attrs name callee before after,
         exists before' after',
           visit_JSXAttribute attrs prefix isTw name
             (Some (JSXExpressionContainer
                      (CallExpression callee (before ++ tpl :: after))))
           = Some (JSXExpressionContainer
                     (CallExpression callee (before' ++ tpl :: after')))
           /\ length before' = length before
           /\ length after' = length after).
Proof.
  intros tpl.
  split; [reflexivity | ].
  split.
  { intros attrs name. unfold visit_JSXAttribute.
    now destruct (isTargetJSXAttribute name attrs). }
  split; [reflexivity | ].
  split; [reflexivity | ].
  intros attrs name callee before after.
  unfold visit_JSXAttribute.
  destruct (isTargetJSXAttribute name attrs); simpl.
  - destruct (is_helper_callee callee).
    + exists (map (rewrite_argument prefix isTw) before),
        (map (rewrite_argument prefix isTw) after).
      rewrite map_app. simpl. now rewrite !length_map.
    + now exists before, after.
  - now exists before, after.
Qed.

(** ** The traversal *)

Lemma height_children (ns : list Node) :
  (fix hs (ms : list Node) : nat :=
     match ms with
     | [] => 0
     | m :: rest => Nat.max (height m) (hs rest)
     end) ns = heights ns.
Proof. induction ns as [|n ns IH]; simpl; [reflexivity | now rewrite IH]. Qed.

Lemma heights_bound (ns : list Node) (k : nat) :
  heights ns <= k -> forall n, In n ns -> height n <= k.
Proof.
  induction ns as [|m ns IH]; simpl; intros Hk n Hin; [now elim Hin | ].
  destruct Hin as [<- | Hin]; [lia | apply IH; [lia | exact Hin]].
Qed.

Lemma height_positive (n : Node) : 1 <= height n.
Proof. destruct n as [ | | | | | | | | | ? [v|] | ]; simpl; lia. Qed.


Lemma rewritten_static_height (prefix : string) (isTw : Classifier)
  (n : Node) :
  height (rewritten_static prefix isTw n) <= height n.
Proof. destruct n as [ | q [|e es] | | | | | | | | | ]; simpl; lia. Qed.

Lemma rewrite_argument_height (prefix : string) (isTw : Classifier)
  (arg : Node) :
  height (rewrite_argument prefix isTw arg) <= height arg.
Proof.
  destruct arg as [ | q [|e es] | | | op l r | | | | | | ];
    try (simpl; lia).
  rewrite rewrite_argument_logical.
  pose proof (rewritten_static_height prefix isTw r). simpl. lia.
Qed.

Lemma heights_map_rewrite_argument (prefix : string) (isTw : Classifier)
  (args : list Node) :
  heights (map (rewrite_argument prefix isTw) args) <= heights args.
Proof.
  induction args as [|a args IH]; simpl; [lia | ].
  pose proof (rewrite_argument_height prefix isTw a). lia.
Qed.

(** The visitor never makes the value of an attribute higher. *)
Lemma visit_JSXAttribute_height (attrs : list string) (prefix : string)
  (isTw : Classifier) (name : JSXAttributeName) (value : option Node) :
  height_opt (visit_JSXAttribute attrs prefix isTw name value)
  <= height_opt value.
Proof.
  unfold visit_JSXAttribute.
  destruct (isTargetJSXAttribute name attrs); simpl; [ | lia].
  destruct value as [v|]; simpl; [ | lia].
  destruct v as [ | | | | | | | | ex | | ]; simpl; try lia.
  destruct ex as [ | q [|e es] | | callee args | | | | | | | ];
    simpl; try lia.
  destruct (is_helper_callee callee); simpl; [ | lia].
  rewrite (height_children args), (height_children (map _ args)).
  pose proof (heights_map_rewrite_argument prefix isTw args). lia.
Qed.



(** ** Two passes, and the build start *)

Example scenario_A_tree :
  rewrite_tree (prefix_opts "tw-") "tw-"
    (element_with_class "bg-red-500 text-white")
  = Some (element_with_class "tw-bg-red-500 tw-text-white").
Proof. reflexivity. Qed.

Example scenario_D_tree :
  rewrite_tree (prefix_opts "tw-") "tw-"
    (JSXAttribute (JSXIdentifier "className")
       (Some (JSXExpressionContainer
                (TemplateLiteral
                   [mkQuasi "bg-red-500 text-white"
                      (Some "bg-red-500 text-white")] []))))
  = Some (JSXAttribute (JSXIdentifier "className")
            (Some (StringLiteral "tw-bg-red-500 tw-text-white"))).
Proof. reflexivity. Qed.

(** C2 at the failing input: with [prefixOverride] set to [tw:] and the
    default classifier, the pass turns [className="bg"] into
    [className="tw:bg"], and the same pass over that result turns it into
    [className="tw:tw:bg"]: the second run is not a no-op. *)
Theorem rewrite_tree_twice_colon_prefix :
  let userOpts := prefix_opts "tw:" in
  let st := buildStart userOpts initial_state in
  let prefix := Js.nullish (cachedPrefix st) "" in
  prefix = "tw:"
  /\ rewrite_tree userOpts prefix (element_with_class "bg")
     = Some (element_with_class "tw:bg")
  /\ rewrite_tree userOpts prefix (element_with_class "tw:bg")
     = Some (element_with_class "tw:tw:bg")
  /\ transformClassesInString "bg" prefix None = "tw:bg"
  /\ transformClassesInString "tw:bg" prefix None = "tw:tw:bg"
  /\ element_with_class "tw:tw:bg" <> element_with_class "tw:bg".
Proof. repeat split; try reflexivity. vm_compute. discriminate. Qed.

(** ** Segments: what a second split of a rebuilt token gives *)

Lemma split_step_ctl (prev : option ascii) (ch : ascii) (st : SplitState) :
  split_step prev ch st
  = let '(d', q', splits) := ctl_step prev ch (depth st) (quote st) in
    if splits then
      {| parts := parts st ++ [buf st]; buf := ""; depth := d'; quote := q' |}
    else
      {| parts := parts st; buf := Js.push_char (buf st) ch;
         depth := d'; quote := q' |}.
Proof.
  unfold ctl_step, split_step. simpl.
  destruct (quote st) as [q|]; simpl; [reflexivity | ].
  destruct (is_quote_char ch); simpl; [reflexivity | ].
  destruct (Ascii.eqb ch "["); simpl; [reflexivity | ].
  destruct (Ascii.eqb ch "]"); simpl; [reflexivity | ].
  destruct (Ascii.eqb ch ":" && (depth st =? 0)%Z); reflexivity.
Qed.

(** Outside quotes the step does not look at the previous character. *)
Lemma ctl_step_prev (prev prev' : option ascii) (ch : ascii) (d : Z) :
  ctl_step prev ch d None = ctl_step prev' ch d None.
Proof. reflexivity. Qed.

Lemma seg_run_prev (prev prev' : option ascii) (s : string) (d : Z) :
  seg_run prev s d None = seg_run prev' s d None.
Proof. destruct s; reflexivity. Qed.

Lemma seg_run_cons (prev : option ascii) (ch : ascii) (rest : string)
  (d : Z) (q : option ascii) :
  seg_run prev (String ch rest) d q
  = let '(d', q', splits) := ctl_step prev ch d q in
    if splits then None else seg_run (Some ch) rest d' q'.
Proof. reflexivity. Qed.

Lemma split_loop_seg (s : string) :
  forall prev st d' q',
    seg_run prev s (depth st) (quote st) = Some (d', q') ->
    split_loop prev s st
    = {| parts := parts st; buf := (buf st ++ s)%string;
         depth := d'; quote := q' |}.
Proof.
  induction s as [|ch s IH]; intros prev st d' q' H.
  - simpl in H. injection H as <- <-. simpl. rewrite sapp_nil_r.
    now destruct st.
  - rewrite seg_run_cons in H. simpl split_loop. rewrite split_step_ctl.
    destruct (ctl_step prev ch (depth st) (quote st)) as [[d1 q1] sp].
    destruct sp; [discriminate | ].
    rewrite (IH (Some ch) _ d' q') by exact H.
    simpl. unfold Js.push_char. now rewrite <- sapp_assoc.
Qed.

Lemma seg_run_app (a : string) :
  forall prev b d q,
    seg_run prev (a ++ b) d q
    = match seg_run prev a d q with
      | Some (d', q') => seg_run (prev_after prev a) b d' q'
      | None => None
      end.
Proof.
  induction a as [|c a IH]; intros prev b d q; [reflexivity | ].
  change (String c a ++ b)%string with (String c (a ++ b)).
  rewrite !seg_run_cons.
  destruct (ctl_step prev c d q) as [[d1 q1] sp].
  destruct sp; [reflexivity | ].
  rewrite IH. now rewrite (prev_after_cons prev).
Qed.

Lemma scan_invariant_init : scan_invariant None split_init.
Proof.
  split; [constructor | split; [reflexivity | intros H; now elim H]].
Qed.

Lemma scan_invariant_step (prev : option ascii) (ch : ascii)
  (st : SplitState) :
  scan_invariant prev st -> scan_invariant (Some ch) (split_step prev ch st).
Proof.
  intros (Hp & Hb & Hq).
  assert (Hstep : ctl_step (prev_after None (buf st)) ch (depth st) (quote st)
                  = ctl_step prev ch (depth st) (quote st)).
  { destruct (quote st) as [q|] eqn:Eq; [ | reflexivity].
    rewrite (Hq ltac:(discriminate)).
    unfold prev_after. now destruct (last_char (buf st)). }
  pose proof (seg_run_app (buf st) None (String ch "") 0%Z None) as Happ.
  rewrite Hb, seg_run_cons, Hstep in Happ.
  rewrite split_step_ctl.
  destruct (ctl_step prev ch (depth st) (quote st)) as [[d1 q1] sp] eqn:Ec.
  destruct sp; simpl.
  - assert (Hclean : quote st = None /\ depth st = 0%Z /\ d1 = 0%Z /\ q1 = None).
    { revert Ec. unfold ctl_step, split_step. simpl.
      destruct (quote st); simpl; [intros [= _ _ H]; discriminate | ].
      destruct (is_quote_char ch); simpl; [intros [= _ _ H]; discriminate | ].
      destruct (Ascii.eqb ch "["); simpl; [intros [= _ _ H]; discriminate | ].
      destruct (Ascii.eqb ch "]"); simpl; [intros [= _ _ H]; discriminate | ].
      destruct (Ascii.eqb ch ":"); simpl; [ | intros [= _ _ H]; discriminate].
      destruct (depth st =? 0)%Z eqn:Ed; simpl;
        [ | intros [= _ _ H]; discriminate].
      apply Z.eqb_eq in Ed. intros [= <- <-]. auto. }
    destruct Hclean as (Hq0 & Hd0 & -> & ->).
    repeat split.
    + apply Forall_app. split; [exact Hp | ].
      constructor; [ | constructor].
      unfold closed_segment. now rewrite Hb, Hq0, Hd0.
    + intros H. now elim H.
  - repeat split.
    + exact Hp.
    + exact Happ.
    + intros _. simpl. unfold Js.push_char. now rewrite last_char_snoc.
Qed.

Lemma scan_invariant_loop (rest : string) :
  forall prev st,
    scan_invariant prev st ->
    scan_invariant (prev_after prev rest) (split_loop prev rest st).
Proof.
  induction rest as [|ch rest IH]; intros prev st H; [exact H | ].
  simpl. rewrite <- (prev_after_cons prev). apply IH.
  now apply scan_invariant_step.
Qed.

Lemma closed_is_final (s : string) : closed_segment s -> final_segment s.
Proof. intros H. now exists 0%Z, None. Qed.

(** The segments [prefixOneToken] works on: all but the last are closed,
    and the last (the empty string when there is none) is final. *)
Lemma splitVariants_segments (token : string) :
  forall segments popped,
    Js.pop (splitVariants token) = (segments, popped) ->
    Forall closed_segment segments
    /\ final_segment (Js.nullish popped "")
    /\ splitVariants token
       = match popped with
         | Some l => (segments ++ [l])%list
         | None => []
         end.
Proof.
  intros segments popped Hpop.
  pose proof (scan_invariant_loop token None split_init scan_invariant_init)
    as (Hp & Hb & _).
  rewrite <- scan_fold in Hp, Hb.
  unfold splitVariants, split_finish in *.
  destruct (Js.is_empty (buf (scan token))) eqn:Eb.
  - destruct (parts (scan token)) as [|x xs _] eqn:Ep using rev_ind.
    + simpl in Hpop. injection Hpop as <- <-.
      repeat split; [constructor | now exists 0%Z, None].
    + rewrite pop_snoc in Hpop. injection Hpop as <- <-.
      apply Forall_app in Hp as [Hxs Hx].
      repeat split; [exact Hxs | ].
      apply closed_is_final. now inversion Hx.
  - rewrite pop_snoc in Hpop. injection Hpop as <- <-.
    repeat split; [exact Hp | ].
    now exists (depth (scan token)), (quote (scan token)).
Qed.

Lemma ctl_step_cases (prev : option ascii) (ch : ascii) (d : Z)
  (q : option ascii) :
  ctl_step prev ch d q
  = match q with
    | Some q0 =>
        (d, if Ascii.eqb ch q0 && not_backslash prev then None else Some q0,
         false)
    | None =>
        if is_quote_char ch then (d, Some ch, false)
        else if Ascii.eqb ch "[" then ((d + 1)%Z, None, false)
        else if Ascii.eqb ch "]" then (Z.max 0 (d - 1), None, false)
        else if Ascii.eqb ch ":" && (d =? 0)%Z then (d, None, true)
        else (d, None, false)
    end.
Proof.
  unfold ctl_step, split_step. simpl.
  destruct q as [q0|]; simpl; [reflexivity | ].
  destruct (is_quote_char ch); simpl; [reflexivity | ].
  destruct (Ascii.eqb ch "["); simpl; [reflexivity | ].
  destruct (Ascii.eqb ch "]"); simpl; [reflexivity | ].
  destruct (Ascii.eqb ch ":" && (d =? 0)%Z); reflexivity.
Qed.

(** Splitting a list of closed segments and a final one, joined by colons,
    gives these segments back. *)
Lemma split_loop_join (segs : list string) (l : string) (d : Z)
  (q : option ascii) :
  Forall closed_segment segs ->
  seg_run None l 0%Z None = Some (d, q) ->
  forall prev P,
    split_loop prev (Js.join ":" (segs ++ [l]))
      {| parts := P; buf := ""; depth := 0%Z; quote := None |}
    = {| parts := (P ++ segs)%list; buf := l; depth := d; quote := q |}.
Proof.
  intros Hsegs Hl.
  induction Hsegs as [|s segs Hs Hsegs IH]; intros prev P.
  - simpl. rewrite (split_loop_seg l prev _ d q).
    + simpl. now rewrite app_nil_r.
    + simpl. now rewrite (seg_run_prev prev None).
  - change ((s :: segs) ++ [l])%list with (s :: (segs ++ [l]))%list.
    rewrite join_cons by (now destruct segs).
    rewrite split_loop_app.
    rewrite (split_loop_seg s prev _ 0%Z None)
      by (simpl; now rewrite (seg_run_prev prev None)).
    simpl buf. simpl parts.
    change (":" ++ Js.join ":" (segs ++ [l]))%string
      with (String ":" (Js.join ":" (segs ++ [l]))).
    simpl split_loop.
    match goal with
    | |- context [split_step ?p ":" ?st] =>
        change (split_step p ":" st)
          with {| parts := (P ++ [s])%list; buf := "";
                  depth := 0%Z; quote := None |}
    end.
    rewrite IH. now rewrite <- app_assoc.
Qed.

Lemma splitVariants_of_join (segs : list string) (l : string) :
  Forall closed_segment segs ->
  final_segment l ->
  l <> "" ->
  splitVariants (Js.join ":" (segs ++ [l])) = (segs ++ [l])%list.
Proof.
  intros Hsegs (d & q & Hl) Hne.
  unfold splitVariants. rewrite scan_fold. unfold split_init.
  rewrite (split_loop_join segs l d q Hsegs Hl None []).
  unfold split_finish. simpl.
  apply is_empty_false in Hne. now rewrite Hne.
Qed.

(** A step that does not split at some depth does not split at a greater
    depth either, and keeps the order of the depths. *)
Lemma ctl_step_deeper (prev : option ascii) (ch : ascii) (d1 d2 e1 : Z)
  (q q1 : option ascii) :
  (0 <= d1 <= d2)%Z ->
  ctl_step prev ch d1 q = (e1, q1, false) ->
  exists e2, ctl_step prev ch d2 q = (e2, q1, false) /\ (0 <= e1 <= e2)%Z.
Proof.
  intros Hd. rewrite !ctl_step_cases.
  destruct q as [q0|].
  - intros [= <- <-]. exists d2. split; [reflexivity | lia].
  - destruct (is_quote_char ch).
    { intros [= <- <-]. exists d2. split; [reflexivity | lia]. }
    destruct (Ascii.eqb ch "[").
    { intros [= <- <-]. exists (d2 + 1)%Z. split; [reflexivity | lia]. }
    destruct (Ascii.eqb ch "]").
    { intros [= <- <-]. exists (Z.max 0 (d2 - 1)). split; [reflexivity | lia]. }
    destruct (Ascii.eqb ch ":"); simpl.
    + destruct (d1 =? 0)%Z eqn:E1; [discriminate | ].
      apply Z.eqb_neq in E1.
      replace (d2 =? 0)%Z with false by (symmetry; apply Z.eqb_neq; lia).
      intros [= <- <-]. exists d2. split; [reflexivity | lia].
    + intros [= <- <-]. exists d2. split; [reflexivity | lia].
Qed.

Lemma seg_run_deeper (s : string) :
  forall prev d1 d2 q e1 q1,
    (0 <= d1 <= d2)%Z ->
    seg_run prev s d1 q = Some (e1, q1) ->
    exists e2, seg_run prev s d2 q = Some (e2, q1).
Proof.
  induction s as [|ch s IH]; intros prev d1 d2 q e1 q1 Hd H.
  - simpl in *. injection H as <- <-. now exists d2.
  - rewrite seg_run_cons in *.
    destruct (ctl_step prev ch d1 q) as [[a1 b1] sp] eqn:E1.
    destruct sp; [discriminate | ].
    destruct (ctl_step_deeper prev ch d1 d2 a1 q b1 Hd E1) as (a2 & -> & Ha).
    now apply (IH (Some ch) a1 a2 b1 e1 q1).
Qed.

Lemma seg_run_plain (p : string) :
  forall prev d,
    (0 <= d)%Z ->
    Js.all_chars plain_char p = true ->
    exists d', seg_run prev p d None = Some (d', None) /\ (0 <= d')%Z.
Proof.
  induction p as [|c p IH]; intros prev d Hd Hp.
  - now exists d.
  - simpl in Hp. apply andb_true_iff in Hp as [Hc Hp].
    unfold plain_char in Hc. apply andb_true_iff in Hc as [Hcolon Hquote].
    apply negb_true_iff in Hcolon, Hquote.
    rewrite seg_run_cons, ctl_step_cases, Hquote, Hcolon. simpl.
    destruct (Ascii.eqb c "["); [apply IH; [lia | exact Hp] | ].
    destruct (Ascii.eqb c "]"); apply IH; (lia || exact Hp).
Qed.

(** Putting a plain prefix in front of a final segment gives a final
    segment. *)
Lemma final_segment_prefixed (p l : string) :
  Js.all_chars plain_char p = true ->
  final_segment l ->
  final_segment (p ++ l).
Proof.
  intros Hp (d & q & Hl). unfold final_segment.
  rewrite seg_run_app.
  destruct (seg_run_plain p None 0%Z ltac:(lia) Hp) as (dp & -> & Hdp).
  rewrite (seg_run_prev _ None).
  destruct (seg_run_deeper l None 0%Z dp None d q ltac:(lia) Hl) as [e He].
  now exists e, q.
Qed.

(** ** Applying the prefixer twice *)

Lemma prefix_empty (s : string) : String.prefix "" s = true.
Proof. now destruct s. Qed.

Lemma startsWith_app (p l : string) : Js.startsWith (p ++ l) p = true.
Proof.
  unfold Js.startsWith. induction p as [|a p IH]; simpl.
  - apply prefix_empty.
  - destruct (ascii_dec a a) as [_|Hne]; [exact IH | now elim Hne].
Qed.

Lemma startsWith_first_char (l p : string) :
  Js.startsWith l p = true -> p <> "" -> first_char l = first_char p.
Proof.
  unfold Js.startsWith. destruct p as [|a p]; [intros _ H; now elim H | ].
  destruct l as [|b l]; simpl; [discriminate | ].
  destruct (ascii_dec a b) as [->|]; [reflexivity | discriminate].
Qed.

Lemma startsWith_bang_first_char (s : string) :
  Js.startsWith s "!" = true <-> first_char s = Some "!"%char.
Proof.
  unfold Js.startsWith. destruct s as [|c s].
  - split; discriminate.
  - change (String.prefix "!" (String c s))
      with (if ascii_dec "!" c then String.prefix "" s else false).
    destruct (ascii_dec "!" c) as [<-|Hne].
    + split; [reflexivity | intros _; apply prefix_empty].
    + split; [discriminate | intros [= H]; now elim Hne].
Qed.

Lemma startsWith_bang_inv (s : string) :
  Js.startsWith s "!" = true -> s = String "!" (Js.slice1 s).
Proof.
  intros H. apply startsWith_bang_first_char in H.
  destruct s as [|c s]; [discriminate | ]. now injection H as ->.
Qed.

Lemma first_char_app (a b : string) :
  a <> "" -> first_char (a ++ b) = first_char a.
Proof. destruct a; [intros H; now elim H | reflexivity]. Qed.

(** The first character of a join of two segments or more is that of its
    first segment followed by a colon, whatever the last segment is. *)
Lemma first_char_join (s : string) (segs : list string) (x : string) :
  first_char (Js.join ":" (s :: segs ++ [x])) = first_char (s ++ ":").
Proof.
  rewrite join_cons by (now destruct segs).
  rewrite sapp_assoc. apply first_char_app. now destruct s.
Qed.

(** The segments [prefixOneToken] joins: those of the token, with the last
    one replaced by one that starts with the prefix. *)
Lemma prefixed_segments (token p : string) (segs : list string)
  (popped : option string) :
  Js.is_empty p = false ->
  Js.all_chars plain_char p = true ->
  Js.pop (splitVariants token) = (segs, popped) ->
  let last := Js.nullish popped "" in
  let last' := if Js.startsWith last p then last else (p ++ last)%string in
  Forall closed_segment segs
  /\ final_segment last'
  /\ Js.startsWith last' p = true
  /\ last' <> "".
Proof.
  intros Hne Hp Hpop last last'.
  destruct (splitVariants_segments token segs popped Hpop) as (Hs & Hl & _).
  fold last in Hl.
  assert (Hstart : Js.startsWith last' p = true).
  { unfold last'. destruct (Js.startsWith last p) eqn:E; [exact E | ].
    apply startsWith_app. }
  repeat split; [exact Hs | | exact Hstart | ].
  - unfold last'. destruct (Js.startsWith last p); [exact Hl | ].
    now apply final_segment_prefixed.
  - intros E. rewrite E in Hstart. unfold Js.startsWith in Hstart.
    destruct p; [discriminate | discriminate].
Qed.

(** On a token rebuilt from such segments, the prefixer finds the same
    segments and leaves them. *)
Lemma rebuilt_segments (p : string) (segs : list string) (l : string) :
  Forall closed_segment segs ->
  final_segment l ->
  Js.startsWith l p = true ->
  l <> "" ->
  let '(segments, popped) := Js.pop (splitVariants (Js.join ":" (segs ++ [l]))) in
  let last := Js.nullish popped "" in
  Js.join ":"
    (segments ++ [if Js.startsWith last p then last else (p ++ last)%string])
  = Js.join ":" (segs ++ [l]).
Proof.
  intros Hs Hl Hstart Hne.
  rewrite splitVariants_of_join by assumption.
  rewrite pop_snoc. simpl. now rewrite Hstart.
Qed.

(** For a prefix without colon and quote that does not start with the
    important marker, applying the prefixer twice is the same as applying
    it once, on every token. *)
Lemma prefixOneToken_twice (token p : string) :
  plain_prefix p = true ->
  prefixOneToken (prefixOneToken token p) p = prefixOneToken token p.
Proof.
  intros Hplain. unfold plain_prefix in Hplain.
  apply andb_true_iff in Hplain as [Hp Hbang].
  apply negb_true_iff in Hbang.
  destruct (Js.is_empty p) eqn:Hne.
  { apply is_empty_true in Hne. now subst p. }
  assert (Hpne : p <> "") by now apply is_empty_false.
  destruct (Js.startsWith token "!") eqn:Htok.
  - (* the token carries the marker *)
    rewrite (startsWith_bang_inv token Htok).
    set (rest := Js.slice1 token).
    rewrite (prefixOneToken_marked rest p Hne).
    destruct (Js.pop (splitVariants rest)) as [segs popped] eqn:Hpop.
    destruct (prefixed_segments rest p segs popped Hne Hp Hpop)
      as (Hs & Hl & Hstart & Hlne).
    simpl in *.
    rewrite (prefixOneToken_marked _ p Hne).
    pose proof (rebuilt_segments p segs _ Hs Hl Hstart Hlne) as Hre.
    destruct (Js.pop (splitVariants (Js.join ":" (segs ++ [_]))))
      as [segs2 popped2].
    simpl in *. now rewrite Hre.
  - (* the token carries no marker *)
    rewrite (prefixOneToken_unmarked token p Hne Htok).
    destruct (Js.pop (splitVariants token)) as [segs popped] eqn:Hpop.
    destruct (prefixed_segments token p segs popped Hne Hp Hpop)
      as (Hs & Hl & Hstart & Hlne).
    destruct (splitVariants_segments token segs popped Hpop)
      as (_ & _ & Hsplit).
    simpl in *.
    set (last' := if Js.startsWith (Js.nullish popped "") p
                  then Js.nullish popped ""
                  else (p ++ Js.nullish popped "")%string) in *.
    assert (Hnobang : Js.startsWith (Js.join ":" (segs ++ [last'])) "!" = false).
    { apply not_true_iff_false. intros Hb.
      apply startsWith_bang_first_char in Hb.
      destruct segs as [|s segs].
      - simpl in Hb.
        rewrite (startsWith_first_char last' p Hstart Hpne) in Hb.
        apply startsWith_bang_first_char in Hb. congruence.
      - change ((s :: segs) ++ [last'])%list
          with (s :: segs ++ [last'])%list in Hb.
        rewrite first_char_join in Hb.
        destruct popped as [l|];
          [ | apply (f_equal (@List.length string)) in Hsplit;
              pose proof (pop_nil_inv (splitVariants token)) as Hnil;
              rewrite Hpop in Hnil; specialize (Hnil eq_refl);
              rewrite Hnil in Hpop; discriminate ].
        assert (Hfirst : first_char token = first_char (s ++ ":")).
        { destruct (splitVariants_join token) as [Hj | [_ Hj]];
            [rewrite <- Hj | rewrite Hj]; rewrite Hsplit;
            change ((s :: segs) ++ [l])%list with (s :: segs ++ [l])%list.
          - apply first_char_join.
          - rewrite first_char_app; [apply first_char_join | ].
            rewrite join_cons by (now destruct segs). now destruct s. }
        rewrite <- Hfirst in Hb.
        apply startsWith_bang_first_char in Hb. congruence. }
    rewrite (prefixOneToken_unmarked _ p Hne Hnobang).
    pose proof (rebuilt_segments p segs last' Hs Hl Hstart Hlne) as Hre.
    destruct (Js.pop (splitVariants (Js.join ":" (segs ++ [last']))))
      as [segs2 popped2].
    exact Hre.
Qed.

(** ** Rewriting a class string twice *)

Lemma all_chars_app (P : ascii -> bool) (a b : string) :
  Js.all_chars P (a ++ b) = Js.all_chars P a && Js.all_chars P b.
Proof.
  induction a as [|c a IH]; simpl; [reflexivity | ].
  now rewrite IH, andb_assoc.
Qed.

Lemma all_chars_join (P : ascii -> bool) (sep : string) (xs : list string) :
  Js.all_chars P sep = true ->
  Forall (fun x => Js.all_chars P x = true) xs ->
  Js.all_chars P (Js.join sep xs) = true.
Proof.
  intros Hsep Hxs. induction Hxs as [|x xs Hx Hxs IH]; [reflexivity | ].
  destruct xs as [|y ys]; [exact Hx | ].
  rewrite join_cons by discriminate.
  now rewrite !all_chars_app, Hx, Hsep, IH.
Qed.

Lemma all_chars_join_inv (P : ascii -> bool) (sep : string)
  (xs : list string) :
  Js.all_chars P (Js.join sep xs) = true ->
  Forall (fun x => Js.all_chars P x = true) xs.
Proof.
  induction xs as [|x xs IH]; intros H; [constructor | ].
  destruct xs as [|y ys]; [now repeat constructor | ].
  rewrite join_cons in H by discriminate.
  rewrite !all_chars_app in H.
  apply andb_true_iff in H as [Hx H]. apply andb_true_iff in H as [_ H].
  constructor; [exact Hx | now apply IH].
Qed.

Lemma split_ws_from_not_space (s : string) :
  forall buf b,
    Js.all_chars not_space buf = true ->
    Forall (fun x => Js.all_chars not_space x = true)
      (Js.split_ws_from buf b s).
Proof.
  induction s as [|c s IH]; intros buf b Hbuf; simpl.
  - now repeat constructor.
  - destruct (Js.is_space c) eqn:Hc.
    + destruct b; [now apply IH | ].
      constructor; [exact Hbuf | now apply IH].
    + apply IH. unfold Js.push_char. rewrite all_chars_app, Hbuf. simpl.
      unfold not_space. now rewrite Hc.
Qed.

(** The tokens of a class string are tokens. *)
Lemma class_tokens_are_tokens (input : string) :
  forallb is_token (class_tokens input) = true.
Proof.
  apply forallb_forall. intros x Hx.
  unfold class_tokens in Hx. apply filter_In in Hx as [Hin Hne].
  unfold is_token. rewrite Hne. simpl.
  pose proof (split_ws_from_not_space input "" false eq_refl) as Hall.
  rewrite Forall_forall in Hall. exact (Hall x Hin).
Qed.

Lemma join_snoc_nonempty (sep : string) (xs : list string) (l : string) :
  l <> "" -> Js.join sep (xs ++ [l]) <> "".
Proof.
  intros Hl. induction xs as [|x xs IH]; [exact Hl | ].
  change ((x :: xs) ++ [l])%list with (x :: (xs ++ [l]))%list.
  rewrite join_cons by (now destruct xs).
  intros E. apply IH.
  destruct x; simpl in E; [ | discriminate].
  destruct sep; simpl in E; [exact E | discriminate].
Qed.

(** The characters of a prefixed token are those of the token and of the
    prefix, besides the colon and the important marker. *)
Lemma prefixOneToken_chars (P : ascii -> bool) (token p : string) :
  P ":"%char = true -> P "!"%char = true ->
  Js.all_chars P token = true ->
  Js.all_chars P p = true ->
  Js.all_chars P (prefixOneToken token p) = true.
Proof.
  intros Hcolon Hbang Htok Hp.
  assert (Hcore : forall t,
             Js.all_chars P t = true ->
             forall segs popped,
               Js.pop (splitVariants t) = (segs, popped) ->
               let last := Js.nullish popped "" in
               Js.all_chars P
                 (Js.join ":"
                    (segs ++ [if Js.startsWith last p then last
                              else (p ++ last)%string])) = true).
  { intros t Ht segs popped Hpop last.
    assert (Hsegs : Forall (fun x => Js.all_chars P x = true)
                      (splitVariants t)).
    { apply (all_chars_join_inv P ":").
      destruct (splitVariants_join t) as [Hj | [_ Hj]].
      - now rewrite Hj.
      - rewrite Hj, all_chars_app in Ht. now apply andb_true_iff in Ht as [? _]. }
    assert (Hboth : Forall (fun x => Js.all_chars P x = true) segs
                    /\ Js.all_chars P last = true).
    { unfold last. destruct popped as [l|].
      - apply pop_spec in Hpop. rewrite Hpop in Hsegs.
        apply Forall_app in Hsegs as [H1 H2]. split; [exact H1 | ].
        now inversion H2.
      - pose proof (pop_nil_inv (splitVariants t)) as Hnil.
        rewrite Hpop in Hnil. specialize (Hnil eq_refl).
        rewrite Hnil in Hpop. simpl in Hpop. injection Hpop as <-.
        split; [constructor | reflexivity]. }
    destruct Hboth as [H1 H2].
    apply all_chars_join; [simpl; now rewrite Hcolon | ].
    apply Forall_app. split; [exact H1 | ].
    constructor; [ | constructor].
    destruct (Js.startsWith last p); [exact H2 | ].
    now rewrite all_chars_app, Hp, H2. }
  destruct (Js.is_empty p) eqn:Hne.
  { apply is_empty_true in Hne. now subst p. }
  destruct (Js.startsWith token "!") eqn:Hb.
  - rewrite (startsWith_bang_inv token Hb) in *.
    rewrite (prefixOneToken_marked _ p Hne).
    simpl in Htok. apply andb_true_iff in Htok as [_ Htok].
    simpl Js.slice1 in *.
    specialize (Hcore _ Htok).
    destruct (Js.pop (splitVariants _)) as [segs popped].
    simpl. rewrite Hbang. simpl. now apply Hcore.
  - rewrite (prefixOneToken_unmarked token p Hne Hb).
    specialize (Hcore _ Htok).
    destruct (Js.pop (splitVariants token)) as [segs popped].
    now apply Hcore.
Qed.

Lemma prefixOneToken_nonempty (token p : string) :
  token <> "" -> prefixOneToken token p <> "".
Proof.
  intros Htok.
  destruct (Js.is_empty p) eqn:Hne.
  { apply is_empty_true in Hne. now subst p. }
  assert (Hlast : forall last,
             (if Js.startsWith last p then last else (p ++ last)%string) <> "").
  { intros last. destruct (Js.startsWith last p) eqn:E.
    - intros ->. unfold Js.startsWith in E. now destruct p.
    - destruct p; [discriminate | discriminate]. }
  destruct (Js.startsWith token "!") eqn:Hb.
  - rewrite (startsWith_bang_inv token Hb).
    rewrite (prefixOneToken_marked _ p Hne).
    destruct (Js.pop (splitVariants _)) as [segs popped]. discriminate.
  - rewrite (prefixOneToken_unmarked token p Hne Hb).
    destruct (Js.pop (splitVariants token)) as [segs popped].
    apply join_snoc_nonempty, Hlast.
Qed.

(** A rewritten token is a token, when the prefix has no white space. *)
Lemma rewrite_token_is_token (p : string) (isTw : Classifier)
  (tok : string) :
  Js.all_chars not_space p = true ->
  is_token tok = true ->
  is_token (rewrite_token p isTw tok) = true.
Proof.
  intros Hp Htok. unfold rewrite_token.
  destruct (shouldPrefix isTw tok); [ | exact Htok].
  unfold is_token in *. apply andb_true_iff in Htok as [Hne Hws].
  apply negb_true_iff, is_empty_false in Hne.
  apply andb_true_iff. split.
  - apply negb_true_iff, is_empty_false. now apply prefixOneToken_nonempty.
  - now apply (prefixOneToken_chars not_space).
Qed.

Lemma rewrite_token_idempotent (p : string) (isTw : Classifier)
  (tok : string) :
  plain_prefix p = true ->
  rewrite_token p isTw (rewrite_token p isTw tok) = rewrite_token p isTw tok.
Proof.
  intros Hp. unfold rewrite_token at 2 3.
  destruct (shouldPrefix isTw tok) eqn:E.
  - unfold rewrite_token.
    destruct (shouldPrefix isTw (prefixOneToken tok p)); [ | reflexivity].
    now apply prefixOneToken_twice.
  - unfold rewrite_token. now rewrite E.
Qed.

(** For a prefix without colon, quote and white space that does not start
    with the important marker, and for every classifier, rewriting the
    rewritten string changes nothing. *)
Lemma transformClassesInString_twice
  (input p : string) (isTw : Classifier) :
  plain_prefix p = true ->
  Js.all_chars not_space p = true ->
  transformClassesInString (transformClassesInString input p isTw) p isTw
  = transformClassesInString input p isTw.
Proof.
  intros Hplain Hws. unfold transformClassesInString.
  rewrite !rewritten_tokens_map.
  rewrite class_tokens_join.
  - f_equal. rewrite map_map. apply map_ext.
    intros tok. now apply rewrite_token_idempotent.
  - pose proof (class_tokens_are_tokens input) as Hall.
    rewrite forallb_forall in Hall.
    apply forallb_forall. intros x Hx.
    apply in_map_iff in Hx as (tok & <- & Hin).
    apply rewrite_token_is_token; [exact Hws | now apply Hall].
Qed.

(** ** Walking a tree twice *)

Section Walk.

Variable attrs : list string.
Variable prefix : string.
Variable isTw : Classifier.

Local Abbreviation visit := (visit_JSXAttribute attrs prefix isTw).
Local Abbreviation wk := (walk attrs prefix isTw).

Lemma walk_rewritten_static (r : Node) :
  wk (rewritten_static prefix isTw r) = rewritten_static prefix isTw (wk r).
Proof. destruct r as [ | q [|e es] | | | | | | | | | ]; reflexivity. Qed.

Lemma walk_rewrite_argument (arg : Node) :
  wk (rewrite_argument prefix isTw arg)
  = rewrite_argument prefix isTw (wk arg).
Proof.
  destruct arg as [ | q [|e es] | | | op l r | | | | | | ];
    try reflexivity.
  rewrite rewrite_argument_logical. simpl wk.
  now rewrite rewrite_argument_logical, walk_rewritten_static.
Qed.

Lemma is_helper_callee_walk (callee : Node) :
  is_helper_callee (wk callee) = is_helper_callee callee.
Proof. now destruct callee. Qed.

(** The visitor and the wk of the value commute: the visitor only looks
    at the shape of the value, which the wk keeps, and rewrites strings,
    which the wk does not enter. *)
Lemma visit_walk_commute (name : JSXAttributeName) (value : option Node) :
  option_map wk (visit name value) = visit name (option_map wk value).
Proof.
  unfold visit_JSXAttribute.
  destruct (isTargetJSXAttribute name attrs); [ | reflexivity].
  destruct value as [v|]; [ | reflexivity].
  destruct v as [ | | | | | | | | ex | | ]; try reflexivity.
  destruct ex as [ | q [|e es] | | callee args | | | | | | | ];
    try reflexivity.
  simpl. rewrite is_helper_callee_walk.
  destruct (is_helper_callee callee); [ | reflexivity].
  simpl. rewrite !map_map. do 3 f_equal.
  apply map_ext. intros a. apply walk_rewrite_argument.
Qed.

Lemma mapM_map {A B : Type} (f : A -> option B) (g : A -> B)
  (xs : list A) :
  (forall x, In x xs -> f x = Some (g x)) -> mapM f xs = Some (map g xs).
Proof.
  induction xs as [|x xs IH]; intros H; simpl; [reflexivity | ].
  rewrite (H x (or_introl eq_refl)), IH; [reflexivity | ].
  intros z Hz. apply H. now right.
Qed.

(** With fuel for the height of the tree, the wk of [traverse] gives the
    tree [wk] computes. *)
Lemma traverse_fuel_is_walk :
  forall fuel n,
    height n <= fuel -> traverse_fuel fuel visit n = Some (wk n).
Proof.
  induction fuel as [|fuel IH]; intros n Hn.
  - pose proof (height_positive n). lia.
  - assert (Hl : forall ns, heights ns <= fuel ->
                            mapM (traverse_fuel fuel visit) ns
                            = Some (map wk ns)).
    { intros ns Hns. apply mapM_map. intros x Hx. apply IH.
      now apply (heights_bound ns). }
    destruct n as [v | q es | x | c args | op l r | ps | es | a | e
                   | name value | ty cs];
      simpl in Hn; rewrite ?height_children in Hn; simpl.
    + reflexivity.
    + rewrite Hl by lia. reflexivity.
    + reflexivity.
    + rewrite IH, Hl by lia. reflexivity.
    + rewrite !IH by lia. reflexivity.
    + rewrite Hl by lia. reflexivity.
    + rewrite Hl by lia. reflexivity.
    + rewrite IH by lia. reflexivity.
    + rewrite IH by lia. reflexivity.
    + change (match value with Some v => Some (wk v) | None => None end)
        with (option_map wk value).
      rewrite <- visit_walk_commute.
      pose proof (visit_JSXAttribute_height attrs prefix isTw name value) as Hh.
      destruct (visit name value) as [v|]; [ | reflexivity].
      rewrite IH; [reflexivity | ].
      simpl in Hh. destruct value as [v0|]; simpl in Hh, Hn.
      * lia.
      * pose proof (height_positive v). lia.
    + rewrite Hl by lia. reflexivity.
Qed.

Lemma traverse_is_walk (ast : Node) : traverse visit ast = Some (wk ast).
Proof. unfold traverse. now apply traverse_fuel_is_walk. Qed.

Hypothesis prefix_plain : plain_prefix prefix = true.
Hypothesis prefix_not_space : Js.all_chars not_space prefix = true.

Lemma rewritten_static_idempotent (r : Node) :
  rewritten_static prefix isTw (rewritten_static prefix isTw r)
  = rewritten_static prefix isTw r.
Proof.
  destruct r as [ | q [|e es] | | | | | | | | | ]; try reflexivity;
    simpl; now rewrite transformClassesInString_twice.
Qed.

Lemma rewrite_argument_idempotent (arg : Node) :
  rewrite_argument prefix isTw (rewrite_argument prefix isTw arg)
  = rewrite_argument prefix isTw arg.
Proof.
  destruct arg as [ | q [|e es] | | | op l r | | | | | | ];
    try reflexivity.
  - simpl. now rewrite transformClassesInString_twice.
  - unfold rewrite_argument at 2. rewrite replace_template_static.
    simpl. now rewrite transformClassesInString_twice.
  - now rewrite !rewrite_argument_logical, rewritten_static_idempotent.
Qed.

(** Visiting an attribute a second time changes nothing. *)
Lemma visit_idempotent (name : JSXAttributeName) (value : option Node) :
  visit name (visit name value) = visit name value.
Proof.
  unfold visit_JSXAttribute.
  destruct (isTargetJSXAttribute name attrs); simpl; [ | reflexivity].
  destruct value as [v|]; [ | reflexivity].
  destruct v as [ | | | | | | | | ex | | ]; try reflexivity.
  - simpl. now rewrite transformClassesInString_twice.
  - destruct ex as [ | q [|e es] | | callee args | | | | | | | ];
      try reflexivity.
    + simpl. now rewrite transformClassesInString_twice.
    + simpl. destruct (is_helper_callee callee) eqn:Hh; simpl;
        rewrite Hh; [ | reflexivity].
      rewrite map_map. do 3 f_equal.
      apply map_ext. intros a. apply rewrite_argument_idempotent.
Qed.

Lemma walk_idempotent_bounded :
  forall k n, height n <= k -> wk (wk n) = wk n.
Proof.
  induction k as [|k IH]; intros n Hn.
  - pose proof (height_positive n). lia.
  - assert (Hl : forall ns, heights ns <= k ->
                            map wk (map wk ns) = map wk ns).
    { intros ns Hns. rewrite map_map. apply map_ext_in. intros x Hx.
      apply IH. now apply (heights_bound ns). }
    destruct n as [v | q es | x | c args | op l r | ps | es | a | e
                   | name value | ty cs];
      simpl in Hn; rewrite ?height_children in Hn; simpl.
    + reflexivity.
    + rewrite Hl by lia. reflexivity.
    + reflexivity.
    + rewrite IH, Hl by lia. reflexivity.
    + rewrite !IH by lia. reflexivity.
    + rewrite Hl by lia. reflexivity.
    + rewrite Hl by lia. reflexivity.
    + rewrite IH by lia. reflexivity.
    + rewrite IH by lia. reflexivity.
    + f_equal.
      change (match value with Some v => Some (wk v) | None => None end)
        with (option_map wk value).
      change (match visit name (option_map wk value) with
              | Some v => Some (wk v)
              | None => None
              end)
        with (option_map wk (visit name (option_map wk value))).
      rewrite visit_walk_commute, visit_idempotent.
      f_equal. destruct value as [v|]; [ | reflexivity].
      simpl. f_equal. apply IH. simpl in Hn. lia.
    + rewrite Hl by lia. reflexivity.
Qed.

Lemma walk_idempotent (n : Node) : wk (wk n) = wk n.
Proof. now apply (walk_idempotent_bounded (height n)). Qed.

End Walk.

Lemma rewrite_tree_is_walk (userOpts : option TailwindPrefixPluginOpts)
  (prefix : string) (ast : Node) :
  rewrite_tree userOpts prefix ast
  = Some (walk (plugin_attrs userOpts) prefix (opt_field isTwToken userOpts)
            ast).
Proof. unfold rewrite_tree. apply traverse_is_walk. Qed.


(** ** The class strings of a tree *)

Lemma flat_map_through {A B C : Type} (f : A -> list B) (f' : A -> list C)
  (g : A -> A) (h : C -> B) (xs : list A) :
  (forall x, In x xs -> f (g x) = map h (f' x)) ->
  flat_map f (map g xs) = map h (flat_map f' xs).
Proof.
  induction xs as [|x xs IH]; intros H; simpl; [reflexivity | ].
  rewrite map_app, (H x (or_introl eq_refl)), IH; [reflexivity | ].
  intros z Hz. apply H. now right.
Qed.

Lemma flat_map_same {A B : Type} (f : A -> list B) (g : A -> A)
  (xs : list A) :
  (forall x, In x xs -> f (g x) = f x) ->
  flat_map f (map g xs) = flat_map f xs.
Proof.
  induction xs as [|x xs IH]; intros H; simpl; [reflexivity | ].
  rewrite (H x (or_introl eq_refl)), IH; [reflexivity | ].
  intros z Hz. apply H. now right.
Qed.

Section ClassStrings.

Variable attrs : list string.
Variable prefix : string.
Variable isTw : Classifier.

Local Abbreviation visit := (visit_JSXAttribute attrs prefix isTw).
Local Abbreviation wk := (walk attrs prefix isTw).
Local Abbreviation rewritten :=
  (fun s => transformClassesInString s prefix isTw).
Lemma argument_strings_rewrite (arg : Node) :
  argument_strings (rewrite_argument prefix isTw arg)
  = map rewritten (argument_strings arg).
Proof.
  destruct arg as [ | q [|e es] | | | op l r | | | | | | ];
    try reflexivity.
  destruct r as [ | q [|e es] | | | | | | | | | ]; reflexivity.
Qed.

Lemma argument_strings_walk (arg : Node) :
  argument_strings (wk arg) = argument_strings arg.
Proof.
  destruct arg as [ | q [|e es] | | | op l r | | | | | | ];
    try reflexivity.
  destruct r as [ | q [|e es] | | | | | | | | | ]; reflexivity.
Qed.

Lemma class_strings_rewrite_argument (arg : Node) :
  class_strings attrs (rewrite_argument prefix isTw arg)
  = class_strings attrs arg.
Proof.
  destruct arg as [ | q [|e es] | | | op l r | | | | | | ];
    try reflexivity.
  destruct r as [ | q [|e es] | | | | | | | | | ]; reflexivity.
Qed.

Lemma value_strings_walk (value : option Node) :
  value_strings (option_map wk value) = value_strings value.
Proof.
  destruct value as [v|]; [ | reflexivity].
  destruct v as [ | | | | | | | | ex | | ]; try reflexivity.
  destruct ex as [ | q [|e es] | | callee args | | | | | | | ];
    try reflexivity.
  simpl. rewrite is_helper_callee_walk.
  destruct (is_helper_callee callee); [ | reflexivity].
  apply flat_map_same. intros a _. apply argument_strings_walk.
Qed.

(** The visitor rewrites each class string of the value of a target
    attribute, and nothing else among them. *)
Lemma value_strings_visit (name : JSXAttributeName) (value : option Node) :
  isTargetJSXAttribute name attrs = true ->
  value_strings (visit name value) = map rewritten (value_strings value).
Proof.
  intros Ht. unfold visit_JSXAttribute. rewrite Ht. simpl.
  destruct value as [v|]; [ | reflexivity].
  destruct v as [ | | | | | | | | ex | | ]; try reflexivity.
  destruct ex as [ | q [|e es] | | callee args | | | | | | | ];
    try reflexivity.
  simpl. destruct (is_helper_callee callee) eqn:Hh; simpl;
    rewrite ?Hh; [ | reflexivity].
  apply flat_map_through. intros a _. apply argument_strings_rewrite.
Qed.

(** The visitor leaves the class strings of the attributes nested in the
    value as they are. *)
Lemma nested_strings_visit (name : JSXAttributeName) (value : option Node) :
  match visit name value with
  | Some v => class_strings attrs v
  | None => []
  end
  = match value with
    | Some v => class_strings attrs v
    | None => []
    end.
Proof.
  unfold visit_JSXAttribute.
  destruct (isTargetJSXAttribute name attrs); [ | reflexivity]. simpl.
  destruct value as [v|]; [ | reflexivity].
  destruct v as [ | | | | | | | | ex | | ]; try reflexivity.
  destruct ex as [ | q [|e es] | | callee args | | | | | | | ];
    try reflexivity.
  simpl. destruct (is_helper_callee callee); [ | reflexivity].
  simpl. f_equal.
  apply flat_map_same. intros a _. apply class_strings_rewrite_argument.
Qed.

Lemma class_strings_walk_bounded :
  forall k n,
    height n <= k ->
    class_strings attrs (wk n) = map rewritten (class_strings attrs n).
Proof.
  induction k as [|k IH]; intros n Hn.
  - pose proof (height_positive n). lia.
  - assert (Hl : forall ns,
               heights ns <= k ->
               flat_map (class_strings attrs) (map wk ns)
               = map rewritten (flat_map (class_strings attrs) ns)).
    { intros ns Hns. apply flat_map_through. intros x Hx. apply IH.
      now apply (heights_bound ns). }
    destruct n as [v | q es | x | c args | op l r | ps | es | a | e
                   | name value | ty cs];
      simpl in Hn; rewrite ?height_children in Hn; simpl.
    + reflexivity.
    + apply Hl. lia.
    + reflexivity.
    + rewrite map_app, IH, Hl by lia. reflexivity.
    + rewrite map_app, !IH by lia. reflexivity.
    + apply Hl. lia.
    + apply Hl. lia.
    + apply IH. lia.
    + apply IH. lia.
    + change (match value with Some v => Some (wk v) | None => None end)
        with (option_map wk value).
      rewrite map_app. f_equal.
      * destruct (isTargetJSXAttribute name attrs) eqn:Ht; [ | reflexivity].
        now rewrite value_strings_visit, value_strings_walk.
      * rewrite nested_strings_visit.
        destruct value as [v|]; [ | reflexivity].
        simpl. apply IH. simpl in Hn. lia.
    + apply Hl. lia.
Qed.

(** The pass rewrites the class strings of the tree, each by the string
    rewriter, and keeps their number and order. *)
Lemma class_strings_walk (n : Node) :
  class_strings attrs (wk n) = map rewritten (class_strings attrs n).
Proof. now apply (class_strings_walk_bounded (height n)). Qed.

End ClassStrings.

(** ** The pass with the empty prefix *)

Lemma transformClassesInString_empty_prefix (input : string)
  (isTw : Classifier) :
  transformClassesInString input "" isTw = single_spaced input.
Proof.
  unfold transformClassesInString, single_spaced.
  now rewrite rewritten_tokens_empty_prefix.
Qed.

Lemma transformClassesInString_reject_all (input p : string) :
  transformClassesInString input p reject_all = single_spaced input.
Proof.
  unfold transformClassesInString, single_spaced.
  rewrite rewritten_tokens_map. f_equal.
  rewrite <- (map_id (class_tokens input)) at 2.
  apply map_ext. reflexivity.
Qed.

Lemma class_tokens_single_spaced (s : string) :
  class_tokens (single_spaced s) = class_tokens s.
Proof.
  unfold single_spaced. apply class_tokens_join.
  apply class_tokens_are_tokens.
Qed.

Lemma single_spaced_tokens (toks : list string) :
  forallb is_token toks = true -> single_spaced (Js.join " " toks)
                                  = Js.join " " toks.
Proof. intros H. unfold single_spaced. now rewrite class_tokens_join. Qed.

(** Two passes whose string rewriters agree on every string give the same
    tree. *)
Section WalkExt.

Variable attrs : list string.
Variables p1 p2 : string.
Variables c1 c2 : Classifier.
Hypothesis same : forall s,
    transformClassesInString s p1 c1 = transformClassesInString s p2 c2.

Lemma rewrite_argument_ext (arg : Node) :
  rewrite_argument p1 c1 arg = rewrite_argument p2 c2 arg.
Proof.
  destruct arg as [ | q [|e es] | | | op l r | | | | | | ];
    try reflexivity.
  - simpl. now rewrite same.
  - unfold rewrite_argument. rewrite !replace_template_static.
    now rewrite same.
  - rewrite !rewrite_argument_logical.
    destruct r as [ | q [|e es] | | | | | | | | | ]; try reflexivity;
      simpl; now rewrite same.
Qed.

Lemma visit_JSXAttribute_ext (name : JSXAttributeName)
  (value : option Node) :
  visit_JSXAttribute attrs p1 c1 name value
  = visit_JSXAttribute attrs p2 c2 name value.
Proof.
  unfold visit_JSXAttribute.
  destruct (isTargetJSXAttribute name attrs); [ | reflexivity]. simpl.
  destruct value as [v|]; [ | reflexivity].
  destruct v as [ | | | | | | | | ex | | ]; try reflexivity.
  - simpl. now rewrite same.
  - destruct ex as [ | q [|e es] | | callee args | | | | | | | ];
      try reflexivity.
    + simpl. now rewrite same.
    + simpl. destruct (is_helper_callee callee); [ | reflexivity].
      do 3 f_equal. apply map_ext. intros a. apply rewrite_argument_ext.
Qed.

Lemma walk_ext_bounded :
  forall k n, height n <= k -> walk attrs p1 c1 n = walk attrs p2 c2 n.
Proof.
  induction k as [|k IH]; intros n Hn.
  - pose proof (height_positive n). lia.
  - assert (Hl : forall ns, heights ns <= k ->
                            map (walk attrs p1 c1) ns
                            = map (walk attrs p2 c2) ns).
    { intros ns Hns. apply map_ext_in. intros x Hx. apply IH.
      now apply (heights_bound ns). }
    destruct n as [v | q es | x | c args | op l r | ps | es | a | e
                   | name value | ty cs];
      simpl in Hn; rewrite ?height_children in Hn; simpl.
    + reflexivity.
    + rewrite Hl by lia. reflexivity.
    + reflexivity.
    + rewrite IH, Hl by lia. reflexivity.
    + rewrite (IH l), (IH r) by lia. reflexivity.
    + rewrite Hl by lia. reflexivity.
    + rewrite Hl by lia. reflexivity.
    + rewrite IH by lia. reflexivity.
    + rewrite IH by lia. reflexivity.
    + rewrite visit_JSXAttribute_ext. do 2 f_equal.
      destruct value as [v|]; [ | reflexivity].
      f_equal. apply IH. simpl in Hn. lia.
    + rewrite Hl by lia. reflexivity.
Qed.

Lemma walk_ext (n : Node) : walk attrs p1 c1 n = walk attrs p2 c2 n.
Proof. now apply (walk_ext_bounded (height n)). Qed.

End WalkExt.

(** With the empty prefix the pass gives the tree a pass gives in which no
    token is classified, whatever the prefix of that pass: the prefixer
    changes no token of the tree. *)
Lemma walk_empty_prefix (attrs : list string) (isTw : Classifier)
  (p : string) (n : Node) :
  walk attrs "" isTw n = walk attrs p reject_all n.
Proof.
  apply walk_ext. intros s.
  now rewrite transformClassesInString_empty_prefix,
    transformClassesInString_reject_all.
Qed.

(** With the empty prefix the class strings of the tree come out single
    spaced, with the tokens they had. *)
Lemma class_strings_empty_prefix (attrs : list string) (isTw : Classifier)
  (n : Node) :
  class_strings attrs (walk attrs "" isTw n)
  = map single_spaced (class_strings attrs n)
  /\ map class_tokens (class_strings attrs (walk attrs "" isTw n))
     = map class_tokens (class_strings attrs n).
Proof.
  assert (H : class_strings attrs (walk attrs "" isTw n)
              = map single_spaced (class_strings attrs n)).
  { rewrite class_strings_walk. apply map_ext.
    intros s. apply transformClassesInString_empty_prefix. }
  split; [exact H | ].
  rewrite H, map_map. apply map_ext. apply class_tokens_single_spaced.
Qed.

(** C9, amended: with the empty prefix [prefixOneToken] returns every token
    unchanged, so the string rewriter emits the tokens of its input as they
    are, joined by single spaces, whatever the classifier: the result has
    the tokens of the input, and a string that already is a list of tokens
    joined by single spaces is unchanged.  Every eligible node holds the
    single-spaced text afterwards: the string literal that is the value of
    a target attribute; the static template literal in that place, which
    becomes a string literal; and, among the arguments of a helper call, a
    string literal, a static template literal, and the right operand of a
    logical expression that is one of these two.  Over a whole tree the
    pass gives a tree whose class strings are those of the input, in the
    same number and order, single spaced, with the tokens they had. *)
Theorem empty_prefix_keeps_tokens :
  (forall token, prefixOneToken token "" = token)
  /\ (forall input isTw, rewritten_tokens input "" isTw = class_tokens input)
  /\ (forall input isTw,
         transformClassesInString input "" isTw
         = Js.join " " (class_tokens input))
  /\ (forall input isTw,
         class_tokens (transformClassesInString input "" isTw)
         = class_tokens input)
  /\ (forall toks isTw,
         forallb is_token toks = true ->
         transformClassesInString (Js.join " " toks) "" isTw
         = Js.join " " toks)
  /\ (forall attrs isTw name v,
         isTargetJSXAttribute name attrs = true ->
         visit_JSXAttribute attrs "" isTw name (Some (StringLiteral v))
         = Some (StringLiteral (Js.join " " (class_tokens v))))
  /\ (forall attrs isTw name q,
         isTargetJSXAttribute name attrs = true ->
         visit_JSXAttribute attrs "" isTw name
           (Some (JSXExpressionContainer (TemplateLiteral q [])))
         = Some (StringLiteral (single_spaced (template_text q))))
  /\ (forall attrs isTw name callee args,
         isTargetJSXAttribute name attrs = true ->
         is_helper_callee callee = true ->
         visit_JSXAttribute attrs "" isTw name
           (Some (JSXExpressionContainer (CallExpression callee args)))
         = Some (JSXExpressionContainer
                   (CallExpression callee
                      (map (rewrite_argument "" isTw) args))))
  /\ (forall isTw v q op l,
         rewrite_argument "" isTw (StringLiteral v)
         = StringLiteral (single_spaced v)
         /\ rewrite_argument "" isTw (TemplateLiteral q [])
            = StringLiteral (single_spaced (template_text q))
         /\ rewrite_argument "" isTw (LogicalExpression op l (StringLiteral v))
            = LogicalExpression op l (StringLiteral (single_spaced v))
         /\ rewrite_argument "" isTw
              (LogicalExpression op l (TemplateLiteral q []))
            = LogicalExpression op l
                (StringLiteral (single_spaced (template_text q))))
  /\ (forall userOpts ast,
         exists ast',
           rewrite_tree userOpts "" ast = Some ast'
           /\ class_strings (plugin_attrs userOpts) ast'
              = map single_spaced (class_strings (plugin_attrs userOpts) ast)
           /\ map class_tokens (class_strings (plugin_attrs userOpts) ast')
              = map class_tokens
                  (class_strings (plugin_attrs userOpts) ast)).
Proof.
  split; [exact prefixOneToken_empty_prefix | ].
  split; [exact rewritten_tokens_empty_prefix | ].
  split; [exact transformClassesInString_empty_prefix | ].
  split.
  { intros input isTw. rewrite transformClassesInString_empty_prefix.
    apply class_tokens_single_spaced. }
  split.
  { intros toks isTw Hall. rewrite transformClassesInString_empty_prefix.
    now apply single_spaced_tokens. }
  split.
  { intros attrs isTw name v Ht. unfold visit_JSXAttribute.
    rewrite Ht. simpl. now rewrite transformClassesInString_empty_prefix. }
  split.
  { intros attrs isTw name q Ht. unfold visit_JSXAttribute.
    rewrite Ht. simpl. now rewrite transformClassesInString_empty_prefix. }
  split.
  { intros attrs isTw name callee args Ht Hh. unfold visit_JSXAttribute.
    rewrite Ht. simpl. now rewrite Hh. }
  split.
  { intros isTw v q op l. repeat split; simpl;
      unfold replace_template; simpl;
      now rewrite transformClassesInString_empty_prefix. }
  intros userOpts ast.
  exists (walk (plugin_attrs userOpts) "" (opt_field isTwToken userOpts) ast).
  split; [apply rewrite_tree_is_walk | apply class_strings_empty_prefix].
Qed.

Lemma empty_prefix_keeps_tokens_witness :
  transformClassesInString "bg-red-500 MyClass hover:flex" "" None
  = "bg-red-500 MyClass hover:flex"
  /\ visit_JSXAttribute ["className"] "" None (JSXIdentifier "className")
       (Some (StringLiteral " flex   grid "))
     = Some (StringLiteral "flex grid")
  /\ visit_JSXAttribute ["className"] "" None (JSXIdentifier "className")
       (Some (JSXExpressionContainer
                (TemplateLiteral [mkQuasi "flex  grid" (Some "flex  grid")]
                   [])))
     = Some (StringLiteral "flex grid")
  /\ visit_JSXAttribute ["className"] "" None (JSXIdentifier "className")
       (Some (JSXExpressionContainer
                (CallExpression (Identifier "clsx")
                   [StringLiteral "flex  grid"])))
     = Some (JSXExpressionContainer
               (CallExpression (Identifier "clsx")
                  [StringLiteral "flex grid"])).
Proof.
  destruct empty_prefix_keeps_tokens
    as (_ & _ & _ & _ & Hj & Hv & Ht & Hc & _).
  split; [ | split; [ | split]].
  - apply (Hj ["bg-red-500"; "MyClass"; "hover:flex"] None). reflexivity.
  - apply (Hv ["className"] None (JSXIdentifier "className") " flex   grid ").
    reflexivity.
  - apply (Ht ["className"] None (JSXIdentifier "className")
             [mkQuasi "flex  grid" (Some "flex  grid")]).
    reflexivity.
  - apply (Hc ["className"] None (JSXIdentifier "className")
             (Identifier "clsx") [StringLiteral "flex  grid"]);
      reflexivity.
Defined.

(** ** The pass under a classifier that may throw *)

Lemma bind_outcome_if {A B : Type} (b b' : bool) (a : A)
  (k : A -> Outcome B) (c : B) :
  k a = outcome_if b' c ->
  Hook.bind (outcome_if b a) k = outcome_if (b || b') c.
Proof. intros H. now destruct b. Qed.

Lemma existsb_filter {A : Type} (p q : A -> bool) (xs : list A) :
  existsb (fun x => p x && q x) xs = existsb q (filter p xs).
Proof.
  induction xs as [|x xs IH]; simpl; [reflexivity | ].
  rewrite IH. now destruct (p x).
Qed.

Lemma existsb_flat_map {A B : Type} (g : B -> bool) (h : A -> list B)
  (xs : list A) :
  existsb (fun x => existsb g (h x)) xs = existsb g (flat_map h xs).
Proof.
  induction xs as [|x xs IH]; simpl; [reflexivity | ].
  now rewrite existsb_app, IH.
Qed.

Lemma shouldPrefix_outcome (isTw : Hook.Classifier) (tok : string) :
  Hook.shouldPrefix isTw tok
  = outcome_if (throws_on isTw tok) (shouldPrefix (answers isTw) tok).
Proof.
  destruct isTw as [f|]; [ | reflexivity].
  unfold shouldPrefix. simpl. now destruct (f tok).
Qed.

Lemma rewrite_step_outcome (prefix : string) (isTw : Hook.Classifier)
  (out : list string) (tok : string) :
  Hook.rewrite_step prefix isTw out tok
  = outcome_if (negb (Js.is_empty tok) && throws_on isTw tok)
      (rewrite_step prefix (answers isTw) out tok).
Proof.
  unfold Hook.rewrite_step, rewrite_step.
  destruct (Js.is_empty tok); [reflexivity | ].
  rewrite shouldPrefix_outcome. simpl. now destruct (throws_on isTw tok).
Qed.

Lemma for_of_outcome {A S : Type} (body : S -> A -> Outcome S)
  (pure : S -> A -> S) (t : A -> bool) (xs : list A) :
  (forall s x, body s x = outcome_if (t x) (pure s x)) ->
  forall s,
    Hook.for_of body xs s = outcome_if (existsb t xs) (fold_left pure xs s).
Proof.
  intros H. induction xs as [|x xs IH]; intros s; simpl; [reflexivity | ].
  rewrite H. apply bind_outcome_if. apply IH.
Qed.

(** The string rewriter under a classifier that may throw: an exception
    exactly when the classifier throws on a token of the string, and
    otherwise the string the rewriter gives under the answers of the
    classifier. *)
Lemma transformClassesInString_outcome (input prefix : string)
  (isTw : Hook.Classifier) :
  Hook.transformClassesInString input prefix isTw
  = outcome_if (string_throws isTw input)
      (transformClassesInString input prefix (answers isTw)).
Proof.
  unfold Hook.transformClassesInString, Hook.rewritten_tokens.
  rewrite (for_of_outcome _ (rewrite_step prefix (answers isTw))
             (fun tok => negb (Js.is_empty tok) && throws_on isTw tok));
    [ | intros s x; apply rewrite_step_outcome].
  unfold string_throws, class_tokens. rewrite <- existsb_filter.
  now destruct (existsb _ (Js.split_ws input)).
Qed.

Lemma existsb_one {A : Type} (g : A -> bool) (x : A) :
  existsb g [x] = g x.
Proof. simpl. apply orb_false_r. Qed.

Lemma rewrite_argument_outcome (prefix : string) (isTw : Hook.Classifier)
  (arg : Node) :
  Hook.rewrite_argument prefix isTw arg
  = outcome_if (existsb (string_throws isTw) (argument_strings arg))
      (rewrite_argument prefix (answers isTw) arg).
Proof.
  destruct arg as [v | q [|e es] | | | op l r | | | | | | ];
    try reflexivity.
  - simpl argument_strings. rewrite existsb_one. simpl.
    rewrite transformClassesInString_outcome.
    now destruct (string_throws isTw v).
  - simpl argument_strings. rewrite existsb_one.
    unfold Hook.rewrite_argument, Hook.replace_template. simpl.
    rewrite transformClassesInString_outcome.
    unfold template_text. now destruct (string_throws isTw _).
  - destruct r as [v | q [|e es] | | | | | | | | | ]; try reflexivity.
    + simpl argument_strings. rewrite existsb_one. simpl.
      rewrite transformClassesInString_outcome.
    now destruct (string_throws isTw v).
    + simpl argument_strings. rewrite existsb_one.
      unfold Hook.rewrite_argument, Hook.replace_template. simpl.
      rewrite transformClassesInString_outcome.
      unfold template_text. now destruct (string_throws isTw _).
Qed.

Lemma each_outcome {A B : Type} (F : A -> Outcome B) (f : A -> B)
  (t : A -> bool) (xs : list A) :
  (forall x, F x = outcome_if (t x) (f x)) ->
  Hook.each F xs = outcome_if (existsb t xs) (map f xs).
Proof.
  intros H. induction xs as [|x xs IH]; simpl; [reflexivity | ].
  rewrite H, IH. now destruct (t x), (existsb t xs).
Qed.

(** The visitor under a classifier that may throw: an exception exactly
    when the attribute is a target and the classifier throws on a token of
    one of the class strings of its value, and otherwise the value the
    visitor gives under the answers of the classifier. *)
Lemma visit_JSXAttribute_outcome (attrs : list string) (prefix : string)
  (isTw : Hook.Classifier) (name : JSXAttributeName) (value : option Node) :
  Hook.visit_JSXAttribute attrs prefix isTw name value
  = outcome_if
      (isTargetJSXAttribute name attrs
       && existsb (string_throws isTw) (value_strings value))
      (visit_JSXAttribute attrs prefix (answers isTw) name value).
Proof.
  unfold Hook.visit_JSXAttribute, visit_JSXAttribute.
  destruct (isTargetJSXAttribute name attrs); [ | reflexivity]. simpl.
  destruct value as [v|]; [ | reflexivity].
  destruct v as [s | | | | | | | | ex | | ]; try reflexivity.
  - simpl. rewrite transformClassesInString_outcome, orb_false_r.
    now destruct (string_throws isTw s).
  - destruct ex as [ | q [|e es] | | callee args | | | | | | | ];
      try reflexivity.
    + simpl. rewrite transformClassesInString_outcome, orb_false_r.
      unfold template_text. now destruct (string_throws isTw _).
    + simpl. destruct (is_helper_callee callee); [ | reflexivity].
      rewrite (each_outcome _ (rewrite_argument prefix (answers isTw))
                 (fun a => existsb (string_throws isTw) (argument_strings a)));
        [ | intros a; apply rewrite_argument_outcome].
      rewrite existsb_flat_map.
      now destruct (existsb (string_throws isTw)
                      (flat_map argument_strings args)).
Qed.

Lemma walk_list_outcome {A B : Type} (F : A -> option (Outcome B))
  (f : A -> B) (t : A -> bool) (xs : list A) :
  (forall x, In x xs -> F x = Some (outcome_if (t x) (f x))) ->
  Hook.walk_list F xs = Some (outcome_if (existsb t xs) (map f xs)).
Proof.
  induction xs as [|x xs IH]; intros H; simpl; [reflexivity | ].
  rewrite (H x (or_introl eq_refl)), IH by (intros z Hz; apply H; now right).
  now destruct (t x), (existsb t xs).
Qed.

(** The walk of the hook, with fuel for the height of the tree: an
    exception exactly when the classifier throws on a token of a class
    string of the tree, and otherwise the tree the pass gives under the
    answers of the classifier. *)
Lemma traverse_fuel_outcome (attrs : list string) (prefix : string)
  (isTw : Hook.Classifier) :
  forall fuel n,
    height n <= fuel ->
    Hook.traverse_fuel fuel (Hook.visit_JSXAttribute attrs prefix isTw) n
    = Some (outcome_if (tree_throws attrs isTw n)
              (walk attrs prefix (answers isTw) n)).
Proof.
  unfold tree_throws.
  induction fuel as [|fuel IH]; intros n Hn.
  - pose proof (height_positive n). lia.
  - assert (Hl : forall ns,
               heights ns <= fuel ->
               Hook.walk_list
                 (Hook.traverse_fuel fuel
                    (Hook.visit_JSXAttribute attrs prefix isTw)) ns
               = Some (outcome_if
                         (existsb (string_throws isTw)
                            (flat_map (class_strings attrs) ns))
                         (map (walk attrs prefix (answers isTw)) ns))).
    { intros ns Hns. rewrite <- existsb_flat_map.
      apply walk_list_outcome. intros x Hx. apply IH.
      now apply (heights_bound ns). }
    destruct n as [v | q es | x | c args | op l r | ps | es | a | e
                   | name value | ty cs];
      simpl in Hn; rewrite ?height_children in Hn; simpl.
    + reflexivity.
    + rewrite Hl by lia. now destruct (existsb _ _).
    + reflexivity.
    + rewrite IH, Hl, existsb_app by lia.
      now destruct (existsb _ (class_strings attrs c)), (existsb _ _).
    + rewrite (IH l), (IH r), existsb_app by lia.
      now destruct (existsb _ (class_strings attrs l)), (existsb _ _).
    + rewrite Hl by lia. now destruct (existsb _ _).
    + rewrite Hl by lia. now destruct (existsb _ _).
    + rewrite IH by lia. now destruct (existsb _ _).
    + rewrite IH by lia. now destruct (existsb _ _).
    + rewrite visit_JSXAttribute_outcome, existsb_app.
      change (match value with
              | Some v => Some (walk attrs prefix (answers isTw) v)
              | None => None
              end)
        with (option_map (walk attrs prefix (answers isTw)) value).
      rewrite <- visit_walk_commute.
      rewrite <- (nested_strings_visit attrs prefix (answers isTw) name value).
      pose proof (visit_JSXAttribute_height attrs prefix (answers isTw)
                    name value) as Hh.
      destruct (isTargetJSXAttribute name attrs); simpl.
      * destruct (existsb (string_throws isTw) (value_strings value));
          [reflexivity | ]. simpl.
        destruct (visit_JSXAttribute attrs prefix (answers isTw) name value)
          as [v|]; [ | reflexivity].
        rewrite IH; [now destruct (existsb _ _) | ].
        simpl in Hh. destruct value as [v0|]; simpl in Hh, Hn;
          [lia | pose proof (height_positive v); lia].
      * destruct (visit_JSXAttribute attrs prefix (answers isTw) name value)
          as [v|]; [ | reflexivity].
        rewrite IH; [now destruct (existsb _ _) | ].
        simpl in Hh. destruct value as [v0|]; simpl in Hh, Hn;
          [lia | pose proof (height_positive v); lia].
    + rewrite Hl by lia. now destruct (existsb _ _).
Qed.

(** The tree pass of the hook always ends: with an exception exactly when
    the classifier throws on a token of a class string of the tree, and
    otherwise with the tree the pass gives under the answers of the
    classifier. *)
Lemma hook_rewrite_tree_outcome {World : Type}
  (userOpts : option (Hook.Options World)) (prefix : string) (ast : Node) :
  Hook.rewrite_tree userOpts prefix ast
  = Some (outcome_if
            (tree_throws (plugin_attrs userOpts)
               (opt_field isTwToken userOpts) ast)
            (walk (plugin_attrs userOpts) prefix
               (answers (opt_field isTwToken userOpts)) ast)).
Proof.
  unfold Hook.rewrite_tree, Hook.traverse. now apply traverse_fuel_outcome.
Qed.

Lemma answers_returning (isTw : Classifier) : answers (returning isTw) = isTw.
Proof. now destruct isTw. Qed.

Lemma existsb_never {A : Type} (g : A -> bool) (xs : list A) :
  (forall x, g x = false) -> existsb g xs = false.
Proof.
  intros H. induction xs as [|x xs IH]; simpl; [reflexivity | ].
  now rewrite H, IH.
Qed.

(** A classifier that returns never makes the pass throw, and neither does
    the default classifier. *)
Lemma tree_throws_returning (attrs : list string) (isTw : Classifier)
  (n : Node) :
  tree_throws attrs (returning isTw) n = false.
Proof.
  apply existsb_never. intros s. apply existsb_never. intros tok.
  now destruct isTw.
Qed.

(** The outcome of [transform], by the outcome of the filter and of the
    parser. *)
Lemma hook_transform_cases {World : Type}
  (parse : string -> option Node) (generate : Node -> string -> string)
  (userOpts : option (Hook.Options World)) (st : PluginState)
  (code id : string) (w : World) :
  let prefix := Js.nullish (cachedPrefix st) "" in
  let run := Hook.transform parse generate userOpts st code id w in
  match Hook.plugin_filter userOpts id w with
  | (Thrown, w') => run = (Hook.Failed Hook.FilterThrew, w')
  | (Returned false, w') => run = (Hook.Skipped, w')
  | (Returned true, w') =>
      match parse code with
      | None => run = (Hook.Failed Hook.ParserThrew, w')
      | Some ast =>
          let ast' := walk (plugin_attrs userOpts) prefix
                        (answers (opt_field isTwToken userOpts)) ast in
          run = (if tree_throws (plugin_attrs userOpts)
                      (opt_field isTwToken userOpts) ast
                 then Hook.Failed Hook.ClassifierThrew
                 else Hook.Generated (generate ast' code), w')
      end
  end.
Proof.
  intros prefix run. unfold run, Hook.transform.
  destruct (Hook.plugin_filter userOpts id w) as [[[|]|] w'];
    try reflexivity.
  destruct (parse code) as [ast|]; [ | reflexivity].
  fold prefix. rewrite hook_rewrite_tree_outcome.
  now destruct (tree_throws _ _ ast).
Qed.

(** A matcher that returns and keeps no state is, for the hooks, the
    function it is: the filter of the hooks then gives what [makeFilter]
    gives above, and leaves the state as it is. *)
Lemma run_matcher_lift {World : Type} (m : Matcher) (id : string) (w : World) :
  Hook.run_matcher (lift_matcher m) id w = (Returned (run_matcher m id), w).
Proof. now destruct m. Qed.

Lemma makeFilter_lift {World : Type} (o : TailwindPrefixPluginOpts)
  (id : string) (w : World) :
  Hook.makeFilter (lift_opts o) id w = (Returned (makeFilter o id), w).
Proof.
  unfold Hook.makeFilter, makeFilter, lift_opts. simpl.
  destruct (include o) as [i|], (exclude o) as [e|]; simpl;
    rewrite ?run_matcher_lift; reflexivity.
Qed.

(** The state of a regular expression with the g flag shows in the hook:
    with [/\.tsx$/g] as [include], a file that has just been transformed is
    skipped when it comes again, and transformed the time after. *)
Example transform_with_global_regexp :
  let st := buildStart tsx_global_opts initial_state in
  Hook.transform toy_parse toy_generate tsx_global_opts st "flex" "App.tsx" 0
  = (Hook.Generated "tw-flex", 7)
  /\ Hook.transform toy_parse toy_generate tsx_global_opts st "flex" "App.tsx" 7
     = (Hook.Skipped, 0).
Proof. split; reflexivity. Qed.

(** An exception of the classifier ends [transform]. *)
Example transform_with_throwing_classifier :
  let userOpts : option (Hook.Options unit) :=
    Some {| tailwindConfig := None; prefixOverride := Some "tw-";
            attributes := None; include := None; exclude := None;
            isTwToken := Some strict_classifier |} in
  let st := buildStart userOpts initial_state in
  Hook.transform toy_parse toy_generate userOpts st "flex p-4" "App.tsx" tt
  = (Hook.Generated "tw-flex tw-p-4", tt)
  /\ Hook.transform toy_parse toy_generate userOpts st "flex Card" "App.tsx" tt
     = (Hook.Failed Hook.ClassifierThrew, tt).
Proof. split; reflexivity. Qed.

(** C10: when [prefixOverride] is not supplied, [buildStart] caches the
    empty prefix; neither [buildStart] nor [transform] depends on
    [tailwindConfig]; and every [transform] that follows runs the tree pass
    with the empty prefix.  That pass ends, with a tree unless the
    classifier throws on a token of the tree; the class strings of the tree
    are those of the input, single spaced, with the tokens they had, and
    the tree is the one a pass gives in which no token is classified: no
    token is prefixed.  So whenever such a [transform] returns code, it is
    the code printed for a tree with the tokens of the input; and it does
    return code when the filter accepts the file, the code parses and the
    classifier does not throw.  The same holds of the tree pass for options
    whose callbacks return. *)
Theorem buildStart_without_override
  (World : Type) (userOpts : option (Hook.Options World))
  (st : PluginState) :
  opt_field prefixOverride userOpts = None ->
  let attrs := plugin_attrs userOpts in
  let isTw := opt_field isTwToken userOpts in
  let prefix := Js.nullish (cachedPrefix (buildStart userOpts st)) "" in
  cachedPrefix (buildStart userOpts st) = Some ""
  /\ (forall (o : Hook.Options World) cfg st',
         buildStart (Some (with_tailwindConfig o cfg)) st'
         = buildStart (Some o) st')
  /\ (forall parse generate (o : Hook.Options World) cfg st' code id w,
         Hook.transform parse generate (Some (with_tailwindConfig o cfg))
           st' code id w
         = Hook.transform parse generate (Some o) st' code id w)
  /\ (forall ast,
         exists ast',
           Hook.rewrite_tree userOpts prefix ast
           = Some (outcome_if (tree_throws attrs isTw ast) ast')
           /\ (forall p,
                  traverse (visit_JSXAttribute attrs p reject_all) ast
                  = Some ast')
           /\ class_strings attrs ast'
              = map single_spaced (class_strings attrs ast)
           /\ map class_tokens (class_strings attrs ast')
              = map class_tokens (class_strings attrs ast))
  /\ (forall parse generate code id w out w',
         Hook.transform parse generate userOpts (buildStart userOpts st)
           code id w
         = (Hook.Generated out, w') ->
         exists ast ast',
           parse code = Some ast
           /\ Hook.rewrite_tree userOpts prefix ast = Some (Returned ast')
           /\ out = generate ast' code
           /\ map class_tokens (class_strings attrs ast')
              = map class_tokens (class_strings attrs ast))
  /\ (forall parse generate code id w w' ast,
         Hook.plugin_filter userOpts id w = (Returned true, w') ->
         parse code = Some ast ->
         tree_throws attrs isTw ast = false ->
         exists ast',
           Hook.rewrite_tree userOpts prefix ast = Some (Returned ast')
           /\ Hook.transform parse generate userOpts (buildStart userOpts st)
                code id w
              = (Hook.Generated (generate ast' code), w'))
  /\ (forall (o : option TailwindPrefixPluginOpts) ast,
         exists ast',
           rewrite_tree o prefix ast = Some ast'
           /\ class_strings (plugin_attrs o) ast'
              = map single_spaced (class_strings (plugin_attrs o) ast)
           /\ map class_tokens (class_strings (plugin_attrs o) ast')
              = map class_tokens (class_strings (plugin_attrs o) ast))
  /\ (forall input isTw',
         rewritten_tokens input prefix isTw' = class_tokens input).
Proof.
  intros Hno attrs isTw prefix.
  assert (Hc : cachedPrefix (buildStart userOpts st) = Some "").
  { unfold buildStart. simpl. now rewrite Hno. }
  assert (Hp : prefix = "") by (unfold prefix; now rewrite Hc).
  clearbody prefix. subst prefix.
  split; [exact Hc | ].
  split; [reflexivity | ].
  split; [reflexivity | ].
  split.
  { intros ast. exists (walk attrs "" (answers isTw) ast).
    destruct (class_strings_empty_prefix attrs (answers isTw) ast) as [H1 H2].
    repeat split; [apply hook_rewrite_tree_outcome | | exact H1 | exact H2].
    intros p. rewrite traverse_is_walk. f_equal.
    symmetry. apply walk_empty_prefix. }
  split.
  { intros parse generate code id w out w' H.
    pose proof (hook_transform_cases parse generate userOpts
                  (buildStart userOpts st) code id w) as Hcases.
    cbv zeta in Hcases. rewrite Hc in Hcases. simpl Js.nullish in Hcases.
    rewrite H in Hcases.
    destruct (Hook.plugin_filter userOpts id w) as [[[|]|] w1];
      try discriminate.
    destruct (parse code) as [ast|]; [ | discriminate].
    fold attrs isTw in Hcases.
    pose proof (hook_rewrite_tree_outcome userOpts "" ast) as Hrw.
    fold attrs isTw in Hrw.
    destruct (tree_throws attrs isTw ast); [discriminate | ].
    injection Hcases as -> ->.
    exists ast, (walk attrs "" (answers isTw) ast).
    repeat split; [exact Hrw | ]. apply class_strings_empty_prefix. }
  split.
  { intros parse generate code id w w' ast Hf Hp Hnt.
    pose proof (hook_transform_cases parse generate userOpts
                  (buildStart userOpts st) code id w) as Hcases.
    cbv zeta in Hcases. rewrite Hc in Hcases. simpl Js.nullish in Hcases.
    rewrite Hf, Hp in Hcases. fold attrs isTw in Hcases.
    pose proof (hook_rewrite_tree_outcome userOpts "" ast) as Hrw.
    fold attrs isTw in Hrw. rewrite Hnt in Hcases, Hrw. eauto. }
  split.
  { intros o ast.
    exists (walk (plugin_attrs o) "" (opt_field isTwToken o) ast).
    split; [apply rewrite_tree_is_walk | apply class_strings_empty_prefix]. }
  intros input isTw'. apply rewritten_tokens_empty_prefix.
Qed.

Lemma buildStart_without_override_witness :
  let userOpts : option (Hook.Options unit) :=
    Some (with_tailwindConfig Hook.empty_opts (Some "tailwind.config.ts")) in
  cachedPrefix (buildStart userOpts initial_state) = Some ""
  /\ exists ast',
       Hook.rewrite_tree userOpts ""
         (element_with_class "bg-red-500  text-white")
       = Some (Returned ast')
       /\ Hook.transform toy_parse toy_generate userOpts
            (buildStart userOpts initial_state)
            "bg-red-500  text-white" "App.tsx" tt
          = (Hook.Generated
               (toy_generate ast' "bg-red-500  text-white"), tt).
Proof.
  intros userOpts.
  pose proof (buildStart_without_override unit userOpts initial_state eq_refl)
    as (H1 & _ & _ & _ & _ & H6 & _).
  split; [exact H1 | ].
  apply (H6 toy_parse toy_generate "bg-red-500  text-white" "App.tsx" tt tt
           (element_with_class "bg-red-500  text-white"));
    reflexivity.
Defined.

(** X4: when the cached prefix has no colon, quote and white space and does
    not start with the important marker, and the parser reads the text
    printed for the rewritten tree back as that tree, which the printer
    prints the same way again, a run of [transform] on its own output never
    gives other code: when the filter accepts the file again, it gives that
    output again unless the classifier throws on a token of the rewritten
    tree; otherwise the file is skipped or the filter throws.  The filter
    may well say something else the second time: it is asked in the state
    its matchers are in by then. *)
Theorem transform_twice_plain
  (World : Type) (parse : string -> option Node)
  (generate : Node -> string -> string)
  (userOpts : option (Hook.Options World)) (st : PluginState)
  (code id out : string) (w w1 : World) :
  plain_prefix (Js.nullish (cachedPrefix st) "") = true ->
  Js.all_chars not_space (Js.nullish (cachedPrefix st) "") = true ->
  (forall ast ast',
      parse code = Some ast ->
      Hook.rewrite_tree userOpts (Js.nullish (cachedPrefix st) "") ast
      = Some (Returned ast') ->
      parse (generate ast' code) = Some ast'
      /\ generate ast' (generate ast' code) = generate ast' code) ->
  Hook.transform parse generate userOpts st code id w
  = (Hook.Generated out, w1) ->
  (forall w2 r w3,
      Hook.transform parse generate userOpts st out id w2 = (r, w3) ->
      r = Hook.Generated out
      \/ r = Hook.Skipped
      \/ r = Hook.Failed Hook.FilterThrew
      \/ r = Hook.Failed Hook.ClassifierThrew)
  /\ (forall w2 w3,
         Hook.plugin_filter userOpts id w2 = (Returned true, w3) ->
         exists ast',
           parse out = Some ast'
           /\ Hook.transform parse generate userOpts st out id w2
              = (if tree_throws (plugin_attrs userOpts)
                      (opt_field isTwToken userOpts) ast'
                 then Hook.Failed Hook.ClassifierThrew
                 else Hook.Generated out, w3)).
Proof.
  intros Hplain Hws Hround Hfirst.
  set (prefix := Js.nullish (cachedPrefix st) "") in *.
  set (attrs := plugin_attrs userOpts).
  set (isTw := opt_field isTwToken userOpts).
  assert (Hout : exists ast',
             parse out = Some ast'
             /\ generate ast' out = out
             /\ walk attrs prefix (answers isTw) ast' = ast').
  { pose proof (hook_transform_cases parse generate userOpts st code id w)
      as Hcases.
    cbv zeta in Hcases. fold prefix attrs isTw in Hcases.
    rewrite Hfirst in Hcases.
    destruct (Hook.plugin_filter userOpts id w) as [[[|]|] w'];
      try discriminate.
    destruct (parse code) as [ast|] eqn:Hp; [ | discriminate].
    pose proof (hook_rewrite_tree_outcome userOpts prefix ast) as Hrw.
    fold attrs isTw in Hrw.
    destruct (tree_throws attrs isTw ast); [discriminate | ].
    injection Hcases as -> ->.
    destruct (Hround ast _ eq_refl Hrw) as [Hback Hsame].
    exists (walk attrs prefix (answers isTw) ast).
    repeat split; [exact Hback | exact Hsame | ].
    now apply walk_idempotent. }
  destruct Hout as (ast' & Hback & Hsame & Hidem).
  assert (Hsecond : forall w2,
             match Hook.plugin_filter userOpts id w2 with
             | (Thrown, w3) =>
                 Hook.transform parse generate userOpts st out id w2
                 = (Hook.Failed Hook.FilterThrew, w3)
             | (Returned false, w3) =>
                 Hook.transform parse generate userOpts st out id w2
                 = (Hook.Skipped, w3)
             | (Returned true, w3) =>
                 Hook.transform parse generate userOpts st out id w2
                 = (if tree_throws attrs isTw ast'
                    then Hook.Failed Hook.ClassifierThrew
                    else Hook.Generated out, w3)
             end).
  { intros w2.
    pose proof (hook_transform_cases parse generate userOpts st out id w2)
      as Hcases.
    cbv zeta in Hcases. fold prefix attrs isTw in Hcases.
    destruct (Hook.plugin_filter userOpts id w2) as [[[|]|] w3];
      try exact Hcases.
    now rewrite Hback, Hidem, Hsame in Hcases. }
  split.
  - intros w2 r w3 Hrun. specialize (Hsecond w2).
    destruct (Hook.plugin_filter userOpts id w2) as [[[|]|] w4];
      rewrite Hsecond in Hrun; injection Hrun as <- _; try tauto.
    destruct (tree_throws attrs isTw ast'); tauto.
  - intros w2 w3 Hf. specialize (Hsecond w2). rewrite Hf in Hsecond.
    exists ast'. now split.
Qed.

Lemma transform_twice_plain_witness :
  let userOpts : option (Hook.Options unit) :=
    option_map lift_opts (prefix_opts "tw-") in
  exists ast',
    toy_parse "tw-flex tw-p-4" = Some ast'
    /\ Hook.transform toy_parse toy_generate userOpts
         (buildStart userOpts initial_state) "tw-flex tw-p-4" "App.tsx" tt
       = (if tree_throws (plugin_attrs userOpts)
               (opt_field isTwToken userOpts) ast'
          then Hook.Failed Hook.ClassifierThrew
          else Hook.Generated "tw-flex tw-p-4", tt).
Proof.
  intros userOpts.
  destruct (transform_twice_plain unit toy_parse toy_generate userOpts
              (buildStart userOpts initial_state)
              "flex  p-4" "App.tsx" "tw-flex tw-p-4" tt tt) as [_ H].
  - reflexivity.
  - reflexivity.
  - intros ast ast' Hp Hr. injection Hp as <-.
    vm_compute in Hr. injection Hr as <-. split; reflexivity.
  - reflexivity.
  - apply (H tt tt). reflexivity.
Defined.

(** The end-to-end scenarios A to E of the specification, on the tree: two
    string attributes, an already prefixed one, a static template literal,
    and a helper call with a logical argument. *)
Theorem end_to_end_scenarios :
  rewrite_tree (prefix_opts "tw-") "tw-"
    (element_with_class "bg-red-500 text-white")
  = Some (element_with_class "tw-bg-red-500 tw-text-white")
  /\ rewrite_tree (prefix_opts "tw-") "tw-"
       (JSXAttribute (JSXIdentifier "class")
          (Some (StringLiteral "flex items-center")))
     = Some (JSXAttribute (JSXIdentifier "class")
               (Some (StringLiteral "tw-flex tw-items-center")))
  /\ rewrite_tree (prefix_opts "tw-") "tw-"
       (element_with_class "tw-bg-blue-500 tw-bg-red-500")
     = Some (element_with_class "tw-bg-blue-500 tw-bg-red-500")
  /\ rewrite_tree (prefix_opts "tw-") "tw-"
       (JSXAttribute (JSXIdentifier "className")
          (Some (JSXExpressionContainer
                   (TemplateLiteral
                      [mkQuasi "bg-red-500 text-white"
                         (Some "bg-red-500 text-white")] []))))
     = Some (JSXAttribute (JSXIdentifier "className")
               (Some (StringLiteral "tw-bg-red-500 tw-text-white")))
  /\ rewrite_tree (prefix_opts "tw-") "tw-"
       (JSXAttribute (JSXIdentifier "className")
          (Some (JSXExpressionContainer
                   (CallExpression (Identifier "clsx")
                      [StringLiteral "bg-red-500";
                       LogicalExpression LogicalAnd (Identifier "cond")
                         (StringLiteral "text-white")]))))
     = Some (JSXAttribute (JSXIdentifier "className")
               (Some (JSXExpressionContainer
                        (CallExpression (Identifier "clsx")
                           [StringLiteral "tw-bg-red-500";
                            LogicalExpression LogicalAnd (Identifier "cond")
                              (StringLiteral "tw-text-white")])))).
Proof. repeat split. Qed.

(** ** Idempotence on plain prefixes *)

(** X1: for every token and every prefix without colon and quote that does
    not start with the important marker, [prefixOneToken] applied to its
    own result gives that result again. *)
Theorem prefixOneToken_idempotent_plain (token p : string) :
  plain_prefix p = true ->
  prefixOneToken (prefixOneToken token p) p = prefixOneToken token p.
Proof. apply prefixOneToken_twice. Qed.

Lemma prefixOneToken_idempotent_plain_witness :
  prefixOneToken (prefixOneToken "data-[state=open]:hover:bg-red-500" "tw-") "tw-"
  = prefixOneToken "data-[state=open]:hover:bg-red-500" "tw-".
Proof.
  apply (prefixOneToken_idempotent_plain
           "data-[state=open]:hover:bg-red-500" "tw-").
  reflexivity.
Defined.





(** ** The splitter on variants, groups and plain tokens *)

Lemma slength_app (a b : string) :
  String.length (a ++ b) = String.length a + String.length b.
Proof. induction a as [|c a IH]; simpl; [reflexivity | now rewrite IH]. Qed.

Lemma sapp_snoc_neq (s : string) (c : ascii) : (s ++ String c "")%string <> s.
Proof.
  intros E. apply (f_equal String.length) in E.
  rewrite slength_app in E. simpl in E. lia.
Qed.

Lemma split_step_with_parts (before : list string) (prev : option ascii)
  (ch : ascii) (st : SplitState) :
  split_step prev ch (with_parts_before before st)
  = with_parts_before before (split_step prev ch st).
Proof.
  unfold split_step, with_parts_before. simpl.
  destruct (quote st); simpl; [reflexivity | ].
  destruct (is_quote_char ch); simpl; [reflexivity | ].
  destruct (Ascii.eqb ch "["); simpl; [reflexivity | ].
  destruct (Ascii.eqb ch "]"); simpl; [reflexivity | ].
  destruct (Ascii.eqb ch ":" && (depth st =? 0)%Z); simpl;
    [now rewrite app_assoc | reflexivity].
Qed.

Lemma split_loop_with_parts (before : list string) (t : string) :
  forall prev st,
    split_loop prev t (with_parts_before before st)
    = with_parts_before before (split_loop prev t st).
Proof.
  induction t as [|c t IH]; intros prev st; [reflexivity | ].
  simpl. now rewrite split_step_with_parts, IH.
Qed.

(** Outside quotes the loop does not depend on the character read before
    the rest. *)
Lemma split_loop_prev (prev prev' : option ascii) (t : string)
  (st : SplitState) :
  quote st = None -> split_loop prev t st = split_loop prev' t st.
Proof.
  intros Hq. destruct t as [|c t]; [reflexivity | ].
  simpl. f_equal. unfold split_step. now rewrite Hq.
Qed.

(** A variant [v] that [splitVariants] cuts off at the colon after it has
    been read outside quotes and brackets, as one buffer. *)
Lemma variant_scan (v : string) :
  splitVariants (v ++ ":") = [v] ->
  scan v = {| parts := []; buf := v; depth := 0%Z; quote := None |}.
Proof.
  unfold splitVariants. rewrite (scan_fold (v ++ ":")), split_loop_app.
  rewrite <- scan_fold. simpl split_loop.
  pose proof (scan_rejoin v) as Hre. unfold rejoin in Hre.
  destruct (scan v) as [ps b d q] eqn:Est. simpl in Hre.
  unfold split_step, split_finish. simpl.
  assert (Hpush : (ps ++ [Js.push_char b ":"])%list = [v] -> False).
  { intros E. destruct ps as [|p ps].
    - simpl in *. injection E as E. subst b. now apply (sapp_snoc_neq v ":"%char).
    - apply (f_equal (@List.length string)) in E.
      rewrite length_app in E. simpl in E. lia. }
  assert (Hne : forall x, Js.is_empty (Js.push_char x ":") = false)
    by (intros x; unfold Js.push_char; rewrite is_empty_app; simpl;
        apply andb_false_r).
  destruct q as [q|]; simpl.
  - rewrite Hne. intros E. now elim Hpush.
  - destruct (d =? 0)%Z eqn:Ed; simpl.
    + apply Z.eqb_eq in Ed. subst d. intros E.
      destruct ps as [|p ps].
      * simpl in E. injection E as ->. reflexivity.
      * apply (f_equal (@List.length string)) in E.
        rewrite length_app in E. simpl in E. lia.
    + rewrite Hne. intros E. now elim Hpush.
Qed.

(** Splitting goes through a variant in front: the segments are the
    variant and the segments of the rest. *)
Lemma splitVariants_variant (v t : string) :
  splitVariants (v ++ ":") = [v] ->
  splitVariants (v ++ ":" ++ t) = v :: splitVariants t.
Proof.
  intros Hv. pose proof (variant_scan v Hv) as Hs.
  unfold splitVariants. rewrite (scan_fold (v ++ ":" ++ t)), split_loop_app.
  rewrite <- scan_fold, Hs.
  change (":" ++ t)%string with (String ":" t). simpl split_loop.
  change (split_step (prev_after None v) ":"
            {| parts := []; buf := v; depth := 0%Z; quote := None |})
    with (with_parts_before [v] split_init).
  rewrite split_loop_with_parts.
  rewrite (split_loop_prev (Some ":"%char) None) by reflexivity.
  rewrite <- scan_fold.
  unfold split_finish, with_parts_before. simpl.
  now destruct (Js.is_empty (buf (scan t))).
Qed.

Lemma splitVariants_nonempty (t : string) :
  t <> "" -> splitVariants t <> [].
Proof.
  intros Ht E.
  destruct (splitVariants_join t) as [Hj | [_ Hj]]; rewrite E in Hj.
  - simpl in Hj. now subst t.
  - simpl in Hj. subst t. discriminate E.
Qed.

(** Without a colon nothing is split off. *)
Lemma split_loop_no_colon (t : string) :
  forall prev st,
    Js.all_chars not_colon t = true ->
    parts (split_loop prev t st) = parts st
    /\ buf (split_loop prev t st) = (buf st ++ t)%string.
Proof.
  induction t as [|c t IH]; intros prev st Ht; simpl.
  - now rewrite sapp_nil_r.
  - simpl in Ht. apply andb_true_iff in Ht as [Hc Ht].
    unfold not_colon in Hc. apply negb_true_iff in Hc.
    destruct (IH (Some c) (split_step prev c st) Ht) as [Hp Hb].
    rewrite Hp, Hb. unfold split_step.
    destruct (quote st); simpl;
      [unfold Js.push_char; now rewrite <- sapp_assoc | ].
    destruct (is_quote_char c); simpl;
      [unfold Js.push_char; now rewrite <- sapp_assoc | ].
    destruct (Ascii.eqb c "["); simpl;
      [unfold Js.push_char; now rewrite <- sapp_assoc | ].
    destruct (Ascii.eqb c "]"); simpl;
      [unfold Js.push_char; now rewrite <- sapp_assoc | ].
    rewrite Hc. simpl. unfold Js.push_char. now rewrite <- sapp_assoc.
Qed.

Lemma splitVariants_no_colon (t : string) :
  Js.all_chars not_colon t = true ->
  splitVariants t = if Js.is_empty t then [] else [t].
Proof.
  intros Ht. unfold splitVariants, split_finish. rewrite scan_fold.
  destruct (split_loop_no_colon t None split_init Ht) as [Hp Hb].
  rewrite Hp, Hb. reflexivity.
Qed.

(** Inside brackets, characters that are no bracket and no quote all go to
    the buffer and leave the depth as it is. *)
Lemma split_loop_inside_brackets (mid : string) :
  forall prev st,
    quote st = None ->
    (0 < depth st)%Z ->
    Js.all_chars no_bracket_or_quote mid = true ->
    split_loop prev mid st
    = {| parts := parts st; buf := (buf st ++ mid)%string;
         depth := depth st; quote := None |}.
Proof.
  induction mid as [|c mid IH]; intros prev st Hq Hd Hm; simpl.
  - rewrite sapp_nil_r. destruct st; simpl in *. now subst.
  - simpl in Hm. apply andb_true_iff in Hm as [Hc Hm].
    unfold no_bracket_or_quote in Hc.
    apply andb_true_iff in Hc as [Hc Hquote].
    apply andb_true_iff in Hc as [Hopen Hclose].
    apply negb_true_iff in Hopen, Hclose, Hquote.
    assert (Hs : split_step prev c st
                 = {| parts := parts st; buf := Js.push_char (buf st) c;
                      depth := depth st; quote := None |}).
    { unfold split_step. rewrite Hq, Hquote, Hopen, Hclose.
      replace (depth st =? 0)%Z with false by (symmetry; apply Z.eqb_neq; lia).
      now rewrite andb_false_r. }
    rewrite Hs, IH by (reflexivity || assumption).
    simpl. unfold Js.push_char. now rewrite <- sapp_assoc.
Qed.

(** X5: a bracket group and a quoted span read outside quotes are kept
    whole, colons included: after [[], characters that are no bracket and no
    quote, and []], the parts are as before, the group has gone to the
    buffer and the depth is what it was; the same holds after a quote, text
    without that quote which does not end with a backslash, and the quote
    again. *)
Theorem splitVariants_keeps_groups (read mid : string) :
  quote (scan read) = None ->
  (Js.all_chars no_bracket_or_quote mid = true ->
   scan (read ++ "[" ++ mid ++ "]")
   = {| parts := parts (scan read);
        buf := (buf (scan read) ++ "[" ++ mid ++ "]")%string;
        depth := depth (scan read); quote := None |})
  /\ (forall q,
         is_quote_char q = true ->
         Js.all_chars (fun c => negb (Ascii.eqb c q)) mid = true ->
         last_char mid <> Some "\"%char ->
         scan (read ++ String q (mid ++ String q ""))
         = {| parts := parts (scan read);
              buf := (buf (scan read) ++ String q (mid ++ String q ""))%string;
              depth := depth (scan read); quote := None |}).
Proof.
  intros Hq.
  assert (Hd : (0 <= depth (scan read))%Z)
    by (rewrite scan_fold; apply split_loop_depth; simpl; lia).
  split.
  - intros Hm.
    rewrite (scan_fold (read ++ _)), split_loop_app, <- scan_fold.
    change ("[" ++ mid ++ "]")%string with (String "[" (mid ++ "]")).
    simpl split_loop. rewrite split_loop_app.
    assert (Hs : split_step (prev_after None read) "[" (scan read)
                 = {| parts := parts (scan read);
                      buf := Js.push_char (buf (scan read)) "[";
                      depth := (depth (scan read) + 1)%Z; quote := None |}).
    { unfold split_step. now rewrite Hq. }
    rewrite Hs, (split_loop_inside_brackets mid)
      by (reflexivity || assumption || (simpl; lia)).
    simpl. unfold split_step. simpl.
    unfold Js.push_char. rewrite <- !sapp_assoc. simpl.
    f_equal. lia.
  - intros q Hqc Hm Hlast.
    rewrite (scan_fold (read ++ _)), split_loop_app, <- scan_fold.
    simpl split_loop. rewrite split_loop_app.
    assert (Hs : split_step (prev_after None read) q (scan read)
                 = {| parts := parts (scan read);
                      buf := Js.push_char (buf (scan read)) q;
                      depth := depth (scan read); quote := Some q |}).
    { unfold split_step. now rewrite Hq, Hqc. }
    rewrite Hs, (split_loop_open_quote q mid) by (reflexivity || assumption).
    simpl. unfold split_step. simpl. rewrite Ascii.eqb_refl.
    assert (Hnb : not_backslash (prev_after (Some q) mid) = true).
    { unfold prev_after. destruct (last_char mid) as [c|] eqn:El.
      - simpl. apply negb_true_iff. apply Ascii.eqb_neq. congruence.
      - simpl. apply negb_true_iff. apply Ascii.eqb_neq. intros ->.
        unfold is_quote_char in Hqc. simpl in Hqc. discriminate. }
    rewrite Hnb. simpl.
    unfold Js.push_char. rewrite <- !sapp_assoc. reflexivity.
Qed.

Lemma splitVariants_keeps_groups_witness :
  scan "data-[state=open:x]"
  = {| parts := []; buf := "data-[state=open:x]"; depth := 0%Z;
       quote := None |}
  /\ scan "a:b'c:d'"
     = {| parts := ["a"]; buf := "b'c:d'"; depth := 0%Z; quote := None |}.
Proof.
  split.
  - apply (splitVariants_keeps_groups "data-" "state=open:x"); reflexivity.
  - apply (splitVariants_keeps_groups "a:b" "c:d" eq_refl);
      [reflexivity | reflexivity | vm_compute; discriminate].
Defined.

(** X6: a token without a colon is one segment, and the empty token has no
    segment; and splitting goes through a variant in front: when [v] is
    cut off at the colon after it, the segments of [v:t] are [v] and the
    segments of [t]. *)
Theorem splitVariants_composes (v t : string) :
  splitVariants (v ++ ":") = [v] ->
  splitVariants (v ++ ":" ++ t) = v :: splitVariants t
  /\ (Js.all_chars not_colon t = true ->
      splitVariants t = if Js.is_empty t then [] else [t])
  /\ (t <> "" -> splitVariants t <> []).
Proof.
  intros Hv. split; [now apply splitVariants_variant | ].
  split; [apply splitVariants_no_colon | apply splitVariants_nonempty].
Qed.

Lemma splitVariants_composes_witness :
  splitVariants "data-[state=open]:hover:bg-red-500"
  = "data-[state=open]" :: splitVariants "hover:bg-red-500".
Proof.
  apply (splitVariants_composes "data-[state=open]" "hover:bg-red-500").
  reflexivity.
Defined.

(** ** The classifier and the prefixer on variants *)

Lemma has_upper_app (a b : string) :
  Js.has_upper (a ++ b) = Js.has_upper a || Js.has_upper b.
Proof.
  induction a as [|c a IH]; simpl; [reflexivity | ].
  now rewrite IH, orb_assoc.
Qed.

Lemma last_elem_cons {A : Type} (x : A) (xs : list A) :
  xs <> [] -> Js.last_elem (x :: xs) = Js.last_elem xs.
Proof.
  intros Hne. unfold Js.last_elem.
  destruct xs as [|y ys]; [now elim Hne | ].
  simpl. now destruct (Js.pop ys), ys.
Qed.

(** The classifier in one formula: the third test of the source adds
    nothing to the second. *)
Lemma isLikelyTailwindToken_core (token : string) :
  isLikelyTailwindToken token
  = negb (Js.is_empty token || Js.has_upper token)
    && match Js.last_elem (splitVariants token) with
       | Some core =>
           negb (Js.is_empty core)
           && (TW_ROOTS_has core || TW_ROOTS_has (Js.before_hyphen core))
       | None => false
       end.
Proof.
  unfold isLikelyTailwindToken.
  destruct (Js.is_empty token || Js.has_upper token); [reflexivity | ].
  simpl. destruct (Js.last_elem (splitVariants token)) as [core|];
    [ | reflexivity].
  destruct (Js.is_empty core); [reflexivity | ]. simpl.
  destruct (TW_ROOTS_has core); simpl; [reflexivity | ].
  destruct (TW_ROOTS_has (Js.before_hyphen core)); [reflexivity | ].
  now rewrite andb_false_r.
Qed.

Lemma before_hyphen_app (r rest : string) :
  Js.all_chars not_hyphen r = true ->
  Js.before_hyphen (r ++ String "-" rest) = r.
Proof.
  induction r as [|c r IH]; intros Hr; [reflexivity | ].
  simpl in Hr. apply andb_true_iff in Hr as [Hc Hr].
  unfold not_hyphen in Hc. apply negb_true_iff in Hc.
  simpl. now rewrite Hc, IH.
Qed.

(** No entry of the vocabulary has an uppercase letter or a colon. *)
Lemma TW_ROOTS_plain (r : string) :
  TW_ROOTS_has r = true ->
  Js.has_upper r = false /\ Js.all_chars not_colon r = true.
Proof.
  intros Hr. unfold TW_ROOTS_has in Hr.
  apply existsb_exists in Hr as (x & Hin & Heq).
  apply String.eqb_eq in Heq. subst x.
  assert (Hall : forallb (fun x => negb (Js.has_upper x)
                                   && Js.all_chars not_colon x) TW_ROOTS
                 = true) by reflexivity.
  rewrite forallb_forall in Hall. specialize (Hall r Hin).
  apply andb_true_iff in Hall as [H1 H2].
  now apply negb_true_iff in H1.
Qed.

Lemma all_chars_true_app (P : ascii -> bool) (a b : string) :
  Js.all_chars P a = true -> Js.all_chars P b = true ->
  Js.all_chars P (a ++ b) = true.
Proof. intros Ha Hb. now rewrite all_chars_app, Ha, Hb. Qed.

(** X7: on a token without colon and without uppercase letter, the default
    classifier accepts exactly when the token, or the part of it before
    its first hyphen, is an entry of the vocabulary; so every token made of
    a hyphen-free entry, a hyphen and any such text is accepted. *)
Theorem classifier_by_first_component :
  (forall token,
      token <> "" ->
      Js.has_upper token = false ->
      Js.all_chars not_colon token = true ->
      isLikelyTailwindToken token
      = TW_ROOTS_has token || TW_ROOTS_has (Js.before_hyphen token))
  /\ (forall r suffix,
         TW_ROOTS_has r = true ->
         Js.all_chars not_hyphen r = true ->
         Js.has_upper suffix = false ->
         Js.all_chars not_colon suffix = true ->
         isLikelyTailwindToken (r ++ String "-" suffix) = true).
Proof.
  assert (H1 : forall token,
             token <> "" ->
             Js.has_upper token = false ->
             Js.all_chars not_colon token = true ->
             isLikelyTailwindToken token
             = TW_ROOTS_has token || TW_ROOTS_has (Js.before_hyphen token)).
  { intros token Hne Hup Hcol.
    rewrite isLikelyTailwindToken_core, (splitVariants_no_colon token Hcol).
    apply is_empty_false in Hne. rewrite Hne, Hup. simpl.
    unfold Js.last_elem. simpl. now rewrite Hne. }
  split; [exact H1 | ].
  intros r suffix Hr Hhy Hup Hcol.
  destruct (TW_ROOTS_plain r Hr) as [Hrup Hrcol].
  rewrite H1.
  - now rewrite (before_hyphen_app r suffix Hhy), Hr, orb_true_r.
  - now destruct r.
  - rewrite has_upper_app, Hrup. simpl. exact Hup.
  - apply all_chars_true_app; [exact Hrcol | ]. simpl. exact Hcol.
Qed.

Lemma classifier_by_first_component_witness :
  isLikelyTailwindToken "to-do-list" = true
  /\ isLikelyTailwindToken "space-x-4"
     = TW_ROOTS_has "space-x-4" || TW_ROOTS_has (Js.before_hyphen "space-x-4").
Proof.
  destruct classifier_by_first_component as [H1 H2].
  split.
  - apply (H2 "to" "do-list"); reflexivity.
  - apply (H1 "space-x-4"); [discriminate | reflexivity | reflexivity].
Defined.

Lemma variant_alone (v : string) :
  splitVariants (v ++ ":") = [v] -> v <> "" -> splitVariants v = [v].
Proof.
  intros Hv Hne. unfold splitVariants, split_finish.
  rewrite (variant_scan v Hv). simpl.
  apply is_empty_false in Hne. now rewrite Hne.
Qed.

(** X8: the default classifier looks at the last segment only: a variant in
    front of a non-empty token changes nothing unless it brings an
    uppercase letter, and a colon that ends a one-segment token is
    ignored. *)
Theorem classifier_ignores_variants (v t : string) :
  splitVariants (v ++ ":") = [v] ->
  Js.has_upper v = false ->
  (t <> "" ->
   isLikelyTailwindToken (v ++ ":" ++ t) = isLikelyTailwindToken t)
  /\ (v <> "" -> isLikelyTailwindToken (v ++ ":") = isLikelyTailwindToken v).
Proof.
  intros Hv Hup. split.
  - intros Ht. rewrite !isLikelyTailwindToken_core.
    rewrite (splitVariants_variant v t Hv).
    rewrite (last_elem_cons v) by now apply splitVariants_nonempty.
    rewrite !has_upper_app, Hup. simpl.
    apply is_empty_false in Ht. rewrite !is_empty_app, Ht.
    simpl. rewrite andb_false_r. reflexivity.
  - intros Hne. rewrite !isLikelyTailwindToken_core.
    rewrite Hv, (variant_alone v Hv Hne).
    rewrite has_upper_app, is_empty_app. simpl.
    rewrite andb_false_r, orb_false_r.
    apply is_empty_false in Hne. now rewrite Hne.
Qed.

Lemma classifier_ignores_variants_witness :
  isLikelyTailwindToken "data-[state=open]:hover:bg-red-500"
  = isLikelyTailwindToken "hover:bg-red-500"
  /\ isLikelyTailwindToken "flex:" = isLikelyTailwindToken "flex".
Proof.
  split.
  - apply (classifier_ignores_variants "data-[state=open]" "hover:bg-red-500");
      [reflexivity | reflexivity | discriminate].
  - apply (classifier_ignores_variants "flex" "");
      [reflexivity | reflexivity | discriminate].
Defined.

Lemma startsWith_bang_false (s : string) :
  Js.startsWith s "!" = false <-> first_char s <> Some "!"%char.
Proof.
  split.
  - intros H E. apply startsWith_bang_first_char in E. congruence.
  - intros H. apply not_true_iff_false. intros E.
    now apply startsWith_bang_first_char in E.
Qed.

(** X9: the prefixer leaves the variants alone: with a variant [v] in front
    of a non-empty, unmarked token it gives [v], the colon and the prefixed
    token; and, with a non-empty prefix, a colon that ends a one-segment
    token is dropped, the result being that of the token without it. *)
Theorem prefixer_keeps_variants (v t p : string) :
  splitVariants (v ++ ":") = [v] ->
  Js.startsWith v "!" = false ->
  (t <> "" ->
   Js.startsWith t "!" = false ->
   prefixOneToken (v ++ ":" ++ t) p = (v ++ ":" ++ prefixOneToken t p)%string)
  /\ (v <> "" -> p <> "" ->
      prefixOneToken (v ++ ":") p = prefixOneToken v p).
Proof.
  intros Hv Hvb.
  destruct (Js.is_empty p) eqn:Hp.
  { apply is_empty_true in Hp. subst p.
    split; [reflexivity | intros _ H; now elim H]. }
  split.
  - intros Ht Htb.
    assert (Hb : Js.startsWith (v ++ ":" ++ t) "!" = false).
    { apply startsWith_bang_false. apply startsWith_bang_false in Hvb.
      destruct v; [simpl; discriminate | exact Hvb]. }
    rewrite (prefixOneToken_unmarked _ p Hp Hb).
    rewrite (prefixOneToken_unmarked t p Hp Htb).
    rewrite (splitVariants_variant v t Hv).
    pose proof (splitVariants_nonempty t Ht) as Hne.
    destruct (splitVariants t) as [|x xs _] using rev_ind; [now elim Hne | ].
    change (v :: xs ++ [x])%list with ((v :: xs) ++ [x])%list.
    rewrite !pop_snoc. simpl Js.nullish.
    change ((v :: xs) ++ [?l])%list with (v :: (xs ++ [l]))%list.
    apply join_cons. now destruct xs.
  - intros Hne _.
    assert (Hb : Js.startsWith (v ++ ":") "!" = false).
    { apply startsWith_bang_false. apply startsWith_bang_false in Hvb.
      destruct v; [now elim Hne | exact Hvb]. }
    rewrite (prefixOneToken_unmarked _ p Hp Hb).
    rewrite (prefixOneToken_unmarked v p Hp Hvb).
    now rewrite Hv, (variant_alone v Hv Hne).
Qed.

Lemma prefixer_keeps_variants_witness :
  prefixOneToken "data-[state=open]:hover:bg-red-500" "tw-"
  = ("data-[state=open]" ++ ":" ++ prefixOneToken "hover:bg-red-500" "tw-")%string
  /\ prefixOneToken "flex:" "tw-" = prefixOneToken "flex" "tw-".
Proof.
  split.
  - apply (prefixer_keeps_variants "data-[state=open]" "hover:bg-red-500" "tw-");
      [reflexivity | reflexivity | discriminate | reflexivity].
  - apply (prefixer_keeps_variants "flex" "" "tw-");
      [reflexivity | reflexivity | discriminate | discriminate].
Defined.

Lemma TW_ROOTS_no_bang (x : string) : TW_ROOTS_has (String "!" x) = false.
Proof. reflexivity. Qed.

(** X10: the default classifier rejects every token whose last segment
    starts with the important marker, so under the default classifier the
    string rewriter leaves an important utility without variants, such as
    [!bg-red-500], as it is, whatever the prefix. *)
Theorem important_root_not_classified :
  (forall token core,
      Js.last_elem (splitVariants token) = Some core ->
      Js.startsWith core "!" = true ->
      isLikelyTailwindToken token = false)
  /\ (forall rest prefix,
         Js.all_chars not_colon rest = true ->
         Js.all_chars not_space rest = true ->
         transformClassesInString (String "!" rest) prefix None
         = String "!" rest).
Proof.
  assert (H1 : forall token core,
             Js.last_elem (splitVariants token) = Some core ->
             Js.startsWith core "!" = true ->
             isLikelyTailwindToken token = false).
  { intros token core Hlast Hb.
    rewrite isLikelyTailwindToken_core, Hlast.
    rewrite (startsWith_bang_inv core Hb). simpl Js.before_hyphen.
    rewrite !TW_ROOTS_no_bang. simpl. apply andb_false_r. }
  split; [exact H1 | ].
  intros rest prefix Hcol Hws.
  assert (Hc : isLikelyTailwindToken (String "!" rest) = false).
  { apply (H1 _ (String "!" rest)); [ | apply startsWith_bang].
    rewrite splitVariants_no_colon by (simpl; exact Hcol). reflexivity. }
  unfold transformClassesInString. rewrite rewritten_tokens_map.
  change (String "!" rest) with (Js.join " " [String "!" rest]) at 1.
  rewrite class_tokens_join.
  - simpl. unfold rewrite_token, shouldPrefix. simpl. now rewrite Hc.
  - simpl. unfold is_token. simpl. fold not_space. now rewrite Hws.
Qed.

Lemma important_root_not_classified_witness :
  transformClassesInString "!bg-red-500" "tw-" None = "!bg-red-500"
  /\ isLikelyTailwindToken "hover:!bg-red-500" = false.
Proof.
  destruct important_root_not_classified as [H1 H2].
  split.
  - apply (H2 "bg-red-500" "tw-"); reflexivity.
  - apply (H1 "hover:!bg-red-500" "!bg-red-500"); reflexivity.
Defined.

(** ** The string rewriter on token lists *)

Lemma rewritten_are_tokens (input p : string) (isTw : Classifier) :
  Js.all_chars not_space p = true ->
  forallb is_token (map (rewrite_token p isTw) (class_tokens input)) = true.
Proof.
  intros Hws.
  pose proof (class_tokens_are_tokens input) as Hall.
  rewrite forallb_forall in Hall.
  apply forallb_forall. intros x Hx.
  apply in_map_iff in Hx as (tok & <- & Hin).
  apply rewrite_token_is_token; [exact Hws | now apply Hall].
Qed.

Lemma rewrite_token_nonempty (p : string) (isTw : Classifier) (tok : string) :
  tok <> "" -> rewrite_token p isTw tok <> "".
Proof.
  intros Ht. unfold rewrite_token.
  destruct (shouldPrefix isTw tok); [now apply prefixOneToken_nonempty | exact Ht].
Qed.

Lemma join_nonempty (sep x : string) (xs : list string) :
  x <> "" -> Js.join sep (x :: xs) <> "".
Proof.
  intros Hx. destruct xs as [|y ys]; [exact Hx | ].
  rewrite join_cons by discriminate. now destruct x.
Qed.

Lemma split_ws_from_blank (s : string) :
  forall b,
    Js.all_chars Js.is_space s = true ->
    filter (fun t => negb (Js.is_empty t)) (Js.split_ws_from "" b s) = [].
Proof.
  induction s as [|c s IH]; intros b Hs; [reflexivity | ].
  simpl in Hs. apply andb_true_iff in Hs as [Hc Hs].
  simpl. rewrite Hc. destruct b; [now apply IH | ].
  simpl. now apply IH.
Qed.

(** X11: when the prefix has no white space, the string rewriter keeps the
    list of tokens: the tokens of its output are the tokens of its input,
    in order, each one rewritten on its own, so none is dropped, merged or
    cut in two; and the output is in normal form, the rewriter with the
    empty prefix leaving it as it is. *)
Theorem rewriter_keeps_token_list (input p : string) (isTw : Classifier) :
  Js.all_chars not_space p = true ->
  class_tokens (transformClassesInString input p isTw)
  = map (rewrite_token p isTw) (class_tokens input)
  /\ length (class_tokens (transformClassesInString input p isTw))
     = length (class_tokens input)
  /\ transformClassesInString (transformClassesInString input p isTw) "" isTw
     = transformClassesInString input p isTw.
Proof.
  intros Hws.
  assert (H1 : class_tokens (transformClassesInString input p isTw)
               = map (rewrite_token p isTw) (class_tokens input)).
  { unfold transformClassesInString. rewrite rewritten_tokens_map.
    apply class_tokens_join. now apply rewritten_are_tokens. }
  split; [exact H1 | ].
  split; [now rewrite H1, length_map | ].
  unfold transformClassesInString at 1.
  rewrite rewritten_tokens_empty_prefix, H1.
  unfold transformClassesInString. now rewrite rewritten_tokens_map.
Qed.

Lemma rewriter_keeps_token_list_witness :
  class_tokens
    (transformClassesInString "  flex   MyClass hover:p-4 " "tw-" None)
  = map (rewrite_token "tw-" None) ["flex"; "MyClass"; "hover:p-4"].
Proof.
  apply (rewriter_keeps_token_list "  flex   MyClass hover:p-4 " "tw-" None).
  reflexivity.
Defined.

(** A prefix with a space in it does break the list of tokens. *)
Example rewriter_space_prefix_adds_tokens :
  class_tokens (transformClassesInString "flex" "tw " None) = ["tw"; "flex"].
Proof. reflexivity. Qed.

(** X12: a class string of white space only, the empty string included,
    becomes the empty string, whatever the prefix and the classifier; and
    the output is empty only when the input has no token. *)
Theorem blank_class_string (input p : string) (isTw : Classifier) :
  (Js.all_chars Js.is_space input = true ->
   transformClassesInString input p isTw = "")
  /\ (transformClassesInString input p isTw = "" -> class_tokens input = []).
Proof.
  split.
  - intros Hs. unfold transformClassesInString.
    rewrite rewritten_tokens_map. unfold class_tokens, Js.split_ws.
    now rewrite split_ws_from_blank.
  - unfold transformClassesInString. rewrite rewritten_tokens_map.
    pose proof (class_tokens_are_tokens input) as Hall.
    destruct (class_tokens input) as [|t ts]; [reflexivity | ].
    intros E. exfalso. simpl in Hall.
    apply andb_true_iff in Hall as [Ht _].
    unfold is_token in Ht. apply andb_true_iff in Ht as [Hne _].
    apply negb_true_iff, is_empty_false in Hne.
    simpl map in E. revert E. apply join_nonempty.
    now apply rewrite_token_nonempty.
Qed.

Lemma blank_class_string_witness :
  transformClassesInString "   " "tw-" None = "".
Proof.
  apply (blank_class_string "   " "tw-" None). reflexivity.
Defined.

(** ** What the visitor and the tree pass leave alone *)

(** X13: the visitor changes the value of an attribute only when the name
    of the attribute is a plain identifier in the list of target names and
    the value is a string literal, a static template literal in an
    expression container, or a helper call in an expression container;
    every other attribute keeps its value (a string literal in braces, a
    call of another function or of a member, an identifier, a namespaced
    attribute name), and the visitor never removes or adds a value. *)
Theorem visitor_leaves_other_values
  (attrs : list string) (prefix : string) (isTw : Classifier)
  (name : JSXAttributeName) (value : option Node) :
  (isTargetJSXAttribute name attrs = false \/ eligible_value value = false ->
   visit_JSXAttribute attrs prefix isTw name value = value)
  /\ (forall ns n,
         visit_JSXAttribute attrs prefix isTw (JSXNamespacedName ns n) value
         = value)
  /\ (visit_JSXAttribute attrs prefix isTw name value = None <-> value = None).
Proof.
  split; [ | split].
  - intros [Ht | He]; unfold visit_JSXAttribute.
    + now rewrite Ht.
    + destruct (isTargetJSXAttribute name attrs); [ | reflexivity]. simpl.
      destruct value as [v|]; [ | reflexivity].
      destruct v as [ | | | | | | | | ex | | ]; try reflexivity;
        try discriminate.
      destruct ex as [ | q [|e es] | | callee args | | | | | | | ];
        try reflexivity; try discriminate.
      simpl in He. simpl. now rewrite He.
  - reflexivity.
  - unfold visit_JSXAttribute.
    destruct (isTargetJSXAttribute name attrs); simpl; [ | tauto].
    destruct value as [v|]; [ | tauto].
    split; [ | discriminate].
    destruct v as [ | | | | | | | | ex | | ]; try discriminate.
    destruct ex as [ | q [|e es] | | callee args | | | | | | | ];
      try discriminate.
    simpl. now destruct (is_helper_callee callee).
Qed.

Lemma visitor_leaves_other_values_witness :
  visit_JSXAttribute ["className"] "tw-" None (JSXIdentifier "className")
    (Some (JSXExpressionContainer (StringLiteral "flex")))
  = Some (JSXExpressionContainer (StringLiteral "flex"))
  /\ visit_JSXAttribute ["className"] "tw-" None (JSXIdentifier "id")
       (Some (StringLiteral "flex"))
     = Some (StringLiteral "flex").
Proof.
  split.
  - apply (visitor_leaves_other_values ["className"] "tw-" None
             (JSXIdentifier "className")
             (Some (JSXExpressionContainer (StringLiteral "flex")))).
    right. reflexivity.
  - apply (visitor_leaves_other_values ["className"] "tw-" None
             (JSXIdentifier "id") (Some (StringLiteral "flex"))).
    left. reflexivity.
Defined.

Lemma existsb_false_in {A : Type} (f : A -> bool) (xs : list A) :
  existsb f xs = false -> forall x, In x xs -> f x = false.
Proof.
  induction xs as [|y ys IH]; simpl; intros H x Hin; [now elim Hin | ].
  apply orb_false_iff in H as [Hy Hys].
  destruct Hin as [<- | Hin]; [exact Hy | now apply IH].
Qed.

Lemma walk_without_target (attrs : list string) (prefix : string)
  (isTw : Classifier) :
  forall k n,
    height n <= k ->
    has_target_attribute attrs n = false ->
    walk attrs prefix isTw n = n.
Proof.
  induction k as [|k IH]; intros n Hn Hno.
  - pose proof (height_positive n). lia.
  - assert (Hl : forall ns,
               heights ns <= k ->
               existsb (has_target_attribute attrs) ns = false ->
               map (walk attrs prefix isTw) ns = ns).
    { intros ns Hns Hex. rewrite <- (map_id ns) at 2.
      apply map_ext_in. intros x Hx. apply IH.
      - now apply (heights_bound ns).
      - now apply (existsb_false_in _ ns). }
    destruct n as [v | q es | x | c args | op l r | ps | es | a | e
                   | name value | ty cs];
      simpl in Hn; rewrite ?height_children in Hn; simpl in Hno; simpl.
    + reflexivity.
    + rewrite Hl by (lia || assumption). reflexivity.
    + reflexivity.
    + apply orb_false_iff in Hno as [H1 H2].
      rewrite IH, Hl by (lia || assumption). reflexivity.
    + apply orb_false_iff in Hno as [H1 H2].
      rewrite !IH by (lia || assumption). reflexivity.
    + rewrite Hl by (lia || assumption). reflexivity.
    + rewrite Hl by (lia || assumption). reflexivity.
    + rewrite IH by (lia || assumption). reflexivity.
    + rewrite IH by (lia || assumption). reflexivity.
    + apply orb_false_iff in Hno as [H1 H2].
      unfold visit_JSXAttribute. rewrite H1. simpl.
      destruct value as [v|]; [ | reflexivity].
      rewrite IH by (simpl in Hn; lia || assumption). reflexivity.
    + rewrite Hl by (lia || assumption). reflexivity.
Qed.

(** X14: a tree in which no attribute has a target name comes out of the
    tree pass unchanged, whatever the prefix and the classifier: string
    literals and template literals outside target attributes are never
    touched. *)
Theorem tree_without_target_unchanged
  (userOpts : option TailwindPrefixPluginOpts) (prefix : string)
  (ast : Node) :
  has_target_attribute (plugin_attrs userOpts) ast = false ->
  rewrite_tree userOpts prefix ast = Some ast.
Proof.
  intros Hno. rewrite rewrite_tree_is_walk. f_equal.
  now apply (walk_without_target _ _ _ (height ast)).
Qed.

Lemma tree_without_target_unchanged_witness :
  rewrite_tree (prefix_opts "tw-") "tw-"
    (OtherNode "JSXOpeningElement"
       [JSXAttribute (JSXIdentifier "title") (Some (StringLiteral "flex"));
        CallExpression (Identifier "clsx") [StringLiteral "bg-red-500"]])
  = Some
      (OtherNode "JSXOpeningElement"
         [JSXAttribute (JSXIdentifier "title") (Some (StringLiteral "flex"));
          CallExpression (Identifier "clsx") [StringLiteral "bg-red-500"]]).
Proof.
  apply (tree_without_target_unchanged (prefix_opts "tw-") "tw-").
  reflexivity.
Defined.

(** ** The outcome of [transform], and the file filter *)

(** For options whose callbacks return and keep no state, the hook does
    what the functions for such callbacks say: the filter is [makeFilter],
    the tree pass is [rewrite_tree], and the state of the matchers stays as
    it is. *)
Lemma plugin_attrs_lift {World : Type} (o : option TailwindPrefixPluginOpts) :
  plugin_attrs (option_map (@lift_opts World) o) = plugin_attrs o.
Proof. now destruct o. Qed.

Lemma isTwToken_lift {World : Type} (o : option TailwindPrefixPluginOpts) :
  opt_field isTwToken (option_map (@lift_opts World) o)
  = returning (opt_field isTwToken o).
Proof. now destruct o. Qed.

Lemma plugin_filter_lift {World : Type} (o : option TailwindPrefixPluginOpts)
  (id : string) (w : World) :
  Hook.plugin_filter (option_map lift_opts o) id w
  = (Returned (makeFilter (Js.nullish o empty_opts) id), w).
Proof.
  destruct o as [o|]; [apply makeFilter_lift | ].
  apply (makeFilter_lift empty_opts).
Qed.

Lemma rewrite_tree_lift {World : Type} (o : option TailwindPrefixPluginOpts)
  (prefix : string) (ast : Node) :
  Hook.rewrite_tree (option_map (@lift_opts World) o) prefix ast
  = option_map Returned (rewrite_tree o prefix ast).
Proof.
  rewrite rewrite_tree_is_walk, hook_rewrite_tree_outcome. simpl.
  rewrite plugin_attrs_lift, isTwToken_lift, answers_returning.
  now rewrite tree_throws_returning.
Qed.

(** X15: [transform] gives [null] for an id the filter rejects, without
    looking at the code, and fails when the filter throws; for an accepted
    id it fails when the parser throws, and on code that parses it fails
    exactly when the classifier throws on a token of a class string of the
    tree, and otherwise returns the code printed for the tree the pass
    gives, which is the tree of the pass under the answers of the
    classifier: the pass itself always ends, and [transform] fails in no
    other way.  The default classifier never throws.  The matchers are left
    in the state the filter left them in.  Before [buildStart] has run the
    pass uses the empty prefix, whatever [prefixOverride] says.  For
    options whose callbacks return and keep no state, this is the filter
    and the tree pass of the functions for such callbacks. *)
Theorem transform_outcome
  (World : Type) (parse : string -> option Node)
  (generate : Node -> string -> string)
  (userOpts : option (Hook.Options World)) (st : PluginState)
  (code id : string) (w : World) :
  let prefix := Js.nullish (cachedPrefix st) "" in
  let attrs := plugin_attrs userOpts in
  let isTw := opt_field isTwToken userOpts in
  let run := Hook.transform parse generate userOpts st code id w in
  (forall w',
      Hook.plugin_filter userOpts id w = (Returned false, w') ->
      run = (Hook.Skipped, w'))
  /\ (forall w',
         Hook.plugin_filter userOpts id w = (Thrown, w') ->
         run = (Hook.Failed Hook.FilterThrew, w'))
  /\ (forall w',
         Hook.plugin_filter userOpts id w = (Returned true, w') ->
         parse code = None ->
         run = (Hook.Failed Hook.ParserThrew, w'))
  /\ (forall w' ast,
         Hook.plugin_filter userOpts id w = (Returned true, w') ->
         parse code = Some ast ->
         exists ast',
           traverse (visit_JSXAttribute attrs prefix (answers isTw)) ast
           = Some ast'
           /\ Hook.rewrite_tree userOpts prefix ast
              = Some (outcome_if (tree_throws attrs isTw ast) ast')
           /\ run = (if tree_throws attrs isTw ast
                     then Hook.Failed Hook.ClassifierThrew
                     else Hook.Generated (generate ast' code), w'))
  /\ (isTw = None -> forall ast, tree_throws attrs isTw ast = false)
  /\ snd run = snd (Hook.plugin_filter userOpts id w)
  /\ Hook.transform parse generate userOpts initial_state code id w
     = Hook.transform parse generate userOpts (mkState (Some "")) code id w
  /\ (forall (o : option TailwindPrefixPluginOpts),
         exists pass : Node -> Node,
           (forall ast, rewrite_tree o prefix ast = Some (pass ast))
           /\ Hook.transform parse generate (option_map lift_opts o) st
                code id w
              = (if makeFilter (Js.nullish o empty_opts) id then
                   match parse code with
                   | None => Hook.Failed Hook.ParserThrew
                   | Some ast => Hook.Generated (generate (pass ast) code)
                   end
                 else Hook.Skipped, w)).
Proof.
  intros prefix attrs isTw run.
  pose proof (hook_transform_cases parse generate userOpts st code id w)
    as Hcases.
  cbv zeta in Hcases. fold prefix attrs isTw run in Hcases.
  split; [intros w' Hf; now rewrite Hf in Hcases | ].
  split; [intros w' Hf; now rewrite Hf in Hcases | ].
  split; [intros w' Hf Hp; now rewrite Hf, Hp in Hcases | ].
  split.
  { intros w' ast Hf Hp. rewrite Hf, Hp in Hcases.
    exists (walk attrs prefix (answers isTw) ast).
    repeat split;
      [apply traverse_is_walk | apply hook_rewrite_tree_outcome
       | exact Hcases]. }
  split.
  { intros Hnone ast. rewrite Hnone.
    apply (tree_throws_returning attrs None). }
  split.
  { destruct (Hook.plugin_filter userOpts id w) as [[[|]|] w'];
      try (now rewrite Hcases).
    destruct (parse code) as [ast|]; now rewrite Hcases. }
  split; [reflexivity | ].
  intros o.
  exists (walk (plugin_attrs o) prefix (opt_field isTwToken o)).
  split; [intros ast; apply rewrite_tree_is_walk | ].
  unfold Hook.transform.
  rewrite plugin_filter_lift. fold prefix.
  destruct (makeFilter (Js.nullish o empty_opts) id); [ | reflexivity].
  destruct (parse code) as [ast|]; [ | reflexivity].
  now rewrite rewrite_tree_lift, rewrite_tree_is_walk.
Qed.

Lemma transform_outcome_witness :
  let userOpts : option (Hook.Options unit) :=
    option_map lift_opts (prefix_opts "tw-") in
  Hook.transform toy_parse toy_generate userOpts initial_state
    "flex" "node_modules/x/App.tsx" tt
  = (Hook.Skipped, tt)
  /\ Hook.transform toy_parse toy_generate userOpts initial_state
       "" "App.tsx" tt
     = (Hook.Failed Hook.ParserThrew, tt).
Proof.
  intros userOpts. split.
  - destruct (transform_outcome unit toy_parse toy_generate userOpts
                initial_state "flex" "node_modules/x/App.tsx" tt) as (H & _).
    apply H. reflexivity.
  - destruct (transform_outcome unit toy_parse toy_generate userOpts
                initial_state "" "App.tsx" tt) as (_ & _ & H & _).
    apply H; reflexivity.
Defined.

Lemma index_at_prefix (sub s : string) :
  String.prefix sub s = true -> String.index 0 sub s <> None.
Proof.
  intros H. destruct s as [|b s].
  - destruct sub; [discriminate | discriminate H].
  - cbn [String.index]. rewrite H. discriminate.
Qed.

Lemma index_later (sub s : string) (c : ascii) :
  String.index 0 sub s <> None -> String.index 0 sub (String c s) <> None.
Proof.
  intros H. cbn [String.index].
  destruct (String.prefix sub (String c s)); [discriminate | ].
  destruct (String.index 0 sub s); [discriminate | now elim H].
Qed.

Lemma index_app (sub pre post : string) :
  String.index 0 sub (pre ++ sub ++ post) <> None.
Proof.
  induction pre as [|c pre IH].
  - apply index_at_prefix. exact (startsWith_app sub post).
  - apply index_later. exact IH.
Qed.

Lemma contains_app (sub pre post : string) :
  Regex.contains (pre ++ sub ++ post) sub = true.
Proof.
  unfold Regex.contains.
  pose proof (index_app sub pre post) as H.
  now destruct (String.index 0 sub (pre ++ sub ++ post)).
Qed.

Lemma substring_all (b : string) : String.substring 0 (String.length b) b = b.
Proof. induction b as [|c b IH]; simpl; [reflexivity | now rewrite IH]. Qed.

Lemma substring_app_right (a b : string) :
  String.substring (String.length a) (String.length b) (a ++ b) = b.
Proof. induction a as [|c a IH]; simpl; [apply substring_all | exact IH]. Qed.

Lemma ends_with_app (a b : string) : Regex.ends_with (a ++ b) b = true.
Proof.
  unfold Regex.ends_with. rewrite slength_app.
  replace (String.length a + String.length b - String.length b)
    with (String.length a) by lia.
  rewrite substring_app_right, String.eqb_refl.
  apply andb_true_iff. split; [apply Nat.leb_le; lia | reflexivity].
Qed.

Lemma lower_app (a b : string) :
  Regex.lower (a ++ b) = (Regex.lower a ++ Regex.lower b)%string.
Proof. induction a as [|c a IH]; simpl; [reflexivity | now rewrite IH]. Qed.

(** X16: with the default options, a file whose id has [node_modules]
    anywhere in it is never transformed, whatever its extension; a file
    whose id ends with [.js], [.jsx], [.ts] or [.tsx], in any letter case,
    is transformed exactly when [node_modules] does not occur in the id;
    and for all options an id the exclude matcher accepts is rejected,
    whatever the include matcher says. *)
Theorem default_filter :
  (forall pre post,
      makeFilter empty_opts (pre ++ "node_modules" ++ post) = false)
  /\ (forall base ext,
         In (Regex.lower ext) [".jsx"; ".tsx"; ".js"; ".ts"] ->
         makeFilter empty_opts (base ++ ext)
         = negb (Regex.contains (base ++ ext) "node_modules"))
  /\ (forall opts id,
         run_matcher
           (Js.nullish (exclude opts) (MatchRegExp Regex.default_exclude)) id
         = true ->
         makeFilter opts id = false).
Proof.
  split; [ | split].
  - intros pre post.
    change (makeFilter empty_opts (pre ++ "node_modules" ++ post))
      with (Regex.default_include (pre ++ "node_modules" ++ post)
            && negb (Regex.contains (pre ++ "node_modules" ++ post)
                       "node_modules")).
    rewrite contains_app. apply andb_false_r.
  - intros base ext Hin.
    change (makeFilter empty_opts (base ++ ext))
      with (Regex.default_include (base ++ ext)
            && negb (Regex.contains (base ++ ext) "node_modules")).
    assert (Hinc : Regex.default_include (base ++ ext) = true).
    { unfold Regex.default_include. apply existsb_exists.
      exists (Regex.lower ext). split; [exact Hin | ].
      rewrite lower_app. apply ends_with_app. }
    now rewrite Hinc.
  - intros opts id H. unfold makeFilter. rewrite H. apply andb_false_r.
Qed.

Lemma default_filter_witness :
  makeFilter empty_opts "src/pages/Home.TSX"
  = negb (Regex.contains "src/pages/Home.TSX" "node_modules").
Proof.
  destruct default_filter as (_ & H & _).
  apply (H "src/pages/Home" ".TSX"). right. left. reflexivity.
Defined.

(** ** Escaped quotes, and where the prefix goes *)

Lemma split_step_in_quote (prev : option ascii) (ch : ascii)
  (st : SplitState) (q : ascii) :
  quote st = Some q ->
  split_step prev ch st
  = {| parts := parts st; buf := Js.push_char (buf st) ch;
       depth := depth st;
       quote := if Ascii.eqb ch q && not_backslash prev then None
                else Some q |}.
Proof. intros Hq. unfold split_step. now rewrite Hq. Qed.

(** X17: inside a quoted span a quote that follows a backslash does not
    close the span: after a quote, text without that quote, a backslash and
    the quote again, the loop is still inside the span, with all of it in
    the buffer, so colons that follow are not split at. *)
Theorem escaped_quote_keeps_span_open (read mid : string) (q : ascii) :
  quote (scan read) = None ->
  is_quote_char q = true ->
  Js.all_chars (fun c => negb (Ascii.eqb c q)) mid = true ->
  scan (read ++ String q (mid ++ String "\" (String q "")))
  = {| parts := parts (scan read);
       buf := (buf (scan read)
               ++ String q (mid ++ String "\" (String q "")))%string;
       depth := depth (scan read); quote := Some q |}.
Proof.
  intros Hq Hqc Hm.
  rewrite (scan_fold (read ++ _)), split_loop_app, <- scan_fold.
  simpl split_loop. rewrite split_loop_app.
  assert (Hs : split_step (prev_after None read) q (scan read)
               = {| parts := parts (scan read);
                    buf := Js.push_char (buf (scan read)) q;
                    depth := depth (scan read); quote := Some q |}).
  { unfold split_step. now rewrite Hq, Hqc. }
  rewrite Hs, (split_loop_open_quote q mid) by (reflexivity || assumption).
  assert (Hbs : Ascii.eqb "\" q = false).
  { apply Ascii.eqb_neq. intros <-. discriminate Hqc. }
  cbn [split_loop].
  rewrite (split_step_in_quote _ "\"%char _ q) by reflexivity.
  rewrite Hbs. cbn [andb].
  rewrite (split_step_in_quote _ q _ q) by reflexivity.
  rewrite Ascii.eqb_refl.
  cbn [andb not_backslash parts buf depth quote].
  rewrite Ascii.eqb_refl. cbn [negb].
  unfold Js.push_char. rewrite <- !sapp_assoc. reflexivity.
Qed.

Lemma escaped_quote_keeps_span_open_witness :
  scan "a:b'c\'"
  = {| parts := ["a"]; buf := "b'c\'"; depth := 0%Z; quote := Some "'"%char |}.
Proof.
  apply (escaped_quote_keeps_span_open "a:b" "c" "'"%char); reflexivity.
Defined.

Lemma last_char_tail (c : ascii) (s : string) :
  s <> "" -> last_char (String c s) = last_char s.
Proof. destruct s; [intros H; now elim H | reflexivity]. Qed.

(** The token is its root with some text in front, and joining the other
    segments with any last segment puts that text in front of it. *)
Lemma root_decomposition (tok : string) :
  last_char tok <> Some ":"%char ->
  forall segs popped,
    Js.pop (splitVariants tok) = (segs, popped) ->
    exists before,
      tok = (before ++ Js.nullish popped "")%string
      /\ forall x, Js.join ":" (segs ++ [x]) = (before ++ x)%string.
Proof.
  intros Hlast segs popped Hpop.
  assert (Hjoin : Js.join ":" (splitVariants tok) = tok).
  { destruct (splitVariants_join tok) as [H | [_ H]]; [exact H | ].
    elim Hlast. rewrite H. apply last_char_app_colon. }
  destruct popped as [l|].
  - apply pop_spec in Hpop. rewrite Hpop in Hjoin.
    exists (Js.join ":" (segs ++ [""])). split.
    + simpl. rewrite <- Hjoin.
      now rewrite <- (join_snoc_app ":" segs "" l).
    + intros x. now rewrite <- (join_snoc_app ":" segs "" x).
  - pose proof (pop_nil_inv (splitVariants tok)) as Hnil.
    rewrite Hpop in Hnil. specialize (Hnil eq_refl).
    rewrite Hnil in Hpop, Hjoin. simpl in Hpop, Hjoin.
    injection Hpop as <-. exists "". split; [now rewrite <- Hjoin | ].
    reflexivity.
Qed.

(** Where the prefix goes, on a token that does not end with a colon. *)
Lemma prefix_before_root (token p : string) :
  p <> "" ->
  last_char token <> Some ":"%char ->
  let tok := if Js.startsWith token "!" then Js.slice1 token else token in
  let root := Js.nullish (Js.last_elem (splitVariants tok)) "" in
  exists before,
    token = (before ++ root)%string
    /\ prefixOneToken token p
       = (before ++ (if Js.startsWith root p then root
                     else (p ++ root)%string))%string.
Proof.
  intros Hp Hlast. apply is_empty_false in Hp.
  destruct (Js.startsWith token "!") eqn:Hb; simpl.
  - rewrite (startsWith_bang_inv token Hb) in *.
    set (tok := Js.slice1 token) in *. simpl Js.slice1.
    assert (Htok : last_char tok <> Some ":"%char).
    { destruct tok as [|c tok'] eqn:E; [discriminate | ].
      rewrite last_char_tail in Hlast by discriminate. exact Hlast. }
    rewrite (prefixOneToken_marked tok p Hp).
    unfold Js.last_elem.
    destruct (Js.pop (splitVariants tok)) as [segs popped] eqn:Hpop.
    destruct (root_decomposition tok Htok segs popped Hpop)
      as (before & Heq & Hj).
    exists (String "!" before). simpl. split; [now rewrite <- Heq | ].
    now rewrite Hj.
  - rewrite (prefixOneToken_unmarked token p Hp Hb).
    unfold Js.last_elem.
    destruct (Js.pop (splitVariants token)) as [segs popped] eqn:Hpop.
    destruct (root_decomposition token Hlast segs popped Hpop)
      as (before & Heq & Hj).
    exists before. simpl. split; [exact Heq | apply Hj].
Qed.

(** X18: on a token that does not end with a colon, and for a non-empty
    prefix, the prefixer changes nothing but the root: the token is some
    text followed by its root (the last segment of the token without its
    important marker), and the result is that same text followed by the
    root itself when the root already starts with the prefix, and by the
    prefix and the root otherwise. *)
Theorem prefix_goes_before_root (token p : string) :
  p <> "" ->
  last_char token <> Some ":"%char ->
  let tok := if Js.startsWith token "!" then Js.slice1 token else token in
  let root := Js.nullish (Js.last_elem (splitVariants tok)) "" in
  exists before,
    token = (before ++ root)%string
    /\ prefixOneToken token p
       = (before ++ (if Js.startsWith root p then root
                     else (p ++ root)%string))%string.
Proof. apply prefix_before_root. Qed.

Lemma prefix_goes_before_root_witness :
  exists before,
    "!data-[state=open]:hover:bg-red-500" = (before ++ "bg-red-500")%string
    /\ prefixOneToken "!data-[state=open]:hover:bg-red-500" "tw-"
       = (before ++ "tw-bg-red-500")%string.
Proof.
  apply (prefix_goes_before_root "!data-[state=open]:hover:bg-red-500" "tw-");
    [discriminate | vm_compute; discriminate].
Defined.

(** X19: a token whose root already starts with the (non-empty) prefix, and
    which does not end with a colon, is returned unchanged by the prefixer,
    and so is left unchanged by the string rewriter whatever the
    classifier says about it. *)
Theorem already_prefixed_unchanged (token p : string) (isTw : Classifier) :
  p <> "" ->
  last_char token <> Some ":"%char ->
  Js.startsWith
    (Js.nullish
       (Js.last_elem
          (splitVariants
             (if Js.startsWith token "!" then Js.slice1 token else token)))
       "") p = true ->
  prefixOneToken token p = token
  /\ rewrite_token p isTw token = token.
Proof.
  intros Hp Hlast Hroot.
  assert (H : prefixOneToken token p = token).
  { destruct (prefix_before_root token p Hp Hlast) as (before & Heq & Hres).
    cbv zeta in Hres. rewrite Hroot in Hres. now rewrite Hres, <- Heq. }
  split; [exact H | ].
  unfold rewrite_token. now destruct (shouldPrefix isTw token).
Qed.

Lemma already_prefixed_unchanged_witness :
  prefixOneToken "!hover:tw-bg-red-500" "tw-" = "!hover:tw-bg-red-500"
  /\ rewrite_token "tw-" (Some (fun _ => true)) "!hover:tw-bg-red-500"
     = "!hover:tw-bg-red-500".
Proof.
  apply (already_prefixed_unchanged "!hover:tw-bg-red-500" "tw-"
           (Some (fun _ => true)));
    [discriminate | vm_compute; discriminate | reflexivity].
Defined.
